(** * Assisted grasping of [igibson/robots/manipulation_robot.py]

    A shallow embedding of the assisted-grasping logic of [ManipulationRobot]
    (candidate selection, constraint creation, the release window, the
    [is_grasping] query, [dump_state] / [load_state]) and the properties of
    its lifecycle.

    Conventions of the embedding.
    - Python floats are IEEE binary64 numbers: Rocq's primitive [float].
    - Python [None] is [None] of an [option]; the truth value Python gives to
      an object in [if x:] is written out ([truthy_int], [truthy_bool]).
    - The robot keeps one dictionary per field, each keyed by the arm name
      ([self._ag_obj_in_hand[arm]], ...).  All of them are created over
      [arm_names], so the embedding keeps one dictionary from the arm name to
      a record [AG] of these fields.
    - Exceptions abort the running method and leave the mutations made so far
      in place: a computation is a function from the state to an [outcome]
      and the state reached.
    - A Python [set] is a finite set ([gset]).  Where the code iterates over
      one, the order is the interpreter's: it is a parameter of the step
      ([candidates_order], [contact_choice] of [Obs]).
    - PyBullet is not part of the repository.  What the robot changes in the
      engine (user constraints, the collision filter table, joint targets)
      is kept in a small table model [World]; what it reads from the engine
      during one step (contacts, ray hits, poses, ...) is a record [Obs] of
      functions handed to that step. *)

From Stdlib Require Import ZArith Ascii Floats.PrimFloat.
From Stdlib Require Import Floats.SpecFloat Floats.FloatOps Floats.FloatAxioms.
From stdpp Require Import gmap strings list.

Set Warnings "-inexact-float,-clear-no-such-hyp".
Open Scope Z_scope.

(** ** Python values and control *)

Module Py.

Inductive exn :=
| AssertionError | ValueError | KeyError | TypeError | IndexError
| AttributeError | Exception.

Inductive outcome (A : Type) :=
| Ok (a : A)
| Raise (e : exn).
Arguments Ok {A} a.
Arguments Raise {A} e.

(** A method: runs on a state, returns or raises, and leaves a state. *)
Definition M (S A : Type) : Type := S → outcome A * S.

Definition ret {S A} (a : A) : M S A := λ s, (Ok a, s).
Definition raise {S A} (e : exn) : M S A := λ s, (Raise e, s).
Definition bind {S A B} (m : M S A) (k : A → M S B) : M S B :=
  λ s, match m s with
       | (Ok a, s') => k a s'
       | (Raise e, s') => (Raise e, s')
       end.
Definition gets {S A} (f : S → A) : M S A := λ s, (Ok (f s), s).
Definition modify {S} (f : S → S) : M S unit := λ s, (Ok tt, f s).
Definition assert {S} (b : bool) : M S unit :=
  if b then ret tt else raise AssertionError.

(** [for x in xs: body x] *)
Fixpoint for_each {S A} (xs : list A) (body : A → M S unit) : M S unit :=
  match xs with
  | [] => ret tt
  | x :: xs' => bind (body x) (λ _, for_each xs' body)
  end.

(** The same loop with a local variable that the body updates. *)
Fixpoint fold_each {S A B} (xs : list A) (body : B → A → M S B) (b : B)
  : M S B :=
  match xs with
  | [] => ret b
  | x :: xs' => bind (body b x) (fold_each xs' body)
  end.

(** Truth value of [None] / an [int] / a [bool] in a condition. *)
Definition truthy_int (o : option Z) : bool :=
  match o with
  | None => false
  | Some z => negb (z =? 0)
  end.
Definition truthy_bool (o : option bool) : bool :=
  match o with
  | None => false
  | Some b => b
  end.
Definition is_not_None {A} (o : option A) : bool :=
  match o with
  | None => false
  | Some _ => true
  end.

(** [float(z)] for an [int], as in [int * float]: the nearest float, ties
    to even.  (Where that is an infinity, for integers of more than 1024
    bits, Python raises an [OverflowError] instead.) *)
Definition float_of_int (z : Z) : float :=
  SF2Prim (binary_normalize prec emax z 0 false).

(** [a, b = t] for a tuple [t] of [len] entries, of which [first_two] are
    the first two: a [ValueError] unless there are two. *)
Definition unpack2 {S A} (len : nat) (first_two : A) : M S A :=
  if (len =? 2)%nat then ret first_two else raise ValueError.

(** [for x in X] on a set: the elements, in an order that Python leaves to
    the implementation.  The order is a parameter: the elements that
    [order] names come first, as [order] has them, the others after
    them. *)
Definition iter_set `{Countable K} (order : list K) (X : gset K) : list K :=
  filter (λ x, x ∈ X) (remove_dups order)
  ++ filter (λ x, x ∉ order) (elements X).

(** [int(s)] for a [str] in base 10: blanks around, a sign, digits with
    single underscores between them; anything else is a [ValueError]. *)
Definition is_space (c : ascii) : bool :=
  let n := Z.of_nat (nat_of_ascii c) in
  (n =? 32) || ((9 <=? n) && (n <=? 13)) || ((28 <=? n) && (n <=? 31)).
Definition digit_of (c : ascii) : option Z :=
  let n := Z.of_nat (nat_of_ascii c) in
  if (48 <=? n) && (n <=? 57) then Some (n - 48) else None.
Definition is_underscore (c : ascii) : bool :=
  Z.of_nat (nat_of_ascii c) =? 95.

Fixpoint lstrip (cs : list ascii) : list ascii :=
  match cs with
  | c :: r => if is_space c then lstrip r else cs
  | [] => []
  end.
Definition strip (cs : list ascii) : list ascii :=
  reverse (lstrip (reverse (lstrip cs))).

Fixpoint digits_from (cs : list ascii) (acc : Z) (after_underscore : bool)
  : option Z :=
  match cs with
  | [] => if after_underscore then None else Some acc
  | c :: r =>
      match digit_of c with
      | Some d => digits_from r (10 * acc + d) false
      | None =>
          if is_underscore c && negb after_underscore
          then digits_from r acc true
          else None
      end
  end.

Definition unsigned_of (cs : list ascii) : option Z :=
  match cs with
  | c :: r =>
      match digit_of c with
      | Some d => digits_from r d false
      | None => None
      end
  | [] => None
  end.

Definition int_of_str (s : string) : option Z :=
  match strip (String.list_ascii_of_string s) with
  | c :: r =>
      let n := Z.of_nat (nat_of_ascii c) in
      if n =? 45 then Z.opp <$> unsigned_of r
      else if n =? 43 then unsigned_of r
      else unsigned_of (c :: r)
  | [] => None
  end.

End Py.
Export Py.

(** The methods use stdpp's monad notation: [x ← m; k] and [m;; k]. *)
#[global] Instance M_ret {S} : MRet (Py.M S) := λ A, @Py.ret S A.
#[global] Instance M_bind {S} : MBind (Py.M S) := λ A B k m, @Py.bind S A B m k.

(** ** The physics engine, as far as the robot uses it *)

Module Bullet.

Definition vec3 : Type := float * float * float.
Definition quat : Type := float * float * float * float.
Definition pose : Type := vec3 * quat.

(** [p.JOINT_REVOLUTE], ..., in the order of their numbers 0 to 6. *)
Inductive JointType :=
| JOINT_REVOLUTE | JOINT_PRISMATIC | JOINT_SPHERICAL | JOINT_PLANAR
| JOINT_FIXED | JOINT_POINT2POINT | JOINT_GEAR.

#[global] Instance JointType_eq_dec : EqDecision JointType.
Proof. solve_decision. Defined.

(** The fields of [ContactResult] that the robot reads. *)
Record ContactResult := {
  bodyUniqueIdA : Z;
  bodyUniqueIdB : Z;
  linkIndexA : Z;
  linkIndexB : Z;
  positionOnA : vec3 }.

(** A user constraint as [p.createConstraint] receives it ([jointAxis] is
    always [(0, 0, 0)]), and the force set by [p.changeConstraint]. *)
Record Constraint := {
  c_parentBodyUniqueId : Z;
  c_parentLinkIndex : Z;
  c_childBodyUniqueId : Z;
  c_childLinkIndex : Z;
  c_jointType : JointType;
  c_parentFramePosition : vec3;
  c_childFramePosition : vec3;
  c_parentFrameOrientation : option quat;
  c_childFrameOrientation : quat;
  c_maxForce : option float }.

Definition with_maxForce (f : float) (c : Constraint) : Constraint :=
  {| c_parentBodyUniqueId := c_parentBodyUniqueId c;
     c_parentLinkIndex := c_parentLinkIndex c;
     c_childBodyUniqueId := c_childBodyUniqueId c;
     c_childLinkIndex := c_childLinkIndex c;
     c_jointType := c_jointType c;
     c_parentFramePosition := c_parentFramePosition c;
     c_childFramePosition := c_childFramePosition c;
     c_parentFrameOrientation := c_parentFrameOrientation c;
     c_childFrameOrientation := c_childFrameOrientation c;
     c_maxForce := Some f |}.

(** What the robot's calls change in the engine: the user constraints by
    their id, the collision filter pairs that were set, keyed by
    [(bodyA, bodyB, linkA, linkB)], and the joint states that were reset,
    keyed by [(body, joint)]. *)
Record World := {
  constraints : gmap Z Constraint;
  next_constraint : Z;
  collision_filter : gmap (Z * Z * Z * Z) bool;
  joint_targets : gmap (Z * Z) (float * float) }.

Definition createConstraint (c : Constraint) (w : World) : Z * World :=
  (next_constraint w,
   {| constraints := <[next_constraint w := c]> (constraints w);
      next_constraint := next_constraint w + 1;
      collision_filter := collision_filter w;
      joint_targets := joint_targets w |}).

Definition changeConstraint (cid : Z) (force : float) (w : World) : World :=
  {| constraints := alter (with_maxForce force) cid (constraints w);
     next_constraint := next_constraint w;
     collision_filter := collision_filter w;
     joint_targets := joint_targets w |}.

Definition removeConstraint (cid : Z) (w : World) : World :=
  {| constraints := delete cid (constraints w);
     next_constraint := next_constraint w;
     collision_filter := collision_filter w;
     joint_targets := joint_targets w |}.

Definition setCollisionFilterPair
    (bodyA bodyB linkA linkB : Z) (enable : bool) (w : World) : World :=
  {| constraints := constraints w;
     next_constraint := next_constraint w;
     collision_filter :=
       <[(bodyA, bodyB, linkA, linkB) := enable]> (collision_filter w);
     joint_targets := joint_targets w |}.

Definition resetJointState
    (body joint : Z) (targetValue targetVelocity : float) (w : World)
  : World :=
  {| constraints := constraints w;
     next_constraint := next_constraint w;
     collision_filter := collision_filter w;
     joint_targets :=
       <[(body, joint) := (targetValue, targetVelocity)]> (joint_targets w) |}.

(** [p.getLinkState] returns a tuple of six entries (eight with the link
    velocity, which the robot does not ask for). *)
Definition getLinkState_entries : nat := 6.

End Bullet.
Export Bullet.

(** ** Constants of the module *)

Inductive IsGraspingState := TRUE | UNKNOWN | FALSE.

(** [AG_MODES]; the constructor refuses any other [grasping_mode]. *)
Inductive AGMode := physical | assisted | sticky.

#[global] Instance AGMode_eq_dec : EqDecision AGMode.
Proof. solve_decision. Defined.

Definition ASSIST_FRACTION : float := 1.0.
Definition ARTICULATED_ASSIST_FRACTION : float := 0.7.
Definition MIN_ASSIST_FORCE : Z := 0.
Definition MAX_ASSIST_FORCE : Z := 500.
Definition ASSIST_FORCE : float :=
  (float_of_int MIN_ASSIST_FORCE
   + float_of_int (MAX_ASSIST_FORCE - MIN_ASSIST_FORCE) * ASSIST_FRACTION)%float.
Definition CONSTRAINT_VIOLATION_THRESHOLD : float := 0.1.
Definition RELEASE_WINDOW : float := (1 / 30.0)%float.
Definition POS_TOLERANCE : float := 0.002.
Definition VEL_TOLERANCE : float := 0.01.

Record GraspingPoint := { link_name : string; position : vec3 }.

(** ** The robot *)

Record RobotLink := { body_id : Z; link_id : Z }.
Record RobotJoint := { joint_name : string; joint_body_id : Z; joint_id : Z }.

(** The gripper controllers [is_grasping] tells apart. *)
Inductive MotorType := motor_position | motor_velocity | motor_torque.
Inductive Controller :=
| NullGripperController
| JointController
| ParallelJawGripperController
    (mode : string) (control : option (list float)) (motor_type : MotorType)
    (limit_tolerance : float)
| OtherController.

(** What the robot reads from the engine, the simulator and the scene
    while it handles one action.  [rayTestBatch] gives the first two
    entries (body, link) of every ray result; [objects_by_id] gives, for a
    scene object, its [fixed_base] attribute if it has one;
    [get_position_orientation] and [get_state_position] are the methods of
    the robot's links and joints, by name; the next five fields are the
    gripper controller of an arm and the slices of [joint_positions],
    [joint_velocities] and the joint limits at [gripper_control_idx].
    [getLinkState] gives the first two entries (position, orientation) of
    the tuple of [getLinkState_entries] entries that [p.getLinkState]
    returns.  The last two fields are what the interpreter decides in that
    step for an arm: the order in which it hands out the set of candidates
    (see [iter_set]), and which of the entries of the set [force_data] that
    belong to the candidate it meets first (see [find_contact_pos]). *)
Record Obs := {
  getContactPoints : Z → Z → list ContactResult;
  rayTestBatch : list vec3 → list vec3 → Z → list (Z * Z);
  getLinkState : Z → Z → pose;
  getBasePositionAndOrientation : Z → pose;
  getNumJoints : Z → Z;
  getJointInfo_jointType : Z → Z → JointType;
  multiplyTransforms : vec3 → quat → vec3 → quat → pose;
  invertTransform : vec3 → quat → pose;
  get_position_orientation : string → pose;
  get_state_position : string → float;
  get_constraint_violation : option Z → float;
  get_child_frame_pose : Z → Z → Z → Z → pose;
  can_assisted_grasp : Z → Z → bool;
  objects_by_id : gmap Z (option bool);
  gripper_controller : string → Controller;
  finger_positions : string → list float;
  finger_velocities : string → list float;
  finger_lower_limits : string → list float;
  finger_upper_limits : string → list float;
  candidates_order : string → list (Z * Z);
  contact_choice : string → nat }.


(** The robot model: what the properties of a robot class return, and the
    attributes of the simulator that do not change during a run.
    [removeConstraint_None] says what the engine does with
    [p.removeConstraint(None)]: [None] if it returns, the exception if it
    raises (PyBullet raises [TypeError]). *)
Record Env := {
  grasping_mode : AGMode;
  arm_names : list string;
  eef_links : string → RobotLink;
  finger_links : string → list RobotLink;
  finger_joints : string → list RobotJoint;
  _joints : gmap string RobotJoint;
  get_body_ids : list Z;
  gripper_link_to_grasp_point : string → vec3;
  assisted_grasp_start_points : string → option (list GraspingPoint);
  assisted_grasp_end_points : string → option (list GraspingPoint);
  controller_action_idx : string → nat;
  render_timestep : float;
  removeConstraint_None : option exn }.

(** A key of [_ag_freeze_joint_pos]: a joint name when [_establish_grasp]
    writes it, an [int] when [load_state] does. *)
Definition jkey : Type := string + Z.

(** [d[k] = v] on a dictionary kept in insertion order. *)
Fixpoint dict_set {K V} `{EqDecision K} (k : K) (v : V) (d : list (K * V))
  : list (K * V) :=
  match d with
  | [] => [(k, v)]
  | (k', v') :: r =>
      if decide (k = k') then (k', v) :: r else (k', v') :: dict_set k v r
  end.

(** [_ag_obj_cid_params[arm]]: a dictionary under fixed keys; a key that is
    missing is [None], reading it is a [KeyError]. *)
Record CidParams := {
  childBodyUniqueId : option Z;
  childLinkIndex : option Z;
  jointType : option JointType;
  maxForce : option float;
  childFramePosition : option vec3;
  childFrameOrientation : option quat }.

Definition no_params : CidParams :=
  {| childBodyUniqueId := None; childLinkIndex := None; jointType := None;
     maxForce := None; childFramePosition := None;
     childFrameOrientation := None |}.

(** The assisted-grasping fields of one arm. *)
Record AG := {
  _ag_data : option (Z * Z);
  _ag_freeze_joint_pos : list (jkey * float);
  _ag_obj_in_hand : option Z;
  _ag_obj_cid : option Z;
  _ag_obj_cid_params : CidParams;
  _ag_freeze_gripper : option bool;
  _ag_release_counter : option Z }.

(** The fields as [__init__] creates them. *)
Definition AG_init : AG :=
  {| _ag_data := None;
     _ag_freeze_joint_pos := [];
     _ag_obj_in_hand := None;
     _ag_obj_cid := None;
     _ag_obj_cid_params := no_params;
     _ag_freeze_gripper := None;
     _ag_release_counter := None |}.

(** One arm's fields together with the engine: the state of the methods
    that work on one arm. *)
Record ArmState := { ag : AG; world : World }.

(** The whole robot with the engine. *)
Record Robot := { ags : gmap string AG; rworld : World }.

Definition Robot_init (arms : list string) (w : World) : Robot :=
  {| ags := list_to_map ((λ arm, (arm, AG_init)) <$> arms); rworld := w |}.

(** Runs a method of one arm on the robot: [self._ag_...[arm]] of a name
    that is no arm is a [KeyError].  The methods resolve the name
    ["default"] to the first arm before they index the dictionaries; the
    method handed to [on_arm] works on the fields of [arm], which is what the
    source does for every arm that is not itself named ["default"]. *)
Definition on_arm {A} (arm : string) (m : M ArmState A) : M Robot A :=
  λ r, match ags r !! arm with
       | None => (Raise KeyError, r)
       | Some a =>
           let '(o, s) := m {| ag := a; world := rworld r |} in
           (o, {| ags := <[arm := ag s]> (ags r); rworld := world s |})
       end.

(** Assignments to the fields of [AG] and [ArmState]. *)
Definition set_ag_data (v : option (Z * Z)) (a : AG) : AG :=
  {| _ag_data := v;
     _ag_freeze_joint_pos := _ag_freeze_joint_pos a;
     _ag_obj_in_hand := _ag_obj_in_hand a;
     _ag_obj_cid := _ag_obj_cid a;
     _ag_obj_cid_params := _ag_obj_cid_params a;
     _ag_freeze_gripper := _ag_freeze_gripper a;
     _ag_release_counter := _ag_release_counter a |}.
Definition set_ag_freeze_joint_pos (v : list (jkey * float)) (a : AG) : AG :=
  {| _ag_data := _ag_data a;
     _ag_freeze_joint_pos := v;
     _ag_obj_in_hand := _ag_obj_in_hand a;
     _ag_obj_cid := _ag_obj_cid a;
     _ag_obj_cid_params := _ag_obj_cid_params a;
     _ag_freeze_gripper := _ag_freeze_gripper a;
     _ag_release_counter := _ag_release_counter a |}.
Definition set_ag_obj_in_hand (v : option Z) (a : AG) : AG :=
  {| _ag_data := _ag_data a;
     _ag_freeze_joint_pos := _ag_freeze_joint_pos a;
     _ag_obj_in_hand := v;
     _ag_obj_cid := _ag_obj_cid a;
     _ag_obj_cid_params := _ag_obj_cid_params a;
     _ag_freeze_gripper := _ag_freeze_gripper a;
     _ag_release_counter := _ag_release_counter a |}.
Definition set_ag_obj_cid (v : option Z) (a : AG) : AG :=
  {| _ag_data := _ag_data a;
     _ag_freeze_joint_pos := _ag_freeze_joint_pos a;
     _ag_obj_in_hand := _ag_obj_in_hand a;
     _ag_obj_cid := v;
     _ag_obj_cid_params := _ag_obj_cid_params a;
     _ag_freeze_gripper := _ag_freeze_gripper a;
     _ag_release_counter := _ag_release_counter a |}.
Definition set_ag_obj_cid_params (v : CidParams) (a : AG) : AG :=
  {| _ag_data := _ag_data a;
     _ag_freeze_joint_pos := _ag_freeze_joint_pos a;
     _ag_obj_in_hand := _ag_obj_in_hand a;
     _ag_obj_cid := _ag_obj_cid a;
     _ag_obj_cid_params := v;
     _ag_freeze_gripper := _ag_freeze_gripper a;
     _ag_release_counter := _ag_release_counter a |}.
Definition set_ag_freeze_gripper (v : option bool) (a : AG) : AG :=
  {| _ag_data := _ag_data a;
     _ag_freeze_joint_pos := _ag_freeze_joint_pos a;
     _ag_obj_in_hand := _ag_obj_in_hand a;
     _ag_obj_cid := _ag_obj_cid a;
     _ag_obj_cid_params := _ag_obj_cid_params a;
     _ag_freeze_gripper := v;
     _ag_release_counter := _ag_release_counter a |}.
Definition set_ag_release_counter (v : option Z) (a : AG) : AG :=
  {| _ag_data := _ag_data a;
     _ag_freeze_joint_pos := _ag_freeze_joint_pos a;
     _ag_obj_in_hand := _ag_obj_in_hand a;
     _ag_obj_cid := _ag_obj_cid a;
     _ag_obj_cid_params := _ag_obj_cid_params a;
     _ag_freeze_gripper := _ag_freeze_gripper a;
     _ag_release_counter := v |}.

Definition self {A} (f : AG → A) : M ArmState A := gets (λ s, f (ag s)).
Definition assign (f : AG → AG) : M ArmState unit :=
  modify (λ s, {| ag := f (ag s); world := world s |}).
Definition engine (f : World → World) : M ArmState unit :=
  modify (λ s, {| ag := ag s; world := f (world s) |}).
Definition engine_call {A} (f : World → A * World) : M ArmState A :=
  λ s, let '(a, w) := f (world s) in (Ok a, {| ag := ag s; world := w |}).

(** [d[k]] on an optional entry: a [KeyError] when the key is missing. *)
Definition item {S A} (o : option A) : M S A :=
  match o with
  | Some a => mret a
  | None => raise KeyError
  end.

(** [np.linalg.norm(np.array(a) - np.array(b))] of two positions, the
    squares added up from the left. *)
Definition norm_diff (a b : vec3) : float :=
  let '(ax, ay, az) := a in
  let '(bx, by_, bz) := b in
  let dx := (ax - bx)%float in
  let dy := (ay - by_)%float in
  let dz := (az - bz)%float in
  PrimFloat.sqrt (dx * dx + dy * dy + dz * dz)%float.

(** [sorted(candidate_data, key=lambda x: x[2])]: a stable sort by [<] on
    the distances (which are no NaN). *)
Fixpoint insert_by_dist (x : Z * Z * float) (l : list (Z * Z * float))
  : list (Z * Z * float) :=
  match l with
  | [] => [x]
  | y :: r =>
      if (y.2 <? x.2)%float then y :: insert_by_dist x r else x :: l
  end.
Definition sorted_by_dist (l : list (Z * Z * float)) : list (Z * Z * float) :=
  foldr insert_by_dist [] l.

Definition unit_quat : quat := (0, 0, 0, 1)%float.

(** A value stored in the dump of [dump_state], by the field it comes from:
    a body id, counter or constraint id (or [None]); the freeze flag; the
    frozen joint positions; the constraint parameters. *)
Inductive DumpVal :=
| DInt (v : option Z)
| DBool (v : option bool)
| DJointPos (v : list (jkey * float))
| DParams (v : CidParams).

(** The dump: the entry ["ManipulationRobot"], if there is one (the entries
    of [BaseRobot] are left out). *)
Record Dump := { ManipulationRobot : option (gmap string DumpVal) }.

(** ["_ag_{}_<field>".format(arm)] *)
Definition ag_key (arm field : string) : string :=
  "_ag_" +:+ arm +:+ "_" +:+ field.

(** Reading a dumped value as the field it is assigned to; the embedding
    raises [TypeError] where the value has another shape. *)
Definition as_int {S} (v : DumpVal) : M S (option Z) :=
  match v with DInt o => mret o | _ => raise TypeError end.
Definition as_bool {S} (v : DumpVal) : M S (option bool) :=
  match v with DBool o => mret o | _ => raise TypeError end.
Definition as_joint_pos {S} (v : DumpVal) : M S (list (jkey * float)) :=
  match v with DJointPos d => mret d | _ => raise TypeError end.
Definition as_params {S} (v : DumpVal) : M S CidParams :=
  match v with DParams p => mret p | _ => raise TypeError end.

(** [{int(key): val for key, val in d.items()}] *)
Fixpoint int_keys {S} (items acc : list (jkey * float))
  : M S (list (jkey * float)) :=
  match items with
  | [] => mret acc
  | (key, val) :: rest =>
      match key with
      | inl name =>
          match int_of_str name with
          | Some z => int_keys rest (dict_set (inr z) val acc)
          | None => raise ValueError
          end
      | inr z => int_keys rest (dict_set (inr z) val acc)
      end
  end.

Section Methods.

Variable env : Env.
Variable obs : Obs.

(** [arm = self.default_arm if arm == "default" else arm] *)
Definition default_arm {S} : M S string :=
  match arm_names env with
  | a :: _ => mret a
  | [] => raise IndexError
  end.
Definition resolve_arm {S} (arm : string) : M S string :=
  if String.eqb arm "default" then default_arm else mret arm.

Definition finger_link_ids (arm : string) : list Z :=
  link_id <$> finger_links env arm.

(** [set_coll_filter]: a pair for every source link and every link of the
    target body, its base [-1] included.  The engine refuses [None] as a
    body. *)
Definition set_coll_filter
    (target_body_id : option Z) (source_links : list RobotLink)
    (enable : bool) : M ArmState unit :=
  match target_body_id with
  | None => raise TypeError
  | Some target =>
      let target_link_idxs := -1 :: seqZ 0 (getNumJoints obs target) in
      for_each source_links (λ link,
        for_each target_link_idxs (λ target_link_idx,
          engine (setCollisionFilterPair
                    (body_id link) target (link_id link) target_link_idx
                    enable)))
  end.

(** [_find_gripper_contacts] *)
Definition con_results (arm : string) : list ContactResult :=
  link ← finger_links env arm;
  getContactPoints obs (body_id link) (link_id link).

Definition not_self (arm : string) (body : Z) : bool :=
  negb ((body =? -1) || (body =? body_id (eef_links env arm))).

Definition _find_gripper_contacts (arm : string)
  : gset (Z * Z) * gmap (Z * Z) (gset Z) :=
  foldl
    (λ '(contact_data, robot_contact_links) con_res,
       if not_self arm (bodyUniqueIdB con_res) then
         let obj_con_info := (bodyUniqueIdB con_res, linkIndexB con_res) in
         (contact_data ∪ {[obj_con_info]},
          <[obj_con_info :=
              default ∅ (robot_contact_links !! obj_con_info)
              ∪ {[linkIndexA con_res]}]> robot_contact_links)
       else (contact_data, robot_contact_links))
    (∅, ∅) (con_results arm).

(** The same with [return_contact_positions=True], first component: the
    entries [(body, link, position)], here in the order of the contacts.
    Python keeps them in a set and hands them out in an order of its own:
    [find_contact_pos] takes which entry of a link is met first as a
    parameter. *)
Definition _find_gripper_contacts_positions (arm : string)
  : list (Z * Z * vec3) :=
  (λ con_res,
     (bodyUniqueIdB con_res, linkIndexB con_res, positionOnA con_res))
    <$> filter (λ con_res, not_self arm (bodyUniqueIdB con_res))
               (con_results arm).

(** [_find_gripper_raycast_collisions] *)
Definition world_point (gp : GraspingPoint) : vec3 :=
  let '(link_pos, link_orn) :=
    get_position_orientation obs (link_name gp) in
  (multiplyTransforms obs link_pos link_orn (position gp) unit_quat).1.

Definition ray_results (arm : string) : list (Z * Z) :=
  let startpoints :=
    world_point <$> default [] (assisted_grasp_start_points env arm) in
  let endpoints :=
    world_point <$> default [] (assisted_grasp_end_points env arm) in
  let n_startpoints := length startpoints in
  let n_endpoints := length endpoints in
  let raycast_startpoints := mjoin (replicate n_endpoints startpoints) in
  let raycast_endpoints :=
    endpoint ← endpoints; replicate n_startpoints endpoint in
  i ← [0; 1]; rayTestBatch obs raycast_startpoints raycast_endpoints i.

Definition _find_gripper_raycast_collisions {S} (arm0 : string)
  : M S (gset (Z * Z)) :=
  arm ← resolve_arm arm0;
  assert (is_not_None (assisted_grasp_start_points env arm));;
  assert (is_not_None (assisted_grasp_end_points env arm));;
  mret (list_to_set
          (filter (λ ray_res, not_self arm ray_res.1) (ray_results arm))).

(** [_calculate_in_hand_object].  [link_pos, _ = ...] unpacks the whole
    tuple: the two entries of [p.getBasePositionAndOrientation], or the
    entries of [p.getLinkState], which are more than two. *)
Definition link_position {S} (body link : Z) : M S vec3 :=
  '(link_pos, _) ←
    (if link =? -1
     then unpack2 2 (getBasePositionAndOrientation obs body)
     else unpack2 getLinkState_entries (getLinkState obs body link));
  mret link_pos.

Definition gripper_center_pos (arm : string) : vec3 :=
  let gripper_state :=
    getLinkState obs (body_id (eef_links env arm))
                 (link_id (eef_links env arm)) in
  (multiplyTransforms obs gripper_state.1 gripper_state.2
                      (gripper_link_to_grasp_point env arm) unit_quat).1.

(** What is handed to the ranking by distance. *)
Definition candidates (arm : string) : M ArmState (gset (Z * Z)) :=
  match grasping_mode env with
  | physical => raise ValueError
  | sticky => mret (_find_gripper_contacts arm).1
  | assisted =>
      candidates_set_raycast ← _find_gripper_raycast_collisions arm;
      mret ((_find_gripper_contacts arm).1 ∩ candidates_set_raycast)
  end.

(** The loop that fills [candidate_data]: the candidates with their
    distance to the gripper center, in the order in which the set hands
    them out. *)
Definition candidate_data (arm : string) (candidates_set : gset (Z * Z))
  : M ArmState (list (Z * Z * float)) :=
  fold_each (iter_set (candidates_order obs arm) candidates_set)
    (λ candidate_data '(body, link),
       link_pos ← link_position body link;
       let dist := norm_diff link_pos (gripper_center_pos arm) in
       mret (candidate_data ++ [(body, link, dist)]))
    [].

(** The finger links of the arm among the robot links that touch. *)
Definition touching_fingers (arm : string) (robot_contacts : gset Z)
  : gset Z :=
  list_to_set (finger_link_ids arm) ∩ robot_contacts.

(** The body of [_calculate_in_hand_object] from the test for an empty
    set of candidates on. *)
Definition select_nearest (arm : string) (candidates_set : gset (Z * Z))
  : M ArmState (option (Z * Z)) :=
  let robot_contact_links := (_find_gripper_contacts arm).2 in
  if (size candidates_set =? 0)%nat then mret None
  else
    candidate_data ← candidate_data arm candidates_set;
    match sorted_by_dist candidate_data with
    | [] => raise IndexError
    | (ag_bid, ag_link, _) :: _ =>
        assert (bool_decide (ag_bid ∉ get_body_ids env));;
        robot_contacts ← item (robot_contact_links !! (ag_bid, ag_link));
        let touching_at_least_two_fingers :=
          (2 <=? size (touching_fingers arm robot_contacts))%nat in
        if negb (can_assisted_grasp obs ag_bid ag_link)
           || negb touching_at_least_two_fingers
        then mret None
        else mret (Some (ag_bid, ag_link))
    end.

Definition _calculate_in_hand_object (arm0 : string)
  : M ArmState (option (Z * Z)) :=
  arm ← resolve_arm arm0;
  candidates_set ← candidates arm;
  select_nearest arm candidates_set.

(** [_handle_release_window] *)
Definition _handle_release_window (arm0 : string) : M ArmState unit :=
  arm ← resolve_arm arm0;
  counter ← self _ag_release_counter;
  match counter with
  | None => raise TypeError
  | Some c =>
      assign (set_ag_release_counter (Some (c + 1)));;
      let time_since_release :=
        (float_of_int (c + 1) * render_timestep env)%float in
      if (RELEASE_WINDOW <=? time_since_release)%float then
        obj ← self _ag_obj_in_hand;
        set_coll_filter obj (finger_links env arm) true;;
        assign (set_ag_obj_in_hand None);;
        assign (set_ag_release_counter None)
      else mret tt
  end.

(** [_freeze_gripper] *)
Definition _freeze_gripper (arm0 : string) : M ArmState unit :=
  arm ← resolve_arm arm0;
  d ← self _ag_freeze_joint_pos;
  for_each d (λ '(joint_name, j_val),
    joint ← item (match joint_name with
                  | inl name => _joints env !! name
                  | inr _ => None
                  end);
    engine (resetJointState (joint_body_id joint) (joint_id joint)
                            j_val 0.0%float)).

(** [_release_grasp] *)
Definition _release_grasp (arm0 : string) : M ArmState unit :=
  arm ← resolve_arm arm0;
  cid ← self _ag_obj_cid;
  match cid with
  | Some c => engine (removeConstraint c)
  | None =>
      match removeConstraint_None env with
      | Some e => raise e
      | None => mret tt
      end
  end;;
  assign (set_ag_data None);;
  assign (set_ag_obj_cid None);;
  assign (set_ag_obj_cid_params no_params);;
  assign (set_ag_freeze_gripper (Some false));;
  assign (set_ag_release_counter (Some 0)).

(** [_establish_grasp] *)
Definition grasp_joint_type (ag_bid ag_link : Z) : JointType :=
  if negb (ag_link =? -1)
     && bool_decide (getJointInfo_jointType obs ag_bid ag_link
                       ∈ [JOINT_REVOLUTE; JOINT_PRISMATIC])
     && match objects_by_id obs !! ag_bid with
        | Some (Some fixed_base) => fixed_base
        | Some None | None => false
        end
  then JOINT_POINT2POINT
  else JOINT_FIXED.

Definition grasp_max_force (joint_type : JointType) : float :=
  if decide (joint_type = JOINT_FIXED) then ASSIST_FORCE
  else (ASSIST_FORCE * ARTICULATED_ASSIST_FRACTION)%float.

(** The loop over [force_data] that stops at the first entry of the
    candidate: [choice] says which of its entries the set hands out
    first. *)
Definition find_contact_pos (choice : nat) (ag_data : Z * Z)
    (force_data : list (Z * Z * vec3)) : option vec3 :=
  let entries := filter (λ c, c.1 = ag_data) force_data in
  (λ found, found.2) <$> entries !! (choice mod length entries)%nat.

Definition _establish_grasp (arm0 : string) (ag_data : option (Z * Z))
  : M ArmState unit :=
  arm ← resolve_arm arm0;
  match ag_data with
  | None => mret tt
  | Some (ag_bid, ag_link) =>
      let joint_type := grasp_joint_type ag_bid ag_link in
      let force_data := _find_gripper_contacts_positions arm in
      match find_contact_pos (contact_choice obs arm) (ag_bid, ag_link)
                             force_data with
      | None => raise AssertionError
      | Some contact_pos =>
          let joint_frame_pos := contact_pos in
          let joint_frame_orn := unit_quat in
          let eef := eef_links env arm in
          let '(eef_link_pos, eef_link_orn) :=
            getLinkState obs (body_id eef) (link_id eef) in
          let '(inv_eef_link_pos, inv_eef_link_orn) :=
            invertTransform obs eef_link_pos eef_link_orn in
          let '(parent_frame_pos, parent_frame_orn) :=
            multiplyTransforms obs inv_eef_link_pos inv_eef_link_orn
                               joint_frame_pos joint_frame_orn in
          let '(obj_pos, obj_orn) :=
            if ag_link =? -1 then getBasePositionAndOrientation obs ag_bid
            else getLinkState obs ag_bid ag_link in
          let '(inv_obj_pos, inv_obj_orn) :=
            invertTransform obs obj_pos obj_orn in
          let '(child_frame_pos, child_frame_orn) :=
            multiplyTransforms obs inv_obj_pos inv_obj_orn
                               joint_frame_pos joint_frame_orn in
          cid ← engine_call (createConstraint
                   {| c_parentBodyUniqueId := body_id eef;
                      c_parentLinkIndex := link_id eef;
                      c_childBodyUniqueId := ag_bid;
                      c_childLinkIndex := ag_link;
                      c_jointType := joint_type;
                      c_parentFramePosition := parent_frame_pos;
                      c_childFramePosition := child_frame_pos;
                      c_parentFrameOrientation := Some parent_frame_orn;
                      c_childFrameOrientation := child_frame_orn;
                      c_maxForce := None |});
          assign (set_ag_obj_cid (Some cid));;
          let max_force := grasp_max_force joint_type in
          engine (changeConstraint cid max_force);;
          assign (set_ag_obj_cid_params
                    {| childBodyUniqueId := Some ag_bid;
                       childLinkIndex := Some ag_link;
                       jointType := Some joint_type;
                       maxForce := Some max_force;
                       childFramePosition := None;
                       childFrameOrientation := None |});;
          assign (set_ag_obj_in_hand (Some ag_bid));;
          assign (set_ag_freeze_gripper (Some true));;
          set_coll_filter (Some ag_bid) (finger_links env arm) false;;
          for_each (finger_joints env arm) (λ joint,
            let j_val := get_state_position obs (joint_name joint) in
            d ← self _ag_freeze_joint_pos;
            assign (set_ag_freeze_joint_pos
                      (dict_set (inl (joint_name joint)) j_val d)))
      end
  end.

(** [_handle_assisted_grasping]: the body of the loop over the arms, and
    the loop.  [.mode] is an attribute of the parallel-jaw controller. *)
Definition controller_mode {S} (c : Controller) : M S string :=
  match c with
  | ParallelJawGripperController mode _ _ _ => mret mode
  | _ => raise AttributeError
  end.

Definition gripper_command {S} (arm : string) (action : list float)
  : M S float :=
  match action !! controller_action_idx env arm with
  | Some a => mret a
  | None => raise IndexError
  end.

Definition _handle_assisted_grasping_arm (arm : string) (action : list float)
  : M ArmState unit :=
  mode ← controller_mode (gripper_controller obs arm);
  assert (String.eqb mode "binary");;
  a ← gripper_command arm action;
  let applying_grasp := (a <? 0.0)%float in
  let releasing_grasp := (0.0 <=? a)%float in
  obj ← self _ag_obj_in_hand;
  if truthy_int obj then
    counter ← self _ag_release_counter;
    if is_not_None counter then _handle_release_window arm
    else
      cid ← self _ag_obj_cid;
      let constraint_violated :=
        (CONSTRAINT_VIOLATION_THRESHOLD <? get_constraint_violation obs cid)%float in
      if constraint_violated || releasing_grasp then _release_grasp arm
      else mret tt
  else if applying_grasp then
    data ← _calculate_in_hand_object arm;
    assign (set_ag_data data);;
    data' ← self _ag_data;
    _establish_grasp arm data'
  else mret tt.

Definition _handle_assisted_grasping (action : list float) : M Robot unit :=
  for_each (arm_names env) (λ arm,
    on_arm arm (_handle_assisted_grasping_arm arm action)).

(** [apply_action], up to the call of the method of [BaseRobot]. *)
Definition apply_action (action : list float) : M Robot unit :=
  (if decide (grasping_mode env ≠ physical)
   then _handle_assisted_grasping action
   else mret tt);;
  for_each (arm_names env) (λ arm,
    on_arm arm (
      freeze ← self _ag_freeze_gripper;
      if truthy_bool freeze then _freeze_gripper arm else mret tt)).

(** [is_grasping]; [candidate_obj] is compared with the body id that
    [_ag_obj_in_hand] holds.  The arrays of the physical branch are lists
    of one length, added up from the left. *)
Definition np_mean (l : list float) : float :=
  (foldl PrimFloat.add 0 l / float_of_int (Z.of_nat (length l)))%float.
Definition np_all (l : list bool) : bool := forallb id l.

Definition is_grasping (arm0 : string) (candidate_obj : option Z)
  : M ArmState IsGraspingState :=
  arm ← resolve_arm arm0;
  if decide (grasping_mode env ≠ physical) then
    obj ← self _ag_obj_in_hand;
    counter ← self _ag_release_counter;
    let is_grasping_obj :=
      match candidate_obj with
      | None => is_not_None obj
      | Some c => bool_decide (obj = Some c)
      end in
    mret (if is_grasping_obj && negb (is_not_None counter)
          then TRUE else FALSE)
  else
    match gripper_controller obs arm with
    | NullGripperController => mret FALSE
    | JointController => mret UNKNOWN
    | ParallelJawGripperController mode control motor_type limit_tolerance =>
        if String.eqb mode "independent" then mret UNKNOWN
        else
          match control with
          | None => mret FALSE
          | Some control =>
              match control with
              | [] => raise IndexError
              | c0 :: _ =>
                  assert (np_all ((λ c, (c =? c0)%float) <$> control))
              end;;
              assert (limit_tolerance <? POS_TOLERANCE)%float;;
              let finger_pos := finger_positions obs arm in
              if match motor_type with
                 | motor_position =>
                     (np_mean (PrimFloat.abs
                                 <$> zip_with PrimFloat.sub finger_pos control)
                      <? POS_TOLERANCE)%float
                 | _ => false
                 end
              then mret UNKNOWN
              else if match motor_type with
                      | motor_velocity | motor_torque =>
                          (np_mean (PrimFloat.abs <$> control)
                           <? VEL_TOLERANCE)%float
                      | motor_position => false
                      end
              then mret UNKNOWN
              else
                let finger_vel := finger_velocities obs arm in
                let min_pos := finger_lower_limits obs arm in
                let max_pos := finger_upper_limits obs arm in
                assert (np_all (zip_with andb
                          (zip_with PrimFloat.leb min_pos finger_pos)
                          (zip_with PrimFloat.leb finger_pos max_pos)));;
                let dist_from_lower_limit :=
                  zip_with PrimFloat.sub finger_pos min_pos in
                let dist_from_upper_limit :=
                  zip_with PrimFloat.sub max_pos finger_pos in
                let valid_grasp_pos :=
                  (POS_TOLERANCE <? np_mean dist_from_lower_limit)%float
                  && (POS_TOLERANCE <? np_mean dist_from_upper_limit)%float in
                let valid_grasp_vel :=
                  np_all ((λ v, (PrimFloat.abs v <? VEL_TOLERANCE)%float)
                            <$> finger_vel) in
                mret (if valid_grasp_pos && valid_grasp_vel
                      then TRUE else FALSE)
          end
    | OtherController => raise Exception
    end.

(** [dump_state]: the body of the loop over the arms gives the entries
    that [ag_dump.update] adds. *)
Definition dump_state_arm (arm : string)
  : M ArmState (list (string * DumpVal)) :=
  cid ← self _ag_obj_cid;
  (if is_not_None cid then
     params ← self _ag_obj_cid_params;
     ag_bid ← item (childBodyUniqueId params);
     ag_link ← item (childLinkIndex params);
     let '(child_frame_pos, child_frame_orn) :=
       get_child_frame_pose obs (body_id (eef_links env arm))
                            (link_id (eef_links env arm)) ag_bid ag_link in
     assign (set_ag_obj_cid_params
               {| childBodyUniqueId := childBodyUniqueId params;
                  childLinkIndex := childLinkIndex params;
                  jointType := jointType params;
                  maxForce := maxForce params;
                  childFramePosition := Some child_frame_pos;
                  childFrameOrientation := Some child_frame_orn |})
   else mret tt);;
  a ← gets ag;
  mret [(ag_key arm "obj_in_hand", DInt (_ag_obj_in_hand a));
        (ag_key arm "release_counter", DInt (_ag_release_counter a));
        (ag_key arm "freeze_gripper", DBool (_ag_freeze_gripper a));
        (ag_key arm "freeze_joint_pos", DJointPos (_ag_freeze_joint_pos a));
        (ag_key arm "obj_cid", DInt (_ag_obj_cid a));
        (ag_key arm "obj_cid_params", DParams (_ag_obj_cid_params a))].

Definition dump_state : M Robot Dump :=
  if decide (grasping_mode env = physical)
  then mret {| ManipulationRobot := None |}
  else
    ag_dump ← fold_each (arm_names env)
      (λ (ag_dump : gmap string DumpVal) arm,
         entries ← on_arm arm (dump_state_arm arm);
         mret (foldl (λ d '(k, v), <[k := v]> d) ag_dump entries))
      ∅;
    mret {| ManipulationRobot := Some ag_dump |}.

(** [load_state]: the body of the loop over the arms, and the loop. *)
Definition load_state_arm (arm : string) (dump : Dump) : M ArmState unit :=
  cid ← self _ag_obj_cid;
  match cid with
  | Some c => engine (removeConstraint c)
  | None => mret tt
  end;;
  obj ← self _ag_obj_in_hand;
  (if is_not_None obj
   then set_coll_filter obj (finger_links env arm) true
   else mret tt);;
  robot_dump ← item (ManipulationRobot dump);
  let key_or new old :=
    if bool_decide (is_Some (robot_dump !! ag_key arm new))
    then ag_key arm new else old in
  let _ag_obj_in_hand_str := key_or "obj_in_hand" "object_in_hand" in
  let _ag_release_counter_str := key_or "release_counter" "release_counter" in
  let _ag_freeze_gripper_str :=
    key_or "freeze_gripper" "should_freeze_joints" in
  let _ag_freeze_joint_pos_str := key_or "freeze_joint_pos" "freeze_vals" in
  let _ag_obj_cid_str := key_or "obj_cid" "obj_cid" in
  let _ag_obj_cid_params_str := key_or "obj_cid_params" "obj_cid_params" in
  v ← item (robot_dump !! _ag_obj_in_hand_str) ≫= as_int;
  assign (set_ag_obj_in_hand v);;
  v ← item (robot_dump !! _ag_release_counter_str) ≫= as_int;
  assign (set_ag_release_counter v);;
  v ← item (robot_dump !! _ag_freeze_gripper_str) ≫= as_bool;
  assign (set_ag_freeze_gripper v);;
  items ← item (robot_dump !! _ag_freeze_joint_pos_str) ≫= as_joint_pos;
  v ← int_keys items [];
  assign (set_ag_freeze_joint_pos v);;
  v ← item (robot_dump !! _ag_obj_cid_str) ≫= as_int;
  assign (set_ag_obj_cid v);;
  params ← item (robot_dump !! _ag_obj_cid_params_str) ≫= as_params;
  assign (set_ag_obj_cid_params params);;
  cid' ← self _ag_obj_cid;
  (if is_not_None cid' then
     child_body ← item (childBodyUniqueId params);
     child_link ← item (childLinkIndex params);
     joint_type ← item (jointType params);
     child_frame_pos ← item (childFramePosition params);
     child_frame_orn ← item (childFrameOrientation params);
     new_cid ← engine_call (createConstraint
                {| c_parentBodyUniqueId := body_id (eef_links env arm);
                   c_parentLinkIndex := link_id (eef_links env arm);
                   c_childBodyUniqueId := child_body;
                   c_childLinkIndex := child_link;
                   c_jointType := joint_type;
                   c_parentFramePosition := (0, 0, 0)%float;
                   c_childFramePosition := child_frame_pos;
                   c_parentFrameOrientation := None;
                   c_childFrameOrientation := child_frame_orn;
                   c_maxForce := None |});
     assign (set_ag_obj_cid (Some new_cid));;
     max_force ← item (maxForce params);
     engine (changeConstraint new_cid max_force)
   else mret tt);;
  obj' ← self _ag_obj_in_hand;
  if is_not_None obj'
  then set_coll_filter obj' (finger_links env arm) false
  else mret tt.

Definition load_state (dump : Dump) : M Robot unit :=
  if decide (grasping_mode env = physical) then mret tt
  else for_each (arm_names env) (λ arm, on_arm arm (load_state_arm arm dump)).

End Methods.

Arguments set_coll_filter : simpl never.
Arguments _find_gripper_raycast_collisions : simpl never.
Arguments _calculate_in_hand_object : simpl never.
Arguments _handle_release_window : simpl never.
Arguments _freeze_gripper : simpl never.
Arguments _release_grasp : simpl never.
Arguments _establish_grasp : simpl never.
Arguments _handle_assisted_grasping_arm : simpl never.
Arguments dump_state_arm : simpl never.
Arguments load_state_arm : simpl never.

(** ** Runs of the lifecycle *)

(** One simulation step hands the robot an action and what the engine shows
    at that moment.  The state after the step is the one [apply_action]
    leaves, also when it raised. *)
Definition step (env : Env) (input : Obs * list float) (r : Robot) : Robot :=
  (apply_action env input.1 input.2 r).2.

Definition run (env : Env) (inputs : list (Obs * list float)) (r : Robot)
  : Robot :=
  foldl (λ r input, step env input r) r inputs.

(** The three states of the lifecycle of one arm. *)
Definition Idle (a : AG) : Prop := _ag_obj_in_hand a = None.
Definition Holding (a : AG) : Prop :=
  is_Some (_ag_obj_in_hand a) ∧ _ag_release_counter a = None.
Definition Releasing (a : AG) : Prop :=
  is_Some (_ag_obj_in_hand a) ∧ is_Some (_ag_release_counter a).

(** What every run keeps true of an arm. *)
Record lifecycle_inv (a : AG) : Prop := {
  inv_cid : is_Some (_ag_obj_cid a) ↔ Holding a;
  inv_freeze : _ag_freeze_gripper a = Some true ↔ Holding a;
  inv_counter : is_Some (_ag_release_counter a) →
                truthy_int (_ag_obj_in_hand a) = true }.

(** ** A small robot for concrete runs

    One arm ["0"] of body 1 with the end effector at link 7 and two fingers
    at links 8 and 9; the simulator renders at 60 Hz.  [robot_named] leaves
    open what the engine does with a missing handle, which bodies make up
    the robot, and the names of the two finger joints.  In [scene b v] both
    fingers touch the base of body [b], every ray hits it, and the engine
    reports the violation [v] for every constraint. *)
Module Example.

Definition zero3 : vec3 := (0, 0, 0)%float.
Definition origin : pose := (zero3, unit_quat).

Definition robot_named (mode : AGMode) (on_None : option exn)
    (bodies : list Z) (l_name r_name : string) : Env :=
  {| grasping_mode := mode;
     arm_names := ["0"%string];
     eef_links := λ _, {| body_id := 1; link_id := 7 |};
     finger_links :=
       λ _, [{| body_id := 1; link_id := 8 |};
             {| body_id := 1; link_id := 9 |}];
     finger_joints :=
       λ _, [{| joint_name := l_name; joint_body_id := 1; joint_id := 8 |};
             {| joint_name := r_name; joint_body_id := 1; joint_id := 9 |}];
     _joints :=
       {[ l_name :=
            {| joint_name := l_name; joint_body_id := 1; joint_id := 8 |};
          r_name :=
            {| joint_name := r_name; joint_body_id := 1; joint_id := 9 |} ]};
     get_body_ids := bodies;
     gripper_link_to_grasp_point := λ _, zero3;
     assisted_grasp_start_points :=
       λ _, Some [{| link_name := "l_finger"; position := zero3 |}];
     assisted_grasp_end_points :=
       λ _, Some [{| link_name := "r_finger"; position := zero3 |}];
     controller_action_idx := λ _, 0%nat;
     render_timestep := (1 / 60.0)%float;
     removeConstraint_None := on_None |}.

Definition robot_with (mode : AGMode) (on_None : option exn)
    (bodies : list Z) : Env :=
  robot_named mode on_None bodies "l_finger_joint" "r_finger_joint".

Definition robot (mode : AGMode) : Env :=
  robot_with mode (Some TypeError) [1].

Definition touch (finger b : Z) : ContactResult :=
  {| bodyUniqueIdA := 1; bodyUniqueIdB := b; linkIndexA := finger;
     linkIndexB := -1; positionOnA := zero3 |}.

(** The engine's view with the given contacts per finger link and the
    given ray hits. *)
Definition view (contacts : Z → list ContactResult) (hits : list (Z * Z))
    (v : float) : Obs :=
  {| getContactPoints := λ _ link, contacts link;
     rayTestBatch := λ _ _ _, hits;
     getLinkState := λ _ _, origin;
     getBasePositionAndOrientation := λ _, origin;
     getNumJoints := λ _, 1;
     getJointInfo_jointType := λ _ _, JOINT_REVOLUTE;
     multiplyTransforms := λ _ _ p q, (p, q);
     invertTransform := λ p q, (p, q);
     get_position_orientation := λ _, origin;
     get_state_position := λ _, 0.02%float;
     get_constraint_violation := λ _, v;
     get_child_frame_pose := λ _ _ _ _, origin;
     can_assisted_grasp := λ _ _, true;
     objects_by_id := ∅;
     gripper_controller :=
       λ _, ParallelJawGripperController "binary" None motor_position
              0.001%float;
     finger_positions := λ _, [];
     finger_velocities := λ _, [];
     finger_lower_limits := λ _, [];
     finger_upper_limits := λ _, [];
     candidates_order := λ _, [];
     contact_choice := λ _, 0%nat |}.

Definition both_fingers_touch (b : Z) (link : Z) : list ContactResult :=
  if bool_decide (link = 8 ∨ link = 9) then [touch link b] else [].

Definition scene (b : Z) (v : float) : Obs :=
  view (both_fingers_touch b) [(b, -1)] v.

Definition close : list float := [(-1.0)%float].
Definition open : list float := [1.0%float].

Definition engine0 : World :=
  {| constraints := ∅; next_constraint := 1; collision_filter := ∅;
     joint_targets := ∅ |}.

Definition start (mode : AGMode) : Robot :=
  Robot_init (arm_names (robot mode)) engine0.

(** The value a method returned, [d] if it raised. *)
Definition returned {A} (d : A) (o : outcome A) : A :=
  match o with
  | Ok a => a
  | Raise _ => d
  end.

(** The arm in its release window, holding body [b], after [c] steps. *)
Definition releasing (b c : Z) : AG :=
  {| _ag_data := None;
     _ag_freeze_joint_pos :=
       [(inl "l_finger_joint"%string, 0.02%float);
        (inl "r_finger_joint"%string, 0.02%float)];
     _ag_obj_in_hand := Some b;
     _ag_obj_cid := None;
     _ag_obj_cid_params := no_params;
     _ag_freeze_gripper := Some false;
     _ag_release_counter := Some c |}.

End Example.

(** Computations that leave the fields of the arm alone. *)
Definition keeps_ag {A} (m : M ArmState A) : Prop :=
  ∀ s, ag (m s).2 = ag s.

(** What [set_coll_filter] and the loop over the finger joints of
    [_establish_grasp] amount to: the pairs that are set, in the order of
    the two loops, and the positions that are stored. *)
Definition coll_pairs (obs : Obs) (target : Z) (links : list RobotLink)
  : list (Z * Z * Z * Z) :=
  link ← links;
  (λ idx, (body_id link, target, link_id link, idx))
    <$> (-1 :: seqZ 0 (getNumJoints obs target)).

Definition set_pairs (enable : bool) (pairs : list (Z * Z * Z * Z)) (w : World)
  : World :=
  foldl (λ w '(a, b, la, lb), setCollisionFilterPair a b la lb enable w)
        w pairs.

Definition frozen_positions (obs : Obs) (joints : list RobotJoint)
    (d : list (jkey * float)) : list (jkey * float) :=
  foldl (λ d joint,
           dict_set (inl (joint_name joint))
                    (get_state_position obs (joint_name joint)) d)
        d joints.

(** A contact of a finger link of the arm with the link [x] of another
    body. *)
Definition touches (env : Env) (obs : Obs) (arm : string) (x : Z * Z)
    (con_res : ContactResult) : Prop :=
  con_res ∈ con_results env obs arm
  ∧ not_self env arm (bodyUniqueIdB con_res) = true
  ∧ x = (bodyUniqueIdB con_res, linkIndexB con_res).

(** Computations that only read. *)
Definition reads_only {S A} (m : M S A) : Prop := ∀ s, (m s).2 = s.

(** The fields of an arm after [_release_grasp]. *)
Definition released (a : AG) : AG :=
  {| _ag_data := None;
     _ag_freeze_joint_pos := _ag_freeze_joint_pos a;
     _ag_obj_in_hand := _ag_obj_in_hand a;
     _ag_obj_cid := None;
     _ag_obj_cid_params := no_params;
     _ag_freeze_gripper := Some false;
     _ag_release_counter := Some 0 |}.

(** ** Definitions for the further properties *)

(** The start and end points of the rays of an arm, in world coordinates,
    and the segments from every start point to every end point, in the
    order in which [_find_gripper_raycast_collisions] lists them. *)
Definition grasp_startpoints (env : Env) (obs : Obs) (arm : string)
  : list vec3 :=
  world_point obs <$> default [] (assisted_grasp_start_points env arm).
Definition grasp_endpoints (env : Env) (obs : Obs) (arm : string)
  : list vec3 :=
  world_point obs <$> default [] (assisted_grasp_end_points env arm).
Definition ray_segments (env : Env) (obs : Obs) (arm : string)
  : list (vec3 * vec3) :=
  endpoint ← grasp_endpoints env obs arm;
  startpoint ← grasp_startpoints env obs arm;
  [(startpoint, endpoint)].

(** The distance of a candidate to the gripper center, as the loop of
    [candidate_data] computes it for a candidate that is the base of its
    body (for another link the loop computes none). *)
Definition candidate_dist (env : Env) (obs : Obs) (arm : string) (x : Z * Z)
  : float :=
  norm_diff (getBasePositionAndOrientation obs x.1).1
            (gripper_center_pos env obs arm).

(** Several steps of one arm, each with its own view of the engine and its
    own action; the state is the one each step leaves. *)
Definition arm_steps (env : Env) (arm : string)
    (inputs : list (Obs * list float)) (s : ArmState) : ArmState :=
  foldl (λ s input,
           (_handle_assisted_grasping_arm env input.1 arm input.2 s).2)
        s inputs.

(** The place of a binary64 number that is no NaN in the order of [<]: its
    class, then exponent and mantissa, mirrored for the negative numbers. *)
Definition sf_key (f : spec_float) : Z * Z * Z :=
  match f with
  | S754_nan => (0, 0, 0)
  | S754_infinity true => (-2, 0, 0)
  | S754_infinity false => (2, 0, 0)
  | S754_zero _ => (0, 0, 0)
  | S754_finite true m e => (-1, - e, - Z.pos m)
  | S754_finite false m e => (1, e, Z.pos m)
  end.
Definition key_lt (a b : Z * Z * Z) : Prop :=
  a.1.1 < b.1.1
  ∨ (a.1.1 = b.1.1 ∧ (a.1.2 < b.1.2 ∨ (a.1.2 = b.1.2 ∧ a.2 < b.2))).

(** Two bodies in front of the example robot: both fingers touch the bases
    of body 5, one unit from the gripper center, and of body 6, two units
    from it. *)
Module Scenes.

Definition two_bodies : Obs :=
  {| getContactPoints :=
       λ _ link, Example.both_fingers_touch 6 link
                 ++ Example.both_fingers_touch 5 link;
     rayTestBatch := λ _ _ _, [(5, -1); (6, -1)];
     getLinkState := λ _ _, Example.origin;
     getBasePositionAndOrientation :=
       λ body, if body =? 5 then ((1, 0, 0)%float, unit_quat)
               else ((2, 0, 0)%float, unit_quat);
     getNumJoints := λ _, 1;
     getJointInfo_jointType := λ _ _, JOINT_REVOLUTE;
     multiplyTransforms := λ _ _ p q, (p, q);
     invertTransform := λ p q, (p, q);
     get_position_orientation := λ _, Example.origin;
     get_state_position := λ _, 0.02%float;
     get_constraint_violation := λ _, 0%float;
     get_child_frame_pose := λ _ _ _ _, Example.origin;
     can_assisted_grasp := λ _ _, true;
     objects_by_id := ∅;
     gripper_controller :=
       λ _, ParallelJawGripperController "binary" None motor_position
              0.001%float;
     finger_positions := λ _, [];
     finger_velocities := λ _, [];
     finger_lower_limits := λ _, [];
     finger_upper_limits := λ _, [];
     candidates_order := λ _, [];
     contact_choice := λ _, 0%nat |}.

(** The example arm holding body [b] under the handle [cid]. *)
Definition holding (b cid : Z) : AG :=
  {| _ag_data := Some (b, -1);
     _ag_freeze_joint_pos :=
       [(inl "l_finger_joint"%string, 0.02%float);
        (inl "r_finger_joint"%string, 0.02%float)];
     _ag_obj_in_hand := Some b;
     _ag_obj_cid := Some cid;
     _ag_obj_cid_params :=
       {| childBodyUniqueId := Some b;
          childLinkIndex := Some (-1);
          jointType := Some JOINT_FIXED;
          maxForce := Some 500%float;
          childFramePosition := None;
          childFrameOrientation := None |};
     _ag_freeze_gripper := Some true;
     _ag_release_counter := None |}.

(** Nothing touches the fingers. *)
Definition nothing : Obs := Example.view (λ _, []) [] 0.

(** A velocity-driven parallel-jaw gripper that was told to close and has
    stopped on something between its limits. *)
Definition squeezing : Obs :=
  {| getContactPoints := λ _ _, [];
     rayTestBatch := λ _ _ _, [];
     getLinkState := λ _ _, Example.origin;
     getBasePositionAndOrientation := λ _, Example.origin;
     getNumJoints := λ _, 1;
     getJointInfo_jointType := λ _ _, JOINT_REVOLUTE;
     multiplyTransforms := λ _ _ p q, (p, q);
     invertTransform := λ p q, (p, q);
     get_position_orientation := λ _, Example.origin;
     get_state_position := λ _, 0.02%float;
     get_constraint_violation := λ _, 0%float;
     get_child_frame_pose := λ _ _ _ _, Example.origin;
     can_assisted_grasp := λ _ _, true;
     objects_by_id := ∅;
     gripper_controller :=
       λ _, ParallelJawGripperController "binary"
              (Some [(-1)%float; (-1)%float]) motor_velocity 0.001%float;
     finger_positions := λ _, [0.02%float; 0.02%float];
     finger_velocities := λ _, [0%float; 0%float];
     finger_lower_limits := λ _, [0%float; 0%float];
     finger_upper_limits := λ _, [0.05%float; 0.05%float];
     candidates_order := λ _, [];
     contact_choice := λ _, 0%nat |}.

(** The view [o] of a robot whose gripper controllers all are [c]. *)
Definition with_gripper (c : Controller) (o : Obs) : Obs :=
  {| getContactPoints := getContactPoints o;
     rayTestBatch := rayTestBatch o;
     getLinkState := getLinkState o;
     getBasePositionAndOrientation := getBasePositionAndOrientation o;
     getNumJoints := getNumJoints o;
     getJointInfo_jointType := getJointInfo_jointType o;
     multiplyTransforms := multiplyTransforms o;
     invertTransform := invertTransform o;
     get_position_orientation := get_position_orientation o;
     get_state_position := get_state_position o;
     get_constraint_violation := get_constraint_violation o;
     get_child_frame_pose := get_child_frame_pose o;
     can_assisted_grasp := can_assisted_grasp o;
     objects_by_id := objects_by_id o;
     gripper_controller := λ _, c;
     finger_positions := finger_positions o;
     finger_velocities := finger_velocities o;
     finger_lower_limits := finger_lower_limits o;
     finger_upper_limits := finger_upper_limits o;
     candidates_order := candidates_order o;
     contact_choice := contact_choice o |}.

(** The entry ["ManipulationRobot"] of a dump of the arm ["0"] that holds
    body 5 under the handle 1, with the given frozen positions. *)
Definition snapshot (items : list (jkey * float)) : gmap string DumpVal :=
  list_to_map
    [(ag_key "0" "obj_in_hand", DInt (Some 5));
     (ag_key "0" "release_counter", DInt None);
     (ag_key "0" "freeze_gripper", DBool (Some true));
     (ag_key "0" "freeze_joint_pos", DJointPos items);
     (ag_key "0" "obj_cid", DInt (Some 1));
     (ag_key "0" "obj_cid_params",
      DParams {| childBodyUniqueId := Some 5;
                 childLinkIndex := Some (-1);
                 jointType := Some JOINT_FIXED;
                 maxForce := Some 500%float;
                 childFramePosition := Some Example.zero3;
                 childFrameOrientation := Some unit_quat |})].

(** The view [o] in which the simulator does not allow to grasp body 0. *)
Definition without_body_0 (o : Obs) : Obs :=
  {| getContactPoints := getContactPoints o;
     rayTestBatch := rayTestBatch o;
     getLinkState := getLinkState o;
     getBasePositionAndOrientation := getBasePositionAndOrientation o;
     getNumJoints := getNumJoints o;
     getJointInfo_jointType := getJointInfo_jointType o;
     multiplyTransforms := multiplyTransforms o;
     invertTransform := invertTransform o;
     get_position_orientation := get_position_orientation o;
     get_state_position := get_state_position o;
     get_constraint_violation := get_constraint_violation o;
     get_child_frame_pose := get_child_frame_pose o;
     can_assisted_grasp := λ b l, negb (b =? 0) && can_assisted_grasp o b l;
     objects_by_id := objects_by_id o;
     gripper_controller := gripper_controller o;
     finger_positions := finger_positions o;
     finger_velocities := finger_velocities o;
     finger_lower_limits := finger_lower_limits o;
     finger_upper_limits := finger_upper_limits o;
     candidates_order := candidates_order o;
     contact_choice := contact_choice o |}.

(** The view [o] in which the rays of the arm hit [hits]. *)
Definition with_rays (hits : list (Z * Z)) (o : Obs) : Obs :=
  {| getContactPoints := getContactPoints o;
     rayTestBatch := λ _ _ _, hits;
     getLinkState := getLinkState o;
     getBasePositionAndOrientation := getBasePositionAndOrientation o;
     getNumJoints := getNumJoints o;
     getJointInfo_jointType := getJointInfo_jointType o;
     multiplyTransforms := multiplyTransforms o;
     invertTransform := invertTransform o;
     get_position_orientation := get_position_orientation o;
     get_state_position := get_state_position o;
     get_constraint_violation := get_constraint_violation o;
     get_child_frame_pose := get_child_frame_pose o;
     can_assisted_grasp := can_assisted_grasp o;
     objects_by_id := objects_by_id o;
     gripper_controller := gripper_controller o;
     finger_positions := finger_positions o;
     finger_velocities := finger_velocities o;
     finger_lower_limits := finger_lower_limits o;
     finger_upper_limits := finger_upper_limits o;
     candidates_order := candidates_order o;
     contact_choice := contact_choice o |}.


(** The view [o] in which the interpreter hands out the candidates in the
    order [order]. *)
Definition with_order (order : list (Z * Z)) (o : Obs) : Obs :=
  {| getContactPoints := getContactPoints o;
     rayTestBatch := rayTestBatch o;
     getLinkState := getLinkState o;
     getBasePositionAndOrientation := getBasePositionAndOrientation o;
     getNumJoints := getNumJoints o;
     getJointInfo_jointType := getJointInfo_jointType o;
     multiplyTransforms := multiplyTransforms o;
     invertTransform := invertTransform o;
     get_position_orientation := get_position_orientation o;
     get_state_position := get_state_position o;
     get_constraint_violation := get_constraint_violation o;
     get_child_frame_pose := get_child_frame_pose o;
     can_assisted_grasp := can_assisted_grasp o;
     objects_by_id := objects_by_id o;
     gripper_controller := gripper_controller o;
     finger_positions := finger_positions o;
     finger_velocities := finger_velocities o;
     finger_lower_limits := finger_lower_limits o;
     finger_upper_limits := finger_upper_limits o;
     candidates_order := λ _, order;
     contact_choice := contact_choice o |}.

(** Both fingers touch the bodies 2 and 3, which are at the same place. *)
Definition tie : Obs :=
  Example.view
    (λ link, Example.both_fingers_touch 2 link
             ++ Example.both_fingers_touch 3 link)
    [] 0.

End Scenes.

(** What [_freeze_gripper] amounts to on the engine: the joint of every
    entry is reset to the frozen value with the velocity 0, in the order of
    the dictionary. *)
Definition freeze_targets (env : Env) (d : list (jkey * float)) (w : World)
  : World :=
  foldl (λ w '(key, j_val),
           match key with
           | inl name =>
               match _joints env !! name with
               | Some joint =>
                   resetJointState (joint_body_id joint) (joint_id joint)
                                   j_val 0%float w
               | None => w
               end
           | inr _ => w
           end)
        w d.

(** The handle of an arm names a constraint of the engine that attaches the
    held body to the end effector of the arm, as the parameters record it. *)
Definition attached (env : Env) (arm : string) (a : AG) (w : World) : Prop :=
  ∀ c, _ag_obj_cid a = Some c →
    ∃ con b l jt,
      constraints w !! c = Some con
      ∧ _ag_obj_in_hand a = Some b
      ∧ childBodyUniqueId (_ag_obj_cid_params a) = Some b
      ∧ childLinkIndex (_ag_obj_cid_params a) = Some l
      ∧ jointType (_ag_obj_cid_params a) = Some jt
      ∧ maxForce (_ag_obj_cid_params a) = Some (grasp_max_force jt)
      ∧ (c_parentBodyUniqueId con, c_parentLinkIndex con)
        = (body_id (eef_links env arm), link_id (eef_links env arm))
      ∧ (c_childBodyUniqueId con, c_childLinkIndex con) = (b, l)
      ∧ c_jointType con = jt
      ∧ c_maxForce con = Some (grasp_max_force jt).

Record handles_ok (env : Env) (r : Robot) : Prop := {
  ids_below :
    ∀ k, is_Some (constraints (rworld r) !! k) →
         k < next_constraint (rworld r);
  handles_attached :
    ∀ arm a, ags r !! arm = Some a → attached env arm a (rworld r);
  handles_distinct :
    ∀ arm1 arm2 a1 a2 c,
      arm1 ≠ arm2 → ags r !! arm1 = Some a1 → ags r !! arm2 = Some a2 →
      _ag_obj_cid a1 = Some c → _ag_obj_cid a2 ≠ Some c;
  handles_lifecycle : map_Forall (λ _, lifecycle_inv) (ags r) }.

(** What one arm's share of a step does to the handle and the constraints:
    nothing, the removal of the constraint of the handle, or a new
    constraint under a new handle. *)
Inductive handle_change (env : Env) (arm : string) (s s' : ArmState) : Prop :=
| handle_kept :
    constraints (world s') = constraints (world s) →
    next_constraint (world s') = next_constraint (world s) →
    _ag_obj_cid (ag s') = _ag_obj_cid (ag s) →
    (_ag_obj_cid (ag s) = None
     ∨ _ag_obj_cid_params (ag s') = _ag_obj_cid_params (ag s)
       ∧ _ag_obj_in_hand (ag s') = _ag_obj_in_hand (ag s)) →
    handle_change env arm s s'
| handle_dropped :
    constraints (world s')
    = match _ag_obj_cid (ag s) with
      | Some c => delete c (constraints (world s))
      | None => constraints (world s)
      end →
    next_constraint (world s') = next_constraint (world s) →
    _ag_obj_cid (ag s') = None →
    handle_change env arm s s'
| handle_created con :
    constraints (world s')
    = <[next_constraint (world s) := con]> (constraints (world s)) →
    next_constraint (world s') = next_constraint (world s) + 1 →
    _ag_obj_cid (ag s') = Some (next_constraint (world s)) →
    attached env arm (ag s') (world s') →
    handle_change env arm s s'.

(** The frozen positions of an arm after runs: every key is the name of a
    finger joint of the arm, and once the arm has grasped every finger joint
    has an entry. *)
Record frozen_ok (env : Env) (arm : string) (a : AG) : Prop := {
  frozen_keys :
    ∀ key v, (key, v) ∈ _ag_freeze_joint_pos a →
             ∃ joint, joint ∈ finger_joints env arm
                      ∧ key = inl (joint_name joint);
  frozen_all :
    _ag_freeze_gripper a ≠ None ∨ is_Some (_ag_obj_in_hand a) →
    ∀ joint, joint ∈ finger_joints env arm →
             ∃ v, (inl (joint_name joint), v) ∈ _ag_freeze_joint_pos a }.

(** The fields of one arm in the dump, and the entries [dump_state] writes
    for an arm. *)
Definition ag_fields : list string :=
  ["obj_in_hand"; "release_counter"; "freeze_gripper"; "freeze_joint_pos";
   "obj_cid"; "obj_cid_params"]%string.

Definition arm_entries (arm : string) (a : AG) : list (string * DumpVal) :=
  [(ag_key arm "obj_in_hand", DInt (_ag_obj_in_hand a));
   (ag_key arm "release_counter", DInt (_ag_release_counter a));
   (ag_key arm "freeze_gripper", DBool (_ag_freeze_gripper a));
   (ag_key arm "freeze_joint_pos", DJointPos (_ag_freeze_joint_pos a));
   (ag_key arm "obj_cid", DInt (_ag_obj_cid a));
   (ag_key arm "obj_cid_params", DParams (_ag_obj_cid_params a))].

(** [ag_dump.update(entries)] *)
Definition dict_update (d : gmap string DumpVal)
    (entries : list (string * DumpVal)) : gmap string DumpVal :=
  foldl (λ d '(k, v), <[k := v]> d) d entries.

(** What the loop of [dump_state] has reached after the arms [done]: the
    engine is untouched, every arm differs from its start at most in the
    child frame of the parameters, and the dump holds the entries of the
    arms that were dumped, under keys of these arms only. *)
Record dump_inv (env : Env) (obs : Obs) (r : Robot) (done : list string)
    (d : gmap string DumpVal) (rc : Robot) : Prop := {
  dump_world : rworld rc = rworld r;
  dump_arms :
    ∀ arm a, ags r !! arm = Some a →
      ∃ a', ags rc !! arm = Some a'
            ∧ a' = set_ag_obj_cid_params (_ag_obj_cid_params a') a
            ∧ childBodyUniqueId (_ag_obj_cid_params a')
              = childBodyUniqueId (_ag_obj_cid_params a)
            ∧ childLinkIndex (_ag_obj_cid_params a')
              = childLinkIndex (_ag_obj_cid_params a);
  dump_done :
    ∀ arm, arm ∈ done →
      ∃ a', ags rc !! arm = Some a'
            ∧ ∀ k v, (k, v) ∈ arm_entries arm a' → d !! k = Some v;
  dump_keys :
    ∀ k, is_Some (d !! k) →
         ∃ arm field, arm ∈ done ∧ field ∈ ag_fields ∧ k = ag_key arm field }.

(** The constraints of the engine and the handles of the robot after runs
    that started with the next id [n0] on the engine [w0]: the constraints
    below [n0] are those of [w0], the handles are at or above [n0], every
    constraint at or above [n0] is the handle of an arm, and no arm holds
    the body 0. *)
Record owned_inv (env : Env) (n0 : Z) (w0 : World) (r : Robot) : Prop := {
  own_handles : handles_ok env r;
  own_next : n0 ≤ next_constraint (rworld r);
  own_old :
    ∀ k, k < n0 → constraints (rworld r) !! k = constraints w0 !! k;
  own_cids :
    ∀ arm a k, ags r !! arm = Some a → _ag_obj_cid a = Some k → n0 ≤ k;
  own_live :
    ∀ k, n0 ≤ k → is_Some (constraints (rworld r) !! k) →
         ∃ arm a, ags r !! arm = Some a ∧ _ag_obj_cid a = Some k;
  own_nonzero :
    ∀ arm a, ags r !! arm = Some a → _ag_obj_in_hand a ≠ Some 0 }.

(** ** Properties *)

Ltac unfold_M :=
  unfold mbind, M_bind, Py.bind, mret, M_ret, Py.ret, Py.raise, Py.assert,
    Py.gets, Py.modify, self, assign, engine, engine_call, item in *.

Ltac destruct_poses :=
  repeat match goal with
         | |- context [match ?x with (_, _) => _ end] =>
             match type of x with
             | pose => destruct x
             end
         end.

Ltac solve_inv H :=
  match goal with
  | |- context [ag ?s] => destruct (ag s) as [? ? [?|] [?|] ? [[|]|] [?|]]
  end;
  destruct H as [H1 H2 H3]; unfold Holding in *; simpl in *;
  split; unfold Holding; simpl;
  rewrite ?is_Some_alt in *;
  intuition (try congruence; try done; eauto).

(** The conversion of an [int] is exact on the small integers and rounds
    the large ones to the nearest float, ties to even; it does not wrap. *)
Lemma float_of_int_examples :
  float_of_int 0 = 0%float
  ∧ float_of_int (-3) = (-3)%float
  ∧ float_of_int (2 ^ 53 + 1) = 9007199254740992%float
  ∧ float_of_int (2 ^ 53 + 3) = 9007199254740996%float
  ∧ float_of_int (2 ^ 63) = 9223372036854775808%float.
Proof. repeat split; vm_compute; reflexivity. Qed.

Section Frame.

Variable env : Env.
Variable obs : Obs.

Lemma keeps_ag_ret {A} (a : A) : keeps_ag (mret a).
Proof. done. Qed.

Lemma keeps_ag_raise {A} e : keeps_ag (Py.raise (A := A) e).
Proof. done. Qed.

Lemma keeps_ag_bind {A B} (m : M ArmState A) (k : A → M ArmState B) :
  keeps_ag m → (∀ a, keeps_ag (k a)) → keeps_ag (m ≫= k).
Proof.
  intros Hm Hk s. unfold_M. specialize (Hm s).
  destruct (m s) as [[a|e] s']; simpl in *; [|done].
  by rewrite Hk.
Qed.

Lemma keeps_ag_engine f : keeps_ag (engine f).
Proof. done. Qed.

Lemma keeps_ag_for_each {A} (xs : list A) body :
  (∀ x, keeps_ag (body x)) → keeps_ag (for_each xs body).
Proof.
  intros Hb. induction xs as [|x xs IH]; [done|].
  simpl. apply (keeps_ag_bind (body x) (λ _, for_each xs body)); auto.
Qed.

Lemma keeps_ag_set_coll_filter target links enable :
  keeps_ag (set_coll_filter obs target links enable).
Proof.
  destruct target as [t|]; [|done]. unfold set_coll_filter.
  apply keeps_ag_for_each; intros link.
  apply keeps_ag_for_each; intros idx. apply keeps_ag_engine.
Qed.

End Frame.

Section Reads.

Variable env : Env.
Variable obs : Obs.

Lemma reads_only_ret {S A} (a : A) : reads_only (S := S) (mret a).
Proof. done. Qed.

Lemma reads_only_raise {S A} e : reads_only (Py.raise (S := S) (A := A) e).
Proof. done. Qed.

Lemma reads_only_bind {S A B} (m : M S A) (k : A → M S B) :
  reads_only m → (∀ a, reads_only (k a)) → reads_only (m ≫= k).
Proof.
  intros Hm Hk s. unfold_M. specialize (Hm s).
  destruct (m s) as [[a|e] s']; simpl in *; subst; [|done].
  apply Hk.
Qed.

Lemma reads_only_assert {S} b : reads_only (S := S) (Py.assert b).
Proof. by destruct b. Qed.

Lemma reads_only_item {S A} (o : option A) : reads_only (S := S) (item o).
Proof. by destruct o. Qed.

Lemma reads_only_resolve_arm {S} arm :
  reads_only (S := S) (resolve_arm env arm).
Proof.
  unfold resolve_arm, default_arm.
  destruct (String.eqb arm "default"); [|done].
  by destruct (arm_names env).
Qed.

(** Resolving an arm name returns a name or raises [IndexError]. *)
Lemma resolve_arm_cases {S} arm (s : S) :
  (∃ arm', resolve_arm env arm s = (Ok arm', s))
  ∨ resolve_arm env arm s = (Raise IndexError, s).
Proof.
  unfold resolve_arm, default_arm.
  destruct (String.eqb arm "default"); [|by left; eexists].
  destruct (arm_names env); [by right|by left; eexists].
Qed.

Lemma reads_only_raycast {S} arm :
  reads_only (S := S) (_find_gripper_raycast_collisions env obs arm).
Proof.
  unfold _find_gripper_raycast_collisions.
  apply reads_only_bind; [apply reads_only_resolve_arm|intros a].
  apply reads_only_bind; [apply reads_only_assert|intros _].
  apply reads_only_bind; [apply reads_only_assert|intros _].
  done.
Qed.

Lemma reads_only_candidates arm : reads_only (candidates env obs arm).
Proof.
  unfold candidates. destruct (grasping_mode env); try done.
  apply reads_only_bind; [apply reads_only_raycast|done].
Qed.

Lemma reads_only_fold_each {S A B} (xs : list A) (body : B → A → M S B) b :
  (∀ b x, reads_only (body b x)) → reads_only (fold_each xs body b).
Proof.
  intros Hb. revert b. induction xs as [|x xs IH]; intros b; [done|].
  simpl. apply (reads_only_bind (body b x) (fold_each xs body)); auto.
Qed.

Lemma elem_of_iter_set `{Countable K} (order : list K) (X : gset K) x :
  x ∈ iter_set order X ↔ x ∈ X.
Proof.
  unfold iter_set.
  rewrite elem_of_app, !list_elem_of_filter, elem_of_remove_dups,
    elem_of_elements.
  destruct (decide (x ∈ order)); naive_solver.
Qed.

Lemma NoDup_iter_set `{Countable K} (order : list K) (X : gset K) :
  NoDup (iter_set order X).
Proof.
  unfold iter_set. apply NoDup_app. split_and!.
  - apply NoDup_filter, NoDup_remove_dups.
  - intros x. rewrite !list_elem_of_filter, elem_of_remove_dups. naive_solver.
  - apply NoDup_filter, NoDup_elements.
Qed.

Lemma iter_set_nil `{Countable K} (X : gset K) : iter_set [] X = elements X.
Proof.
  unfold iter_set. cbn [remove_dups]. rewrite filter_nil. cbn [app].
  induction (elements X) as [|x l IH]; [done|].
  rewrite filter_cons_True by apply not_elem_of_nil. by rewrite IH.
Qed.

Lemma filter_all {A} (P : A → Prop) `{∀ x, Decision (P x)} (l : list A) :
  (∀ x, x ∈ l → P x) → filter P l = l.
Proof.
  induction l as [|x l IH]; intros Hl; [done|].
  rewrite filter_cons_True by (apply Hl; by left).
  rewrite IH; [done|]. intros y Hy. apply Hl. by right.
Qed.

Lemma filter_none {A} (P : A → Prop) `{∀ x, Decision (P x)} (l : list A) :
  (∀ x, x ∈ l → ¬ P x) → filter P l = [].
Proof.
  induction l as [|x l IH]; intros Hl; [done|].
  rewrite filter_cons_False by (apply Hl; by left).
  apply IH. intros y Hy. apply Hl. by right.
Qed.

Lemma remove_dups_NoDup `{EqDecision A} (l : list A) :
  NoDup l → remove_dups l = l.
Proof.
  induction 1 as [|x l Hx Hl IH]; [done|].
  simpl. destruct (decide_rel elem_of x l); [done|]. by rewrite IH.
Qed.

(** Every order of the members of a set is one that [iter_set] gives. *)
Lemma iter_set_order `{Countable K} (order : list K) (X : gset K) :
  NoDup order → (∀ x, x ∈ order ↔ x ∈ X) → iter_set order X = order.
Proof.
  intros Hnd Hmem. unfold iter_set.
  rewrite remove_dups_NoDup by done.
  rewrite filter_all by (intros x Hx; by apply Hmem).
  rewrite filter_none; [by rewrite app_nil_r|].
  intros x Hx%elem_of_elements Hn. apply Hn. by apply Hmem.
Qed.

(** Every entry of the candidate in [force_data] is one that the loop can
    meet first. *)
Lemma find_contact_pos_any (ag_data : Z * Z) force_data c :
  c ∈ force_data → c.1 = ag_data →
  ∃ choice, find_contact_pos choice ag_data force_data = Some c.2.
Proof.
  intros Hc Heq.
  assert (c ∈ filter (λ c, c.1 = ag_data) force_data) as Hin
    by (by apply list_elem_of_filter).
  apply list_elem_of_lookup_1 in Hin as [i Hi].
  exists i. unfold find_contact_pos. cbv zeta.
  rewrite Nat.mod_small by (by apply lookup_lt_Some in Hi).
  by rewrite Hi.
Qed.

Lemma link_position_base {S} body (s : S) :
  link_position obs body (-1) s
  = (Ok (getBasePositionAndOrientation obs body).1, s).
Proof.
  unfold link_position. simpl. unfold_M. unfold unpack2. simpl.
  by destruct (getBasePositionAndOrientation obs body).
Qed.

Lemma link_position_link {S} body link (s : S) :
  link ≠ -1 → link_position obs body link s = (Raise ValueError, s).
Proof.
  intros Hl. unfold link_position.
  destruct (link =? -1) eqn:E; [lia|]. done.
Qed.

Lemma reads_only_link_position {S} body link :
  reads_only (S := S) (link_position obs body link).
Proof.
  intros s. destruct (decide (link = -1)) as [->|Hl].
  - by rewrite link_position_base.
  - by rewrite link_position_link.
Qed.

Lemma reads_only_candidate_data arm cs :
  reads_only (candidate_data env obs arm cs).
Proof.
  unfold candidate_data. apply reads_only_fold_each. intros acc [body link].
  apply reads_only_bind; [apply reads_only_link_position|done].
Qed.

Lemma reads_only_select_nearest arm cs :
  reads_only (select_nearest env obs arm cs).
Proof.
  unfold select_nearest.
  destruct (size cs =? 0)%nat; [done|].
  apply reads_only_bind; [apply reads_only_candidate_data|intros data].
  destruct (sorted_by_dist _) as [|[[b l] d] r]; [done|].
  apply reads_only_bind; [apply reads_only_assert|intros _].
  apply reads_only_bind; [apply reads_only_item|intros rc].
  by destruct (_ || _).
Qed.

Lemma reads_only_calculate arm :
  reads_only (_calculate_in_hand_object env obs arm).
Proof.
  unfold _calculate_in_hand_object.
  apply reads_only_bind; [apply reads_only_resolve_arm|intros a].
  apply reads_only_bind; [apply reads_only_candidates|intros cs].
  apply reads_only_select_nearest.
Qed.

(** The loop over a list of candidates: it gets through when each is the
    base of its body, and stops with a [ValueError] at the first that is
    not. *)
Lemma candidate_loop arm (xs : list (Z * Z)) acc s :
  fold_each (S := ArmState) (A := Z * Z) (B := list (Z * Z * float)) xs
    (λ candidate_data '(body, link),
       link_pos ← link_position obs body link;
       let dist := norm_diff link_pos (gripper_center_pos env obs arm) in
       mret (candidate_data ++ [(body, link, dist)]))
    acc s
  = if forallb (λ x, x.2 =? -1) xs
    then (Ok (acc ++ ((λ x, (x, candidate_dist env obs arm x)) <$> xs)), s)
    else (Raise ValueError, s).
Proof.
  revert acc. induction xs as [|[body link] xs IH]; intros acc.
  - simpl. by rewrite app_nil_r.
  - simpl fold_each. simpl forallb. unfold Py.bind at 1.
    destruct (decide (link = -1)) as [->|Hl].
    + unfold mbind, M_bind, Py.bind at 1. rewrite link_position_base.
      simpl. unfold mret, M_ret, Py.ret at 1. rewrite IH.
      destruct (forallb _ xs); [|done].
      by rewrite <- app_assoc.
    + unfold mbind, M_bind, Py.bind at 1. rewrite link_position_link by done.
      destruct (link =? -1) eqn:E; [lia|]. done.
Qed.

Lemma candidate_data_eq arm cs s :
  candidate_data env obs arm cs s
  = if forallb (λ x, x.2 =? -1) (iter_set (candidates_order obs arm) cs)
    then (Ok ((λ x, (x, candidate_dist env obs arm x))
                <$> iter_set (candidates_order obs arm) cs), s)
    else (Raise ValueError, s).
Proof. unfold candidate_data. by rewrite candidate_loop. Qed.



End Reads.

Section Effects.

Variable env : Env.
Variable obs : Obs.

Lemma release_grasp_ag arm s :
  ag (_release_grasp env arm s).2 = ag s
  ∨ ag (_release_grasp env arm s).2 = released (ag s).
Proof.
  unfold _release_grasp. unfold_M.
  destruct (resolve_arm_cases env arm s) as [[arm' ->] | ->]; [|by left].
  simpl. destruct (_ag_obj_cid (ag s)); simpl; [by right|].
  destruct (removeConstraint_None env); simpl; [by left|by right].
Qed.

(** The release window counts one step, and clears the held object and
    the counter when it is over. *)
Lemma handle_release_window_ag arm s :
  ag (_handle_release_window env obs arm s).2 = ag s
  ∨ (∃ c, _ag_release_counter (ag s) = Some c
          ∧ ag (_handle_release_window env obs arm s).2
            = set_ag_release_counter (Some (c + 1)) (ag s))
  ∨ (∃ c, _ag_release_counter (ag s) = Some c
          ∧ ag (_handle_release_window env obs arm s).2
            = set_ag_release_counter None
                (set_ag_obj_in_hand None
                   (set_ag_release_counter (Some (c + 1)) (ag s)))).
Proof.
  unfold _handle_release_window. unfold_M.
  destruct (resolve_arm_cases env arm s) as [[arm' ->] | ->]; [|by left].
  simpl. destruct (_ag_release_counter (ag s)) as [c|] eqn:Hc; [|by left].
  simpl. destruct (_ <=? _)%float; [|right; left; by exists c].
  match goal with
  | |- context [set_coll_filter obs ?t ?l ?e ?s0] =>
      pose proof (keeps_ag_set_coll_filter obs t l e s0) as Hk;
      destruct (set_coll_filter obs t l e s0) as [[[]|e'] s1]
  end; simpl in *.
  - right; right. exists c. split; [done|]. by rewrite Hk.
  - right; left. exists c. by rewrite Hk.
Qed.

(** Establishing a grasp changes nothing of the arm, or sets the handle,
    the held body and the freeze flag together. *)
Lemma establish_grasp_ag arm data s :
  ag (_establish_grasp env obs arm data s).2 = ag s
  ∨ ∃ cid bid params d,
      ag (_establish_grasp env obs arm data s).2
      = {| _ag_data := _ag_data (ag s);
           _ag_freeze_joint_pos := d;
           _ag_obj_in_hand := Some bid;
           _ag_obj_cid := Some cid;
           _ag_obj_cid_params := params;
           _ag_freeze_gripper := Some true;
           _ag_release_counter := _ag_release_counter (ag s) |}.
Proof.
  unfold _establish_grasp. unfold_M.
  destruct (resolve_arm_cases env arm s) as [[arm' ->] | ->]; [|by left].
  simpl. destruct data as [[ag_bid ag_link]|]; [|by left].
  destruct (find_contact_pos _ _) as [contact_pos|]; [|by left].
  destruct_poses. simpl.
  match goal with
  | |- context [set_coll_filter obs ?t ?l ?e ?s0] =>
      pose proof (keeps_ag_set_coll_filter obs t l e s0) as Hk;
      destruct (set_coll_filter obs t l e s0) as [[[]|e'] s1]
  end; simpl in *.
  - right.
    match goal with
    | |- context [for_each ?xs ?body s1] =>
        assert (∃ d, ag (for_each xs body s1).2
                     = set_ag_freeze_joint_pos d (ag s1)) as [d ->]
    end.
    { clear Hk. generalize s1. induction (finger_joints env arm') as [|j js IH];
        intros s2.
      - exists (_ag_freeze_joint_pos (ag s2)). by destruct s2 as [[]].
      - simpl. unfold Py.bind. simpl. edestruct IH as [d ->]. by exists d. }
    rewrite Hk. by eexists _, _, _, _.
  - right. rewrite Hk. by eexists _, _, _, _.
Qed.

Lemma keeps_ag_freeze_gripper arm : keeps_ag (_freeze_gripper env arm).
Proof.
  unfold _freeze_gripper.
  apply keeps_ag_bind; [intros s; by rewrite reads_only_resolve_arm|intros a].
  apply keeps_ag_bind; [done|intros d].
  apply keeps_ag_for_each. intros [k v].
  apply keeps_ag_bind; [|intros j; apply keeps_ag_engine].
  intros s. by rewrite reads_only_item.
Qed.

(** One arm's share of a step keeps the invariant, whatever it returns. *)
Lemma handle_arm_inv arm action s :
  lifecycle_inv (ag s) →
  lifecycle_inv (ag (_handle_assisted_grasping_arm env obs arm action s).2).
Proof.
  intros Hinv. unfold _handle_assisted_grasping_arm, controller_mode,
    gripper_command. unfold_M.
  destruct (gripper_controller obs arm) as [| |mode ? ? ?|]; try done.
  simpl. destruct (String.eqb mode "binary"); [|done]. simpl.
  destruct (action !! controller_action_idx env arm) as [a|]; [|done].
  simpl. destruct (truthy_int (_ag_obj_in_hand (ag s))) eqn:Hobj.
  - destruct (is_not_None (_ag_release_counter (ag s))) eqn:Hcnt.
    + destruct (handle_release_window_ag arm s)
        as [-> | [(c & Hc & ->) | (c & Hc & ->)]]; [done| |].
      * solve_inv Hinv.
      * solve_inv Hinv.
    + destruct (_ || _); [|done].
      destruct (release_grasp_ag arm s) as [-> | ->]; [done|].
      solve_inv Hinv.
  - destruct (_ <? _)%float; [|done].
    pose proof (reads_only_calculate env obs arm s) as Hr.
    destruct (_calculate_in_hand_object env obs arm s) as [[data|e] s'];
      simpl in *; subst s'; [|done].
    match goal with
    | |- context [_establish_grasp env obs arm ?d ?s0] =>
        destruct (establish_grasp_ag arm d s0)
          as [-> | (cid & bid & params & fjp & ->)]
    end; simpl.
    + solve_inv Hinv.
    + solve_inv Hinv.
Qed.

End Effects.

Section Robot.

Variable env : Env.

(** A property of the state that a computation keeps, whatever it
    returns. *)
Lemma for_each_preserves {S A} (I : S → Prop) (xs : list A) body :
  (∀ x s, I s → I (body x s).2) →
  ∀ s, I s → I (for_each xs body s).2.
Proof.
  intros Hb. induction xs as [|x xs IH]; intros s Hs; [done|].
  simpl. unfold Py.bind. specialize (Hb x s Hs).
  destruct (body x s) as [[[]|e] s']; simpl in *; auto.
Qed.

Lemma bind_preserves {S A B} (I : S → Prop) (m : M S A) (k : A → M S B) :
  (∀ s, I s → I (m s).2) → (∀ a s, I s → I (k a s).2) →
  ∀ s, I s → I ((m ≫= k) s).2.
Proof.
  intros Hm Hk s Hs. unfold_M. specialize (Hm s Hs).
  destruct (m s) as [[a|e] s']; simpl in *; auto.
Qed.

Lemma on_arm_preserves {A} (P : AG → Prop) arm (m : M ArmState A) :
  (∀ s, P (ag s) → P (ag (m s).2)) →
  ∀ r, map_Forall (λ _, P) (ags r) →
       map_Forall (λ _, P) (ags (on_arm arm m r).2).
Proof.
  intros Hm r Hr. unfold on_arm.
  destruct (ags r !! arm) as [a|] eqn:Ha; [|done].
  specialize (Hm {| ag := a; world := rworld r |} (Hr _ _ Ha)).
  destruct (m _) as [o s']; simpl in *.
  by apply map_Forall_insert_2.
Qed.

Lemma on_arm_dom {A} arm (m : M ArmState A) r :
  dom (ags (on_arm arm m r).2) = dom (ags r).
Proof.
  unfold on_arm. destruct (ags r !! arm) as [a|] eqn:Ha; [|done].
  destruct (m _) as [o s']; simpl.
  rewrite dom_insert_L. apply elem_of_dom_2 in Ha. set_solver.
Qed.

Lemma apply_action_inv obs action r :
  map_Forall (λ _, lifecycle_inv) (ags r) →
  map_Forall (λ _, lifecycle_inv) (ags (apply_action env obs action r).2).
Proof.
  unfold apply_action.
  apply (bind_preserves (λ r, map_Forall (λ _, lifecycle_inv) (ags r))).
  - intros r' Hr'. destruct (decide _); [|done].
    apply (for_each_preserves
             (λ r, map_Forall (λ _, lifecycle_inv) (ags r))); [|done].
    intros arm r'' Hr''. apply on_arm_preserves; [|done].
    apply handle_arm_inv.
  - intros _.
    apply (for_each_preserves
             (λ r, map_Forall (λ _, lifecycle_inv) (ags r))).
    intros arm r' Hr'.
    apply on_arm_preserves; [|done]. intros s Hs.
    unfold_M. simpl. destruct (truthy_bool _); [|done].
    by rewrite keeps_ag_freeze_gripper.
Qed.

Lemma apply_action_dom obs action r :
  dom (ags (apply_action env obs action r).2) = dom (ags r).
Proof.
  revert r.
  assert (∀ D r, dom (ags r) = D →
                 dom (ags (apply_action env obs action r).2) = D) as H;
    [|intros r; by apply H].
  intros D. unfold apply_action.
  apply (bind_preserves (λ r, dom (ags r) = D)).
  - intros r' Hr'. destruct (decide _); [|done].
    apply (for_each_preserves (λ r, dom (ags r) = D)); [|done].
    intros arm r'' Hr''. by rewrite on_arm_dom.
  - intros _. apply (for_each_preserves (λ r, dom (ags r) = D)).
    intros arm r' Hr'. by rewrite on_arm_dom.
Qed.

Lemma Robot_init_lookup arms w arm :
  arm ∈ arms → ags (Robot_init arms w) !! arm = Some AG_init.
Proof.
  intros Hin. unfold Robot_init. simpl.
  induction arms as [|x xs IH]; [by apply elem_of_nil in Hin|].
  rewrite fmap_cons. simpl. destruct (decide (x = arm)) as [->|Hne].
  - apply lookup_insert_eq.
  - rewrite lookup_insert_ne by done. apply IH.
    apply elem_of_cons in Hin as [?|?]; [congruence|done].
Qed.

Lemma lifecycle_inv_init : lifecycle_inv AG_init.
Proof.
  split; unfold Holding; simpl; rewrite ?is_Some_alt; intuition congruence.
Qed.

Lemma Robot_init_inv arms w :
  map_Forall (λ _, lifecycle_inv) (ags (Robot_init arms w)).
Proof.
  unfold Robot_init. simpl. induction arms as [|x xs IH].
  - apply map_Forall_empty.
  - rewrite fmap_cons. simpl. apply map_Forall_insert_2; [|done].
    apply lifecycle_inv_init.
Qed.

(** Every run from the initial state keeps the invariant on every arm. *)
Lemma run_inv inputs r :
  map_Forall (λ _, lifecycle_inv) (ags r) →
  map_Forall (λ _, lifecycle_inv) (ags (run env inputs r)).
Proof.
  revert r. induction inputs as [|[obs action] inputs IH]; intros r Hr;
    [done|].
  simpl. apply IH. by apply apply_action_inv.
Qed.

Lemma run_dom inputs r : dom (ags (run env inputs r)) = dom (ags r).
Proof.
  revert r. induction inputs as [|[obs action] inputs IH]; intros r; [done|].
  simpl. rewrite IH. apply apply_action_dom.
Qed.

Lemma run_arm inputs w arm :
  arm ∈ arm_names env →
  ∃ a, ags (run env inputs (Robot_init (arm_names env) w)) !! arm = Some a
       ∧ lifecycle_inv a.
Proof.
  intros Hin.
  assert (is_Some (ags (run env inputs (Robot_init (arm_names env) w))
                     !! arm)) as [a Ha].
  { apply elem_of_dom. rewrite run_dom. apply elem_of_dom.
    rewrite Robot_init_lookup; eauto. }
  exists a. split; [done|].
  eapply (run_inv inputs); [apply Robot_init_inv|done].
Qed.

End Robot.



Section Loops.

Variable env : Env.
Variable obs : Obs.

Lemma resolve_arm_id {S} arm (s : S) :
  arm ≠ "default"%string → resolve_arm env arm s = (Ok arm, s).
Proof.
  intros Hne. unfold resolve_arm.
  by destruct (String.eqb_spec arm "default").
Qed.

Lemma resolve_arm_ok {S} arm (s : S) :
  (arm = "default"%string → arm_names env ≠ []) →
  ∃ arm', resolve_arm env arm s = (Ok arm', s).
Proof.
  intros H. unfold resolve_arm, default_arm.
  destruct (String.eqb_spec arm "default"); [|by eexists].
  destruct (arm_names env); [by destruct H|by eexists].
Qed.

Lemma set_pairs_app e ps qs w :
  set_pairs e (ps ++ qs) w = set_pairs e qs (set_pairs e ps w).
Proof. apply foldl_app. Qed.

Lemma set_coll_filter_eq target links enable s :
  set_coll_filter obs (Some target) links enable s
  = (Ok tt, {| ag := ag s;
               world := set_pairs enable (coll_pairs obs target links)
                                  (world s) |}).
Proof.
  unfold set_coll_filter, coll_pairs.
  generalize (-1 :: seqZ 0 (getNumJoints obs target)). intros idxs.
  revert s. induction links as [|link links IH]; intros s.
  { by destruct s. }
  simpl. unfold Py.bind at 1.
  assert (∀ s0, for_each idxs (λ target_link_idx,
              engine (setCollisionFilterPair (body_id link) target
                        (link_id link) target_link_idx enable)) s0
          = (Ok tt, {| ag := ag s0;
                       world := set_pairs enable
                         ((λ idx, (body_id link, target, link_id link, idx))
                            <$> idxs) (world s0) |})) as ->.
  { clear IH. induction idxs as [|i idxs IHi]; intros s0; [by destruct s0|].
    simpl. unfold Py.bind, engine, Py.modify. by rewrite IHi. }
  rewrite IH. simpl. by rewrite set_pairs_app.
Qed.

Lemma set_pairs_constraints e ps w :
  constraints (set_pairs e ps w) = constraints w.
Proof.
  revert w. induction ps as [|[[[a b] la] lb] ps IH]; intros w; [done|].
  simpl. by rewrite IH.
Qed.

Lemma set_pairs_next_constraint e ps w :
  next_constraint (set_pairs e ps w) = next_constraint w.
Proof.
  revert w. induction ps as [|[[[a b] la] lb] ps IH]; intros w; [done|].
  simpl. by rewrite IH.
Qed.

Lemma set_pairs_lookup_ne e ps w k :
  k ∉ ps →
  collision_filter (set_pairs e ps w) !! k = collision_filter w !! k.
Proof.
  revert w. induction ps as [|[[[a b] la] lb] ps IH]; intros w Hk; [done|].
  simpl. apply not_elem_of_cons in Hk as [Hne Hk].
  rewrite IH by done. simpl. by rewrite lookup_insert_ne.
Qed.

(** Every pair that was set reads back the flag. *)
Lemma set_pairs_lookup e ps w k :
  k ∈ ps → collision_filter (set_pairs e ps w) !! k = Some e.
Proof.
  revert w. induction ps as [|[[[a b] la] lb] ps IH]; intros w Hk.
  { by apply elem_of_nil in Hk. }
  simpl. destruct (decide (k ∈ ps)) as [Hin|Hnin]; [by apply IH|].
  apply elem_of_cons in Hk as [->|?]; [|done].
  rewrite set_pairs_lookup_ne by done. simpl. apply lookup_insert_eq.
Qed.

Lemma elem_of_coll_pairs target links link idx :
  link ∈ links →
  idx ∈ -1 :: seqZ 0 (getNumJoints obs target) →
  (body_id link, target, link_id link, idx) ∈ coll_pairs obs target links.
Proof.
  intros Hl Hi. unfold coll_pairs. apply list_elem_of_bind.
  exists link. split; [|done].
  apply list_elem_of_fmap. by exists idx.
Qed.

Lemma freeze_loop_eq joints (body : RobotJoint → M ArmState unit) s :
  (∀ joint s0,
     body joint s0
     = (Ok tt,
        {| ag := set_ag_freeze_joint_pos
                   (dict_set (inl (joint_name joint))
                             (get_state_position obs (joint_name joint))
                             (_ag_freeze_joint_pos (ag s0)))
                   (ag s0);
           world := world s0 |})) →
  for_each joints body s
  = (Ok tt,
     {| ag := set_ag_freeze_joint_pos
                (frozen_positions obs joints (_ag_freeze_joint_pos (ag s)))
                (ag s);
        world := world s |}).
Proof.
  intros Hbody. revert s. induction joints as [|j js IH]; intros s.
  { by destruct s as [[]]. }
  simpl. unfold Py.bind. rewrite Hbody, IH. done.
Qed.

End Loops.

(** ** The grasp query *)

(** C10: in the assisted and sticky modes [is_grasping] returns and never
    answers [UNKNOWN]; it answers [TRUE] exactly when a body is held (the
    candidate, when one is given) and no release counter is present, and
    [FALSE] otherwise, so [FALSE] during the whole release window although
    the held body is still set. *)
Theorem is_grasping_assisted env obs arm candidate_obj s :
  grasping_mode env ≠ physical →
  (arm = "default"%string → arm_names env ≠ []) →
  ∃ res,
    is_grasping env obs arm candidate_obj s = (Ok res, s)
    ∧ res ≠ UNKNOWN
    ∧ (res = TRUE ↔
       match candidate_obj with
       | None => is_Some (_ag_obj_in_hand (ag s))
       | Some c => _ag_obj_in_hand (ag s) = Some c
       end ∧ _ag_release_counter (ag s) = None)
    ∧ (res = FALSE ↔
       ¬ (match candidate_obj with
          | None => is_Some (_ag_obj_in_hand (ag s))
          | Some c => _ag_obj_in_hand (ag s) = Some c
          end ∧ _ag_release_counter (ag s) = None))
    ∧ (Releasing (ag s) → res = FALSE).
Proof.
  intros Hmode Harm. unfold is_grasping. unfold_M.
  destruct (resolve_arm_ok env arm s Harm) as [arm' ->]. simpl.
  destruct (decide _) as [_|?]; [|done]. simpl.
  unfold Releasing.
  destruct (_ag_obj_in_hand (ag s)) as [b|], (_ag_release_counter (ag s)) as [c|],
    candidate_obj as [cand|]; simpl;
    try (destruct (bool_decide_reflect (Some b = Some cand)) as [Heq|Hne]);
    simpl; eexists; (split; [reflexivity|]);
    rewrite ?is_Some_alt; intuition (try congruence; try done).
Qed.

Lemma is_grasping_assisted_witness :
  grasping_mode (Example.robot sticky) ≠ physical
  ∧ ∃ res,
      is_grasping (Example.robot sticky) (Example.scene 5 0) "0" (Some 5)
        {| ag := set_ag_obj_in_hand (Some 5) AG_init;
           world := Example.engine0 |}
      = (Ok res, {| ag := set_ag_obj_in_hand (Some 5) AG_init;
                    world := Example.engine0 |})
      ∧ res = TRUE.
Proof.
  split; [done|].
  destruct (is_grasping_assisted (Example.robot sticky) (Example.scene 5 0)
              "0" (Some 5)
              {| ag := set_ag_obj_in_hand (Some 5) AG_init;
                 world := Example.engine0 |})
    as (res & Heq & _ & Htrue & _); [done|done|].
  exists res. split; [exact Heq|]. apply Htrue. by split.
Defined.

(** ** Establishing a grasp *)

Lemma grasp_joint_type_cases obs ag_bid ag_link :
  grasp_joint_type obs ag_bid ag_link = JOINT_FIXED
  ∨ grasp_joint_type obs ag_bid ag_link = JOINT_POINT2POINT.
Proof. unfold grasp_joint_type. destruct (_ && _); auto. Qed.

(** C8: when a grasp is established, the attachment is fixed with the
    maximum force [ASSIST_FORCE] (500), or point-to-point with
    [ASSIST_FORCE * 0.7] (350), and nothing else; the recorded parameters
    carry the same kind and force. *)
Theorem establish_grasp_max_force env obs arm ag_data s s' :
  _establish_grasp env obs arm (Some ag_data) s = (Ok tt, s') →
  ∃ cid c,
    _ag_obj_cid (ag s') = Some cid
    ∧ constraints (world s') !! cid = Some c
    ∧ c_childBodyUniqueId c = ag_data.1
    ∧ (c_jointType c = JOINT_FIXED ∧ c_maxForce c = Some ASSIST_FORCE
       ∨ c_jointType c = JOINT_POINT2POINT
         ∧ c_maxForce c
           = Some (ASSIST_FORCE * ARTICULATED_ASSIST_FRACTION)%float)
    ∧ jointType (_ag_obj_cid_params (ag s')) = Some (c_jointType c)
    ∧ maxForce (_ag_obj_cid_params (ag s')) = c_maxForce c
    ∧ ASSIST_FORCE = 500%float
    ∧ (ASSIST_FORCE * ARTICULATED_ASSIST_FRACTION)%float = 350%float.
Proof.
  unfold _establish_grasp. unfold_M.
  destruct (resolve_arm_cases env arm s) as [[arm' ->] | ->]; [|done].
  simpl. destruct ag_data as [ag_bid ag_link].
  destruct (find_contact_pos _ _) as [contact_pos|]; [|done].
  destruct_poses. simpl.
  rewrite set_coll_filter_eq. simpl.
  rewrite (freeze_loop_eq obs) by done. simpl.
  intros [= <-]. simpl.
  eexists _, _. split; [done|]. rewrite set_pairs_constraints. simpl.
  rewrite lookup_alter_eq, lookup_insert_eq. simpl.
  split; [done|]. split; [done|]. unfold grasp_max_force.
  split.
  { destruct (grasp_joint_type_cases obs ag_bid ag_link) as [-> | ->];
      [left|right]; done. }
  repeat split; vm_compute; reflexivity.
Qed.

Lemma establish_grasp_max_force_witness :
  ∃ s' cid c,
    _establish_grasp (Example.robot sticky) (Example.scene 5 0) "0"
      (Some (5, -1)) {| ag := AG_init; world := Example.engine0 |}
    = (Ok tt, s')
    ∧ _ag_obj_cid (ag s') = Some cid
    ∧ constraints (world s') !! cid = Some c
    ∧ c_maxForce c = Some 500%float.
Proof.
  eexists. 
  assert (_establish_grasp (Example.robot sticky) (Example.scene 5 0) "0"
            (Some (5, -1)) {| ag := AG_init; world := Example.engine0 |}
          = (Ok tt,
             (_establish_grasp (Example.robot sticky) (Example.scene 5 0) "0"
                (Some (5, -1))
                {| ag := AG_init; world := Example.engine0 |}).2)) as Heq.
  { vm_compute. reflexivity. }
  destruct (establish_grasp_max_force _ _ _ _ _ _ Heq)
    as (cid & c & Hcid & Hc & _ & Hforce & _ & _ & H500 & _).
  exists cid, c. split; [exact Heq|]. split; [exact Hcid|].
  split; [exact Hc|].
  destruct Hforce as [[_ ->] | [Hkind _]]; [by rewrite H500|].
  exfalso. revert Hkind. revert Hc. revert Hcid.
  vm_compute. intros [= <-] [= <-]. discriminate.
Defined.

(** ** Releasing *)

Lemma release_grasp_held env arm s c :
  (arm = "default"%string → arm_names env ≠ []) →
  _ag_obj_cid (ag s) = Some c →
  _release_grasp env arm s
  = (Ok tt, {| ag := released (ag s);
               world := removeConstraint c (world s) |}).
Proof.
  intros Harm Hc. unfold _release_grasp. unfold_M.
  destruct (resolve_arm_ok env arm s Harm) as [arm' ->]. simpl.
  by rewrite Hc.
Qed.

(** An open command on an idle arm changes nothing. *)
Lemma handle_arm_idle_open env obs arm action s a ctl mt tol :
  gripper_controller obs arm = ParallelJawGripperController "binary" ctl mt tol →
  action !! controller_action_idx env arm = Some a →
  (a <? 0)%float = false →
  truthy_int (_ag_obj_in_hand (ag s)) = false →
  _handle_assisted_grasping_arm env obs arm action s = (Ok tt, s).
Proof.
  intros Hctl Ha Hopen Hobj.
  unfold _handle_assisted_grasping_arm, controller_mode, gripper_command.
  unfold_M. rewrite Hctl. simpl. rewrite Ha. simpl.
  by rewrite Hobj, Hopen.
Qed.

(** C3, as the code has it: release on an idle arm (no held body, no
    handle) hands the missing handle to the engine.  If the engine raises,
    release raises and changes nothing; if the engine returns, release
    returns with the release counter at 0 and the freeze flag at [False].
    The lifecycle itself leaves an idle arm alone on an open command. *)
Theorem release_on_idle env obs arm action s a ctl mt tol :
  (arm = "default"%string → arm_names env ≠ []) →
  Idle (ag s) → _ag_obj_cid (ag s) = None →
  gripper_controller obs arm = ParallelJawGripperController "binary" ctl mt tol →
  action !! controller_action_idx env arm = Some a →
  (a <? 0)%float = false →
  match removeConstraint_None env with
  | Some e => _release_grasp env arm s = (Raise e, s)
  | None =>
      _release_grasp env arm s
      = (Ok tt, {| ag := released (ag s); world := world s |})
      ∧ _ag_release_counter (released (ag s)) = Some 0
      ∧ _ag_freeze_gripper (released (ag s)) = Some false
  end
  ∧ _handle_assisted_grasping_arm env obs arm action s = (Ok tt, s).
Proof.
  intros Harm Hidle Hcid Hctl Ha Hopen. split.
  - unfold _release_grasp. unfold_M.
    destruct (resolve_arm_ok env arm s Harm) as [arm' ->]. simpl.
    rewrite Hcid. by destruct (removeConstraint_None env).
  - eapply handle_arm_idle_open; eauto. unfold Idle in Hidle. by rewrite Hidle.
Qed.

Lemma release_on_idle_witness :
  let idle := {| ag := AG_init; world := Example.engine0 |} in
  _release_grasp (Example.robot sticky) "0" idle = (Raise TypeError, idle)
  ∧ _handle_assisted_grasping_arm (Example.robot sticky) (Example.scene 5 0)
      "0" Example.open idle = (Ok tt, idle).
Proof.
  exact (release_on_idle (Example.robot sticky) (Example.scene 5 0) "0"
           Example.open {| ag := AG_init; world := Example.engine0 |}
           1%float None motor_position 0.001%float
           ltac:(done) eq_refl eq_refl eq_refl eq_refl eq_refl).
Defined.

(** C3 as stated fails: with PyBullet's [removeConstraint], release on the
    idle arm raises; with an engine that accepts the missing handle, it
    leaves a release counter behind. *)
Lemma release_on_idle_counterexample :
  let idle := {| ag := AG_init; world := Example.engine0 |} in
  Idle (ag idle) ∧ _ag_obj_cid (ag idle) = None
  ∧ _release_grasp (Example.robot sticky) "0" idle = (Raise TypeError, idle)
  ∧ _release_grasp (Example.robot_with sticky None [1]) "0" idle
    ≠ (Ok tt, idle).
Proof.
  repeat split. intros H. vm_compute in H. discriminate H.
Qed.

(** ** The release window *)

Lemma handle_release_window_eq env obs arm s c b :
  arm ≠ "default"%string →
  _ag_release_counter (ag s) = Some c →
  _ag_obj_in_hand (ag s) = Some b →
  _handle_release_window env obs arm s
  = (Ok tt,
     if (RELEASE_WINDOW <=? float_of_int (c + 1) * render_timestep env)%float
     then {| ag := set_ag_release_counter None
                     (set_ag_obj_in_hand None (ag s));
             world := set_pairs true
                        (coll_pairs obs b (finger_links env arm)) (world s) |}
     else {| ag := set_ag_release_counter (Some (c + 1)) (ag s);
             world := world s |}).
Proof.
  intros Harm Hc Hb. unfold _handle_release_window. unfold_M.
  rewrite (resolve_arm_id env arm s Harm). simpl. rewrite Hc. simpl.
  destruct (_ <=? _)%float; [|done].
  simpl. rewrite Hb, set_coll_filter_eq. done.
Qed.

(** C6: an arm that a run has brought into the release window counts one
    step per step; once the counter times the step duration reaches
    [RELEASE_WINDOW] (1/30 s) the same step re-enables the collision of
    every finger link with every link of the released body and clears the
    held body and the counter; before that only the counter changes. *)
Theorem release_window_step env inputs w0 obs action arm a w ctl mt tol cmd c b :
  "default"%string ∉ arm_names env →
  ags (run env inputs (Robot_init (arm_names env) w0)) !! arm = Some a →
  _ag_obj_in_hand a = Some b →
  _ag_release_counter a = Some c →
  gripper_controller obs arm = ParallelJawGripperController "binary" ctl mt tol →
  action !! controller_action_idx env arm = Some cmd →
  ∃ s',
    _handle_assisted_grasping_arm env obs arm action {| ag := a; world := w |}
    = (Ok tt, s')
    ∧ if (RELEASE_WINDOW <=? float_of_int (c + 1) * render_timestep env)%float
      then
        ag s' = set_ag_release_counter None (set_ag_obj_in_hand None a)
        ∧ Idle (ag s')
        ∧ ∀ link idx,
            link ∈ finger_links env arm →
            idx ∈ -1 :: seqZ 0 (getNumJoints obs b) →
            collision_filter (world s') !! (body_id link, b, link_id link, idx)
            = Some true
      else
        s' = {| ag := set_ag_release_counter (Some (c + 1)) a; world := w |}.
Proof.
  intros Hdef Ha Hb Hc Hctl Hcmd.
  assert (arm ∈ arm_names env) as Harm.
  { apply elem_of_dom_2 in Ha. rewrite run_dom in Ha.
    unfold Robot_init in Ha. simpl in Ha. rewrite dom_list_to_map_L in Ha.
    apply elem_of_list_to_set in Ha. rewrite <- list_fmap_compose in Ha.
    apply list_elem_of_fmap in Ha as (x & -> & Hx). done. }
  assert (arm ≠ "default"%string) as Hne by (intros ->; done).
  assert (lifecycle_inv a) as Hinv.
  { eapply (run_inv env inputs); [apply Robot_init_inv|exact Ha]. }
  assert (truthy_int (_ag_obj_in_hand a) = true) as Htruthy.
  { apply Hinv. by rewrite Hc. }
  eexists. split.
  - unfold _handle_assisted_grasping_arm, controller_mode, gripper_command.
    unfold_M. rewrite Hctl. simpl. rewrite Hcmd. simpl.
    rewrite Htruthy. simpl. rewrite Hc. simpl.
    by apply handle_release_window_eq.
  - destruct (_ <=? _)%float; [|done]. simpl.
    split; [done|]. split; [done|]. intros link idx Hl Hi.
    apply set_pairs_lookup. by apply elem_of_coll_pairs.
Qed.

Lemma release_window_step_witness :
  ∃ s',
    ags (run (Example.robot sticky)
           [(Example.scene 5 0, Example.close);
            (Example.scene 5 0, Example.open);
            (Example.scene 5 0, Example.open)]
           (Robot_init (arm_names (Example.robot sticky)) Example.engine0))
      !! "0"%string = Some (Example.releasing 5 1)
    ∧ _handle_assisted_grasping_arm (Example.robot sticky) (Example.scene 5 0)
        "0" Example.open
        {| ag := Example.releasing 5 1; world := Example.engine0 |}
      = (Ok tt, s')
    ∧ Idle (ag s')
    ∧ collision_filter (world s') !! (1, 5, 8, -1) = Some true.
Proof.
  destruct (release_window_step (Example.robot sticky)
              [(Example.scene 5 0, Example.close);
               (Example.scene 5 0, Example.open);
               (Example.scene 5 0, Example.open)]
              Example.engine0 (Example.scene 5 0) Example.open "0"
              (Example.releasing 5 1) Example.engine0 None motor_position
              0.001%float 1%float 1 5)
    as (s' & Hstep & Hwin).
  - vm_compute. intros H. inversion H as [|? ? ? H']. inversion H'.
  - vm_compute. reflexivity.
  - reflexivity.
  - reflexivity.
  - reflexivity.
  - reflexivity.
  - exists s'. split; [vm_compute; reflexivity|].
    split; [exact Hstep|].
    assert ((RELEASE_WINDOW
             <=? float_of_int (1 + 1) * render_timestep (Example.robot sticky))%float
            = true) as Hel by (vm_compute; reflexivity).
    rewrite Hel in Hwin. destruct Hwin as (_ & Hidle & Hcoll).
    split; [exact Hidle|].
    apply (Hcoll {| body_id := 1; link_id := 8 |} (-1)); by left.
Defined.

(** ** Leaving the holding state *)

(** While a body with a non-zero id is held, a violation above the threshold
    or an open command starts the release in that step. *)
Lemma handle_arm_holding_release env obs arm action s ctl mt tol cmd b cid :
  arm ≠ "default"%string →
  gripper_controller obs arm = ParallelJawGripperController "binary" ctl mt tol →
  action !! controller_action_idx env arm = Some cmd →
  _ag_obj_in_hand (ag s) = Some b → b ≠ 0 →
  _ag_release_counter (ag s) = None →
  _ag_obj_cid (ag s) = Some cid →
  (CONSTRAINT_VIOLATION_THRESHOLD <? get_constraint_violation obs (Some cid))%float
  || (0 <=? cmd)%float = true →
  _handle_assisted_grasping_arm env obs arm action s
  = (Ok tt, {| ag := released (ag s);
               world := removeConstraint cid (world s) |}).
Proof.
  intros Harm Hctl Hcmd Hb Hb0 Hc Hcid Hrel.
  unfold _handle_assisted_grasping_arm, controller_mode, gripper_command.
  unfold_M. rewrite Hctl. simpl. rewrite Hcmd. simpl.
  rewrite Hb. simpl. destruct (Z.eqb_spec b 0) as [|_]; [done|]. simpl.
  rewrite Hc. simpl. rewrite Hcid, Hrel.
  apply release_grasp_held; [done|by rewrite Hcid].
Qed.

(** C5 at the body id 0: the arm holds body 0, the engine reports the
    violation 0.15 and the command is close.  [if self._ag_obj_in_hand[arm]]
    takes the held body 0 for no body: the step searches a candidate again
    and creates a second constraint; the arm stays in the holding state, and
    the first constraint is still in the engine. *)
Lemma holding_body_zero_not_released :
  let r := run (Example.robot sticky) [(Example.scene 0 0, Example.close)]
             (Example.start sticky) in
  let r' := step (Example.robot sticky)
              (Example.scene 0 0.15, Example.close) r in
  (∃ a, ags r !! "0"%string = Some a
        ∧ Holding a ∧ _ag_obj_in_hand a = Some 0 ∧ _ag_obj_cid a = Some 1)
  ∧ (CONSTRAINT_VIOLATION_THRESHOLD
     <? get_constraint_violation (Example.scene 0 0.15) (Some 1%Z))%float = true
  ∧ (∃ a', ags r' !! "0"%string = Some a'
           ∧ Holding a' ∧ ¬ Releasing a' ∧ _ag_obj_cid a' = Some 2)
  ∧ is_Some (constraints (rworld r') !! 1)
  ∧ step (Example.robot sticky) (Example.scene 0 0.15, Example.open) r = r.
Proof.
  split; [|split; [|split; [|split]]].
  - eexists. split; [vm_compute; reflexivity|].
    split; [split; [by eexists|done]|done].
  - vm_compute. reflexivity.
  - eexists. split; [vm_compute; reflexivity|].
    split; [split; [by eexists|done]|].
    split; [|done]. intros [_ [c Hc]]. discriminate Hc.
  - vm_compute. by eexists.
  - vm_compute. reflexivity.
Qed.

(** ** Candidate selection *)

Section Selection.

Variable env : Env.
Variable obs : Obs.

(** What [_find_gripper_contacts] returns: the links that some finger
    contact touches, and for each of them the robot links of these
    contacts. *)
Lemma find_gripper_contacts_spec arm :
  let '(contact_data, robot_contact_links) :=
    _find_gripper_contacts env obs arm in
  (∀ x, x ∈ contact_data ↔ ∃ con_res, touches env obs arm x con_res)
  ∧ (∀ x, x ∈ contact_data ↔ is_Some (robot_contact_links !! x))
  ∧ (∀ x links l,
       robot_contact_links !! x = Some links →
       l ∈ links
       ↔ ∃ con_res, touches env obs arm x con_res ∧ l = linkIndexA con_res).
Proof.
  unfold _find_gripper_contacts, touches.
  induction (con_results env obs arm) as [|c cs IH] using rev_ind.
  { simpl. split; [|split].
    - intros x. split; [set_solver|]. intros (c & Hc & _). by inv Hc.
    - intros x. rewrite lookup_empty. split; [set_solver|].
      intros [? ?]; done.
    - intros x links l. by rewrite lookup_empty. }
  rewrite foldl_app. simpl.
  destruct (foldl _ _ cs) as [cd rcl]. destruct IH as (IH1 & IH2 & IH3).
  destruct (not_self env arm (bodyUniqueIdB c)) eqn:Hself.
  - split; [|split].
    + intros x. rewrite elem_of_union, elem_of_singleton, IH1. split.
      * intros [(c' & Hc' & ?) | ->].
        -- exists c'. rewrite elem_of_app. intuition.
        -- exists c. rewrite elem_of_app, list_elem_of_singleton.
           intuition.
      * intros (c' & Hc' & Hs & ->). apply elem_of_app in Hc' as [?|Hc'].
        -- left. by exists c'.
        -- apply list_elem_of_singleton in Hc' as ->. by right.
    + intros x. rewrite elem_of_union, elem_of_singleton, IH2.
      rewrite lookup_insert. case_decide as Hx; subst.
      * split; [by eexists|by right].
      * split; [by intros [?|?]|by left].
    + intros x links l. rewrite lookup_insert. case_decide as Hx; subst.
      * intros [= <-]. rewrite elem_of_union, elem_of_singleton. split.
        -- intros [Hl | ->].
           ++ destruct (rcl !! _) as [ls|] eqn:Hrcl; simpl in Hl;
                [|set_solver].
              apply (IH3 _ _ _ Hrcl) in Hl as (c' & (? & ? & ?) & ->).
              exists c'. rewrite elem_of_app. intuition.
           ++ exists c. rewrite elem_of_app, list_elem_of_singleton.
              intuition.
        -- intros (c' & (Hc' & Hs & Heq) & ->).
           apply elem_of_app in Hc' as [Hc'|Hc'].
           ++ left. assert (is_Some (rcl !! (bodyUniqueIdB c, linkIndexB c)))
                as [ls Hls].
              { apply IH2, IH1. by exists c'. }
              rewrite Hls. simpl. apply (IH3 _ _ _ Hls). by exists c'.
           ++ apply list_elem_of_singleton in Hc' as ->. by right.
      * intros Hl. rewrite (IH3 _ _ _ Hl). split.
        -- intros (c' & (? & ? & ?) & ->). exists c'.
           rewrite elem_of_app. intuition.
        -- intros (c' & (Hc' & Hs & ->) & ->).
           apply elem_of_app in Hc' as [Hc'|Hc'].
           ++ by exists c'.
           ++ apply list_elem_of_singleton in Hc' as ->. done.
  - split; [|split].
    + intros x. rewrite IH1. split.
      * intros (c' & ? & ?). exists c'. rewrite elem_of_app. intuition.
      * intros (c' & Hc' & Hs & ->). apply elem_of_app in Hc' as [?|Hc'].
        -- by exists c'.
        -- apply list_elem_of_singleton in Hc' as ->. congruence.
    + done.
    + intros x links l Hl. rewrite (IH3 _ _ _ Hl). split.
      * intros (c' & (? & ? & ?) & ->). exists c'.
        rewrite elem_of_app. intuition.
      * intros (c' & (Hc' & Hs & ->) & ->).
        apply elem_of_app in Hc' as [Hc'|Hc'].
        -- by exists c'.
        -- apply list_elem_of_singleton in Hc' as ->. congruence.
Qed.

End Selection.

Section Ranking.

Variable env : Env.
Variable obs : Obs.

Lemma elem_of_insert_by_dist x y l :
  y ∈ insert_by_dist x l ↔ y = x ∨ y ∈ l.
Proof.
  induction l as [|z l IH]; simpl.
  - rewrite list_elem_of_singleton, elem_of_nil. tauto.
  - destruct (_ <? _)%float; rewrite !elem_of_cons, ?IH; tauto.
Qed.

(** Sorting keeps the candidates. *)
Lemma elem_of_sorted_by_dist y l : y ∈ sorted_by_dist l ↔ y ∈ l.
Proof.
  unfold sorted_by_dist. induction l as [|x l IH]; simpl; [done|].
  rewrite elem_of_insert_by_dist, elem_of_cons, IH. tauto.
Qed.

(** What the loop went through when it got to its end. *)
Lemma candidate_data_inv arm cs s s' data :
  candidate_data env obs arm cs s = (Ok data, s') →
  s' = s
  ∧ (∀ x, x ∈ cs → x.2 = -1)
  ∧ data = (λ x, (x, candidate_dist env obs arm x))
             <$> iter_set (candidates_order obs arm) cs.
Proof.
  rewrite candidate_data_eq.
  destruct (forallb _ _) eqn:E; [|done].
  intros [= <- <-]. split; [done|]. split; [|done].
  apply Is_true_true, forallb_True in E. rewrite Forall_forall in E.
  intros x Hx. apply elem_of_iter_set with (order := candidates_order obs arm) in Hx.
  apply E, Is_true_true in Hx. lia.
Qed.

(** The entries of [candidate_data]: the candidates, each with its
    distance. *)
Lemma elem_of_candidate_data arm cs s s' data y :
  candidate_data env obs arm cs s = (Ok data, s') →
  y ∈ data ↔ y.1 ∈ cs ∧ y.2 = candidate_dist env obs arm y.1.
Proof.
  intros (_ & _ & ->)%candidate_data_inv.
  rewrite list_elem_of_fmap. split.
  - intros (x & -> & Hx%elem_of_iter_set). done.
  - intros [Hy Hd]. exists y.1. rewrite elem_of_iter_set.
    split; [|done]. destruct y as [x d]. simpl in *. by subst d.
Qed.

Lemma nearest_is_candidate arm cs s s' data b l d rest :
  candidate_data env obs arm cs s = (Ok data, s') →
  sorted_by_dist data = (b, l, d) :: rest →
  (b, l) ∈ cs ∧ l = -1 ∧ d = candidate_dist env obs arm (b, l).
Proof.
  intros Hdata Hs.
  assert ((b, l, d) ∈ data) as Hin.
  { apply elem_of_sorted_by_dist. rewrite Hs. by left. }
  apply (elem_of_candidate_data _ _ _ _ _ _ Hdata) in Hin as [Hin Hd].
  destruct (candidate_data_inv _ _ _ _ _ Hdata) as (_ & Hbase & _).
  split; [done|]. split; [|done]. apply (Hbase _ Hin).
Qed.

Lemma candidates_subseteq arm s s' cs :
  candidates env obs arm s = (Ok cs, s') →
  cs ⊆ (_find_gripper_contacts env obs arm).1.
Proof.
  unfold candidates. destruct (grasping_mode env); [done| |].
  - unfold_M.
    destruct (_find_gripper_raycast_collisions env obs arm s) as [[rc|e] s''];
      [|done].
    intros [= <- <-]. set_solver.
  - by intros [= <- <-].
Qed.

Lemma select_nearest_empty arm s :
  select_nearest env obs arm ∅ s = (Ok None, s).
Proof. unfold select_nearest. by rewrite size_empty. Qed.



Lemma calculate_in_hand_object_select arm s cs :
  arm ≠ "default"%string →
  candidates env obs arm s = (Ok cs, s) →
  _calculate_in_hand_object env obs arm s = select_nearest env obs arm cs s.
Proof.
  intros Harm Hcand. unfold _calculate_in_hand_object. unfold_M.
  rewrite (resolve_arm_id env arm s Harm). simpl. by rewrite Hcand.
Qed.

(** What the selection among the set [cs] went through when it returns a
    candidate. *)
Lemma select_nearest_inv arm cs s s' b l :
  select_nearest env obs arm cs s = (Ok (Some (b, l)), s') →
  ∃ data d rest robot_contacts,
    candidate_data env obs arm cs s = (Ok data, s)
    ∧ sorted_by_dist data = (b, l, d) :: rest
    ∧ (b ∉ get_body_ids env)
    ∧ (_find_gripper_contacts env obs arm).2 !! (b, l) = Some robot_contacts
    ∧ can_assisted_grasp obs b l = true
    ∧ (2 ≤ size (touching_fingers env arm robot_contacts))%nat.
Proof.
  unfold select_nearest. unfold_M.
  destruct (size cs =? 0)%nat; [done|].
  pose proof (reads_only_candidate_data env obs arm cs s) as Hr.
  destruct (candidate_data env obs arm cs s) as [[data|e] s1]; simpl in Hr;
    subst s1; [|done].
  destruct (sorted_by_dist data) as [|[[b' l'] d] rest] eqn:Hsort; [done|].
  destruct (bool_decide_reflect (b' ∉ get_body_ids env)) as [Hbody|]; [|done].
  simpl.
  destruct ((_find_gripper_contacts env obs arm).2 !! (b', l'))
    as [rc|] eqn:Hrc; [|done].
  cbn -[Nat.leb size].
  destruct (can_assisted_grasp obs b' l') eqn:Hcan; [|done].
  destruct (size (touching_fingers env arm rc)) as [|[|n]] eqn:Hsz;
    [done|done|].
  simpl. intros [= <- <- <-]. exists data, d, rest, rc.
  rewrite Hsz. repeat split; try done. lia.
Qed.

End Ranking.

(** Of two candidates at the same distance the selection returns the one
    that the set hands out first. *)
Lemma tie_follows_order :
  let s := {| ag := AG_init; world := Example.engine0 |} in
  let env := Example.robot sticky in
  candidate_dist env Scenes.tie "0" (2, -1)
  = candidate_dist env Scenes.tie "0" (3, -1)
  ∧ _calculate_in_hand_object env
      (Scenes.with_order [(2, -1); (3, -1)] Scenes.tie) "0" s
    = (Ok (Some (2, -1)), s)
  ∧ _calculate_in_hand_object env
      (Scenes.with_order [(3, -1); (2, -1)] Scenes.tie) "0" s
    = (Ok (Some (3, -1)), s).
Proof. repeat split; vm_compute; reflexivity. Qed.

(** C7: in the assisted mode the set that is ranked by distance is the
    intersection of the links that the fingers touch and the links that the
    rays hit (the robot itself and the id -1 left out of both): the
    selection is the one among that set, the distances that are sorted are
    those of its members, and a candidate that is returned is the head of
    the sorted list and a member of the set, so no link that the rays
    missed is returned, however near; when the two sets are disjoint the
    selection returns [None], whatever the fingers touch. *)
Theorem assisted_candidates_intersection env obs arm s :
  grasping_mode env = assisted →
  arm ≠ "default"%string →
  is_Some (assisted_grasp_start_points env arm) →
  is_Some (assisted_grasp_end_points env arm) →
  let contacts := (_find_gripper_contacts env obs arm).1 in
  let hits : gset (Z * Z) :=
    list_to_set (filter (λ ray_res, not_self env arm ray_res.1)
                        (ray_results env obs arm)) in
  _find_gripper_raycast_collisions env obs arm s = (Ok hits, s)
  ∧ candidates env obs arm s = (Ok (contacts ∩ hits), s)
  ∧ (∀ x, x ∈ contacts ∩ hits ↔
          (∃ con_res, touches env obs arm x con_res)
          ∧ x ∈ ray_results env obs arm ∧ not_self env arm x.1 = true)
  ∧ _calculate_in_hand_object env obs arm s
    = select_nearest env obs arm (contacts ∩ hits) s
  ∧ (∀ data s',
       candidate_data env obs arm (contacts ∩ hits) s = (Ok data, s') →
       ∀ y, y ∈ data ↔
            y.1 ∈ contacts ∩ hits ∧ y.2 = candidate_dist env obs arm y.1)
  ∧ (∀ x s',
       _calculate_in_hand_object env obs arm s = (Ok (Some x), s') →
       x ∈ contacts ∩ hits
       ∧ ∃ data d rest,
           candidate_data env obs arm (contacts ∩ hits) s = (Ok data, s)
           ∧ sorted_by_dist data = (x, d) :: rest)
  ∧ (∀ x s',
       x ∉ hits →
       _calculate_in_hand_object env obs arm s ≠ (Ok (Some x), s'))
  ∧ (contacts ## hits →
     _calculate_in_hand_object env obs arm s = (Ok None, s)).
Proof.
  intros Hmode Harm [sp Hsp] [ep Hep] contacts hits.
  assert (_find_gripper_raycast_collisions env obs arm s = (Ok hits, s))
    as Hrays.
  { unfold _find_gripper_raycast_collisions. unfold_M.
    rewrite (resolve_arm_id env arm s Harm). simpl. by rewrite Hsp, Hep. }
  assert (candidates env obs arm s = (Ok (contacts ∩ hits), s)) as Hcand.
  { unfold candidates. rewrite Hmode. unfold_M. by rewrite Hrays. }
  pose proof (calculate_in_hand_object_select env obs arm s _ Harm Hcand)
    as Hsel.
  assert (∀ x s',
            _calculate_in_hand_object env obs arm s = (Ok (Some x), s') →
            x ∈ contacts ∩ hits
            ∧ ∃ data d rest,
                candidate_data env obs arm (contacts ∩ hits) s = (Ok data, s)
                ∧ sorted_by_dist data = (x, d) :: rest) as Hranked.
  { intros [b l] s' Hcalc. rewrite Hsel in Hcalc.
    destruct (select_nearest_inv env obs arm _ s s' b l Hcalc)
      as (data & d & rest & rc & Hdata & Hsort & _).
    destruct (nearest_is_candidate env obs arm _ _ _ _ _ _ _ _ Hdata Hsort)
      as (Hin & _).
    split; [done|]. by exists data, d, rest. }
  split; [done|]. split; [done|]. split; [|split; [done|]].
  - intros x. rewrite elem_of_intersection. subst contacts hits.
    pose proof (find_gripper_contacts_spec env obs arm) as Hspec.
    destruct (_find_gripper_contacts env obs arm) as [cd rcl].
    destruct Hspec as (H1 & _ & _). simpl.
    rewrite H1, elem_of_list_to_set, list_elem_of_filter.
    rewrite Is_true_true. tauto.
  - split; [|split; [done|split]].
    + intros data s' Hdata y.
      apply (elem_of_candidate_data env obs arm _ s s' data y Hdata).
    + intros x s' Hx Hcalc. destruct (Hranked x s' Hcalc) as [Hin _].
      apply elem_of_intersection in Hin as [_ Hin]. done.
    + intros Hdisj. rewrite Hsel.
      assert (contacts ∩ hits = ∅) as -> by set_solver.
      apply select_nearest_empty.
Qed.

Lemma assisted_candidates_intersection_witness :
  let s := {| ag := AG_init; world := Example.engine0 |} in
  let obs := Example.view (Example.both_fingers_touch 5) [(6, -1)] 0 in
  let far := Scenes.with_rays [(6, -1)] Scenes.two_bodies in
  ((_find_gripper_contacts (Example.robot assisted) obs "0").1 ≠ ∅
   ∧ _calculate_in_hand_object (Example.robot assisted) obs "0" s
     = (Ok None, s))
  ∧ ((5, -1) ∈ (_find_gripper_contacts (Example.robot assisted) far "0").1
     ∧ PrimFloat.ltb
         (candidate_dist (Example.robot assisted) far "0" (5, -1))
         (candidate_dist (Example.robot assisted) far "0" (6, -1)) = true
     ∧ _calculate_in_hand_object (Example.robot sticky) far "0" s
       = (Ok (Some (5, -1)), s)
     ∧ _calculate_in_hand_object (Example.robot assisted) far "0" s
       = (Ok (Some (6, -1)), s)
     ∧ _calculate_in_hand_object (Example.robot assisted) far "0" s
       ≠ (Ok (Some (5, -1)), s)).
Proof.
  intros s obs far. split.
  - destruct (assisted_candidates_intersection (Example.robot assisted) obs
                "0" s)
      as (_ & _ & _ & _ & _ & _ & _ & Hnone);
      [reflexivity|done|by eexists|by eexists|].
    split.
    + intros Hempty. apply (f_equal elements) in Hempty.
      vm_compute in Hempty. discriminate Hempty.
    + apply Hnone. apply (bool_decide_unpack _). vm_compute. exact I.
  - destruct (assisted_candidates_intersection (Example.robot assisted) far
                "0" s)
      as (_ & _ & _ & _ & _ & _ & Hmiss & _);
      [reflexivity|done|by eexists|by eexists|].
    split; [apply (bool_decide_unpack _); vm_compute; exact I|].
    split; [vm_compute; reflexivity|].
    split; [vm_compute; reflexivity|].
    split; [vm_compute; reflexivity|].
    apply Hmiss. apply (bool_decide_unpack _). vm_compute. exact I.
Defined.




(** ** The lifecycle invariants *)

(** C1, as the code has it: after every run, on every arm, the constraint
    handle is set exactly while the arm holds a body and is not in its
    release window: [_release_grasp] removes the constraint at once and
    keeps the held body until the window is over.  (No arm is named by the
    reserved word ["default"], see [on_arm].) *)
Theorem handle_iff_holding env inputs w arm :
  "default"%string ∉ arm_names env →
  arm ∈ arm_names env →
  ∃ a,
    ags (run env inputs (Robot_init (arm_names env) w)) !! arm = Some a
    ∧ (is_Some (_ag_obj_cid a)
       ↔ is_Some (_ag_obj_in_hand a) ∧ _ag_release_counter a = None)
    ∧ (is_Some (_ag_obj_cid a) → is_Some (_ag_obj_in_hand a))
    ∧ (Releasing a → _ag_obj_cid a = None).
Proof.
  intros _ Harm. destruct (run_arm env inputs w arm Harm) as (a & Ha & Hinv).
  exists a. split; [done|]. destruct Hinv as [Hcid _ _].
  unfold Holding, Releasing in *. split; [done|]. split; [tauto|].
  intros [_ [c Hc]]. destruct (_ag_obj_cid a) eqn:E; [|done].
  assert (_ag_release_counter a = None) by (apply Hcid; by eexists).
  congruence.
Qed.

Lemma handle_iff_holding_witness :
  ∃ a,
    ags (run (Example.robot sticky)
           [(Example.scene 5 0, Example.close)]
           (Robot_init (arm_names (Example.robot sticky)) Example.engine0))
      !! "0"%string = Some a
    ∧ (is_Some (_ag_obj_cid a)
       ↔ is_Some (_ag_obj_in_hand a) ∧ _ag_release_counter a = None).
Proof.
  destruct (handle_iff_holding (Example.robot sticky)
              [(Example.scene 5 0, Example.close)] Example.engine0 "0")
    as (a & Ha & Hiff & _).
  - vm_compute. intros H. inversion H as [|? ? ? H']. inversion H'.
  - by left.
  - exists a. split; [exact Ha|exact Hiff].
Defined.

(** C1 as stated fails: a close command that grasps body 5, then an open
    command; the arm still holds body 5 and has no handle. *)
Lemma handle_iff_held_counterexample :
  ∃ a,
    ags (run (Example.robot sticky)
           [(Example.scene 5 0, Example.close);
            (Example.scene 5 0, Example.open)]
           (Example.start sticky)) !! "0"%string = Some a
    ∧ _ag_obj_in_hand a = Some 5
    ∧ _ag_obj_cid a = None
    ∧ ¬ (is_Some (_ag_obj_cid a) ↔ is_Some (_ag_obj_in_hand a)).
Proof.
  exists (Example.releasing 5 0).
  split; [vm_compute; reflexivity|]. split; [done|]. split; [done|].
  simpl. intros [_ H]. destruct H as [? H]; [by eexists|discriminate H].
Qed.

(** C2, as the code has it: after every run, on every arm, the freeze flag
    is true exactly while the arm holds a body and is not in its release
    window; [_release_grasp] sets it to [False], so it is not true during
    the release window.  (No arm is named by the reserved word ["default"],
    see [on_arm].) *)
Theorem freeze_iff_holding env inputs w arm :
  "default"%string ∉ arm_names env →
  arm ∈ arm_names env →
  ∃ a,
    ags (run env inputs (Robot_init (arm_names env) w)) !! arm = Some a
    ∧ (truthy_bool (_ag_freeze_gripper a) = true ↔ Holding a)
    ∧ (Releasing a → truthy_bool (_ag_freeze_gripper a) = false).
Proof.
  intros _ Harm. destruct (run_arm env inputs w arm Harm) as (a & Ha & Hinv).
  exists a. split; [done|]. destruct Hinv as [_ Hfreeze _].
  assert (truthy_bool (_ag_freeze_gripper a) = true
          ↔ _ag_freeze_gripper a = Some true) as Htruthy.
  { destruct (_ag_freeze_gripper a) as [[|]|]; simpl; split; congruence. }
  split; [by rewrite Htruthy|].
  intros [_ [c Hc]]. apply not_true_is_false. rewrite Htruthy, Hfreeze.
  intros [_ Hnone]. congruence.
Qed.

Lemma freeze_iff_holding_witness :
  ∃ a,
    ags (run (Example.robot assisted)
           [(Example.scene 5 0, Example.close)]
           (Robot_init (arm_names (Example.robot assisted)) Example.engine0))
      !! "0"%string = Some a
    ∧ (truthy_bool (_ag_freeze_gripper a) = true ↔ Holding a).
Proof.
  destruct (freeze_iff_holding (Example.robot assisted)
              [(Example.scene 5 0, Example.close)] Example.engine0 "0")
    as (a & Ha & Hiff & _).
  - vm_compute. intros H. inversion H as [|? ? ? H']. inversion H'.
  - by left.
  - exists a. split; [exact Ha|exact Hiff].
Defined.

(** C2 as stated fails: the arm holds body 5 and the engine reports the
    violation 0.15; the step starts the release, after which the body is
    still held and the freeze flag is [False]. *)
Lemma freeze_while_held_counterexample :
  ∃ a,
    ags (run (Example.robot assisted)
           [(Example.scene 5 0, Example.close);
            (Example.scene 5 0.15, Example.close)]
           (Example.start assisted)) !! "0"%string = Some a
    ∧ Releasing a
    ∧ _ag_freeze_gripper a = Some false
    ∧ ¬ (is_Some (_ag_obj_in_hand a) → truthy_bool (_ag_freeze_gripper a) = true).
Proof.
  exists (Example.releasing 5 0).
  split; [vm_compute; reflexivity|].
  split; [split; by eexists|]. split; [done|].
  simpl. intros H. discriminate H. by eexists.
Qed.

(** ** Snapshot and restore *)

(** C9 on an arm that holds body 5: [_establish_grasp] stored the frozen
    finger positions under the joint names, and [load_state] converts every
    key with [int]: the restore of the snapshot raises [ValueError] after it
    removed the attachment and re-enabled the collisions, and before it
    created the new attachment.  No attachment is left, and the fingers
    collide with the held body again. *)
Lemma snapshot_restore_raises :
  let env := Example.robot sticky in
  let obs := Example.scene 5 0 in
  let r := run env [(obs, Example.close)] (Example.start sticky) in
  (∃ a c,
     ags r !! "0"%string = Some a ∧ Holding a
     ∧ _ag_freeze_joint_pos a
       = [(inl "l_finger_joint"%string, 0.02%float);
          (inl "r_finger_joint"%string, 0.02%float)]
     ∧ _ag_obj_cid a = Some 1
     ∧ constraints (rworld r) !! 1 = Some c
     ∧ c_jointType c = JOINT_FIXED ∧ c_maxForce c = Some 500%float
     ∧ collision_filter (rworld r) !! (1, 5, 8, -1) = Some false)
  ∧ int_of_str "l_finger_joint" = None
  ∧ ∃ dump r1 r2,
      dump_state env obs r = (Ok dump, r1)
      ∧ load_state env obs dump r1 = (Raise ValueError, r2)
      ∧ constraints (rworld r2) = ∅
      ∧ collision_filter (rworld r2) !! (1, 5, 8, -1) = Some true
      ∧ collision_filter (rworld r2) !! (1, 5, 9, -1) = Some true.
Proof.
  intros env obs r. split; [|split].
  - eexists _, _. split; [vm_compute; reflexivity|].
    split; [split; [by eexists|done]|].
    split; [done|]. split; [done|].
    split; [vm_compute; reflexivity|].
    split; [done|]. split; [done|]. vm_compute. reflexivity.
  - vm_compute. reflexivity.
  - pose (dump := Example.returned {| ManipulationRobot := None |}
                     (dump_state env obs r).1).
    exists dump, (dump_state env obs r).2,
      (load_state env obs dump (dump_state env obs r).2).2.
    split; [vm_compute; reflexivity|].
    split; [vm_compute; reflexivity|].
    split; [vm_compute; reflexivity|].
    split; vm_compute; reflexivity.
Qed.

(** The same round trip on a robot whose finger joints are named ["8"] and
    ["9"]: the keys convert, the restore returns, and the new attachment has
    the kind and the force of the old one, with the collisions disabled. *)
Lemma snapshot_restore_numeric_joint_names :
  let env := Example.robot_named sticky (Some TypeError) [1] "8" "9" in
  let obs := Example.scene 5 0 in
  let r := run env [(obs, Example.close)] (Example.start sticky) in
  ∃ dump r1 r2 a c,
    dump_state env obs r = (Ok dump, r1)
    ∧ load_state env obs dump r1 = (Ok tt, r2)
    ∧ ags r2 !! "0"%string = Some a
    ∧ Holding a
    ∧ _ag_obj_cid a = Some 2
    ∧ _ag_freeze_joint_pos a = [(inr 8, 0.02%float); (inr 9, 0.02%float)]
    ∧ constraints (rworld r2) !! 2 = Some c
    ∧ c_jointType c = JOINT_FIXED ∧ c_maxForce c = Some 500%float
    ∧ collision_filter (rworld r2) !! (1, 5, 8, -1) = Some false
    ∧ collision_filter (rworld r2) !! (1, 5, 9, -1) = Some false.
Proof.
  intros env obs r.
  pose (dump := Example.returned {| ManipulationRobot := None |}
                  (dump_state env obs r).1).
  exists dump, (dump_state env obs r).2,
    (load_state env obs dump (dump_state env obs r).2).2.
  eexists _, _. split; [vm_compute; reflexivity|].
  split; [vm_compute; reflexivity|].
  split; [vm_compute; reflexivity|].
  split; [split; [by eexists|done]|].
  split; [done|]. split; [done|].
  split; [vm_compute; reflexivity|].
  split; [done|]. split; [done|]. split; vm_compute; reflexivity.
Qed.


(** * Further properties of the methods *)

(** ** The order of the distances *)

Section FloatOrder.

Lemma SFltb_key x y :
  x ≠ S754_nan → y ≠ S754_nan →
  SFltb x y = true ↔ key_lt (sf_key x) (sf_key y).
Proof.
  intros Hx Hy. unfold SFltb, SFcompare, key_lt.
  destruct x as [[|]| [|] | | [|] m1 e1], y as [[|]| [|] | | [|] m2 e2];
    try congruence; simpl;
    try (split; [discriminate|lia]);
    try (split; [intros _; lia|reflexivity]).
  - destruct (Z.compare_spec e1 e2); rewrite ?Pos.compare_cont_spec; simpl.
    + destruct (Pos.compare_spec m1 m2); simpl; split;
        try discriminate; try lia; try reflexivity.
    + split; [discriminate|lia].
    + split; [intros _; lia|reflexivity].
  - destruct (Z.compare_spec e1 e2); rewrite ?Pos.compare_cont_spec; simpl.
    + destruct (Pos.compare_spec m1 m2); simpl; split;
        try discriminate; try lia; try reflexivity.
    + split; [intros _; lia|reflexivity].
    + split; [discriminate|lia].
Qed.

Lemma is_nan_Prim2SF x : PrimFloat.is_nan x = false → Prim2SF x ≠ S754_nan.
Proof.
  unfold PrimFloat.is_nan. rewrite FloatAxioms.eqb_spec. intros H Hn.
  rewrite Hn in H. discriminate H.
Qed.

Lemma ltb_true_not_nan x y :
  (x <? y)%float = true → Prim2SF x ≠ S754_nan ∧ Prim2SF y ≠ S754_nan.
Proof.
  rewrite FloatAxioms.ltb_spec. intros H. split; intros Hn; rewrite Hn in H.
  - discriminate H.
  - by destruct (Prim2SF x) as [| | |[]].
Qed.

Lemma ltb_asym x y : (x <? y)%float = true → (y <? x)%float = false.
Proof.
  intros H. destruct (ltb_true_not_nan _ _ H) as [Hx Hy].
  apply not_true_is_false. intros H'. rewrite FloatAxioms.ltb_spec in H, H'.
  apply SFltb_key in H; [|done..]. apply SFltb_key in H'; [|done..].
  unfold key_lt in *. lia.
Qed.

(** On numbers that are no NaN, what is not below is above or equal, and
    stays so along [<]. *)
Lemma ltb_negtrans x y z :
  PrimFloat.is_nan y = false →
  (x <? z)%float = true → (x <? y)%float = true ∨ (y <? z)%float = true.
Proof.
  intros Hy H. destruct (ltb_true_not_nan _ _ H) as [Hx Hz].
  apply is_nan_Prim2SF in Hy. rewrite FloatAxioms.ltb_spec in H.
  apply SFltb_key in H; [|done..].
  assert (key_lt (sf_key (Prim2SF x)) (sf_key (Prim2SF y))
          ∨ key_lt (sf_key (Prim2SF y)) (sf_key (Prim2SF z))) as [Hk|Hk]
    by (unfold key_lt in *; lia).
  - left. rewrite FloatAxioms.ltb_spec. by apply SFltb_key.
  - right. rewrite FloatAxioms.ltb_spec. by apply SFltb_key.
Qed.

End FloatOrder.

(** ** Collision filters *)

Section CollisionFilter.

Variable obs : Obs.

Lemma set_pairs_joint_targets e ps w :
  joint_targets (set_pairs e ps w) = joint_targets w.
Proof.
  revert w. induction ps as [|[[[a b] la] lb] ps IH]; intros w; [done|].
  simpl. by rewrite IH.
Qed.

Lemma elem_of_coll_pairs_inv target links k :
  k ∈ coll_pairs obs target links →
  ∃ link idx, link ∈ links
    ∧ (idx = -1 ∨ 0 ≤ idx < getNumJoints obs target)
    ∧ k = (body_id link, target, link_id link, idx).
Proof.
  unfold coll_pairs. intros Hk.
  apply list_elem_of_bind in Hk as (link & Hk & Hl).
  apply list_elem_of_fmap in Hk as (idx & -> & Hi).
  exists link, idx. split; [done|]. split; [|done].
  apply elem_of_cons in Hi as [->|Hi]; [by left|right].
  apply elem_of_seqZ in Hi. lia.
Qed.

(** X1: [set_coll_filter] on a body returns; it sets the flag for every
    source link against the base (-1) and every joint link of the body,
    [len(links) * (1 + joints)] pairs in all, leaves every other pair, the
    constraints and the joint targets as they were, and does not touch the
    fields of the arm. *)
Theorem set_coll_filter_effect target links enable s :
  ∃ s',
    set_coll_filter obs (Some target) links enable s = (Ok tt, s')
    ∧ ag s' = ag s
    ∧ constraints (world s') = constraints (world s)
    ∧ next_constraint (world s') = next_constraint (world s)
    ∧ joint_targets (world s') = joint_targets (world s)
    ∧ (∀ link idx,
         link ∈ links →
         idx = -1 ∨ 0 ≤ idx < getNumJoints obs target →
         collision_filter (world s') !! (body_id link, target, link_id link, idx)
         = Some enable)
    ∧ (∀ k,
         (∀ link idx, link ∈ links → k ≠ (body_id link, target, link_id link, idx)) →
         collision_filter (world s') !! k = collision_filter (world s) !! k)
    ∧ length (coll_pairs obs target links)
      = (length links * S (Z.to_nat (getNumJoints obs target)))%nat.
Proof.
  eexists. split; [apply set_coll_filter_eq|]. simpl.
  split; [done|]. split; [apply set_pairs_constraints|].
  split; [apply set_pairs_next_constraint|].
  split; [apply set_pairs_joint_targets|]. split; [|split].
  - intros link idx Hl Hi. apply set_pairs_lookup, elem_of_coll_pairs; [done|].
    destruct Hi as [->|Hi]; [by left|right]. apply elem_of_seqZ. lia.
  - intros k Hk. apply set_pairs_lookup_ne. intros Hin.
    apply elem_of_coll_pairs_inv in Hin as (link & idx & Hl & _ & ->).
    by apply (Hk link idx).
  - unfold coll_pairs. induction links as [|link links IH]; [done|].
    rewrite bind_cons, length_app, IH, length_fmap. simpl.
    rewrite length_seqZ. lia.
Qed.

(** X2: enabling after disabling (and the other way round) leaves every
    touched pair at the flag of the second call, whatever the joint count
    the engine reported in between: what [_establish_grasp] disables,
    [_handle_release_window] enables again. *)
Theorem set_coll_filter_twice target links e1 e2 s :
  ∃ s1 s2,
    set_coll_filter obs (Some target) links e1 s = (Ok tt, s1)
    ∧ set_coll_filter obs (Some target) links e2 s1 = (Ok tt, s2)
    ∧ set_coll_filter obs (Some target) links e2 s = (Ok tt, s2)
    ∧ ∀ k, k ∈ coll_pairs obs target links →
           collision_filter (world s1) !! k = Some e1
           ∧ collision_filter (world s2) !! k = Some e2.
Proof.
  eexists _, _. split; [apply set_coll_filter_eq|].
  split; [apply set_coll_filter_eq|]. simpl. split.
  - rewrite set_coll_filter_eq. f_equal. f_equal.
    set (ps := coll_pairs obs target links).
    destruct (world s) as [cs n cf jt] eqn:Hw.
    assert (∀ e w, set_pairs e ps w
                   = {| constraints := constraints w;
                        next_constraint := next_constraint w;
                        collision_filter := collision_filter (set_pairs e ps w);
                        joint_targets := joint_targets w |}) as Heta.
    { intros e w.
      rewrite <- (set_pairs_constraints e ps w),
        <- (set_pairs_next_constraint e ps w),
        <- (set_pairs_joint_targets e ps w).
      by destruct (set_pairs e ps w). }
    rewrite (Heta e2 (set_pairs e1 ps _)), (Heta e2 {| constraints := cs |}).
    rewrite set_pairs_constraints, set_pairs_next_constraint,
      set_pairs_joint_targets. f_equal.
    apply map_eq. intros k. destruct (decide (k ∈ ps)) as [Hin|Hnin].
    + by rewrite !set_pairs_lookup.
    + by rewrite !set_pairs_lookup_ne.
  - intros k Hk. split; by apply set_pairs_lookup.
Qed.

End CollisionFilter.

(** ** Contacts and rays *)

Section ContactsAndRays.

Variable env : Env.
Variable obs : Obs.

(** X3: the contact set of [_find_gripper_contacts] never holds the id -1
    or the body of the arm's end effector; the keys of the dictionary of
    robot links are exactly the contact set, and every key has a non-empty
    set of links, each the link of a contact of a finger with that key. *)
Theorem find_gripper_contacts_sound arm :
  let contact_data := (_find_gripper_contacts env obs arm).1 in
  let robot_contact_links := (_find_gripper_contacts env obs arm).2 in
  (∀ x, x ∈ contact_data ↔ is_Some (robot_contact_links !! x))
  ∧ (∀ x, x ∈ contact_data →
          x.1 ≠ -1 ∧ x.1 ≠ body_id (eef_links env arm))
  ∧ (∀ x links,
       robot_contact_links !! x = Some links →
       links ≠ ∅
       ∧ ∀ l, l ∈ links →
              ∃ con_res, con_res ∈ con_results env obs arm
                         ∧ linkIndexA con_res = l
                         ∧ (bodyUniqueIdB con_res, linkIndexB con_res) = x).
Proof.
  intros contact_data robot_contact_links.
  pose proof (find_gripper_contacts_spec env obs arm) as Hspec.
  subst contact_data robot_contact_links.
  destruct (_find_gripper_contacts env obs arm) as [cd rcl].
  destruct Hspec as (H1 & H2 & H3). simpl.
  split; [done|]. split.
  - intros x Hx. apply H1 in Hx as (c & _ & Hself & ->). simpl.
    unfold not_self in Hself. apply negb_true_iff, orb_false_iff in Hself.
    destruct Hself as [Ha Hb]. split; by apply Z.eqb_neq.
  - intros x links Hl. split.
    + assert (x ∈ cd) as Hx by (apply H2; by eexists).
      apply H1 in Hx as (c & Hc). intros ->.
      assert (linkIndexA c ∈ (∅ : gset Z)) as Hin; [|set_solver].
      apply (H3 _ _ _ Hl). by exists c.
    + intros l Hin. apply (H3 _ _ _ Hl) in Hin as (c & (? & ? & ->) & ->).
      by exists c.
Qed.

Lemma zip_product {A B} (starts : list A) (ends : list B) :
  zip (mjoin (replicate (length ends) starts))
      (endpoint ← ends; replicate (length starts) endpoint)
  = (endpoint ← ends; startpoint ← starts; [(startpoint, endpoint)]).
Proof.
  induction ends as [|e ends IH]; [done|].
  simpl length. rewrite replicate_S, !bind_cons.
  change (mjoin (starts :: replicate (length ends) starts))
    with (starts ++ mjoin (replicate (length ends) starts)).
  etrans; [apply zip_with_app; by rewrite length_replicate|].
  f_equal; [|apply IH]. clear IH.
  induction starts as [|x starts IH]; [done|]. simpl. by rewrite IH.
Qed.

(** X4: the rays that [_find_gripper_raycast_collisions] casts go from every
    start point to every end point, each pair once, [n_start * n_end] rays;
    the batch is cast twice, with the hit numbers 0 and 1, and the results of
    both are kept. *)
Theorem ray_results_product arm :
  ∃ raycast_startpoints raycast_endpoints,
    ray_results env obs arm
    = rayTestBatch obs raycast_startpoints raycast_endpoints 0
      ++ rayTestBatch obs raycast_startpoints raycast_endpoints 1
    ∧ zip raycast_startpoints raycast_endpoints = ray_segments env obs arm
    ∧ length raycast_startpoints
      = (length (grasp_startpoints env obs arm)
         * length (grasp_endpoints env obs arm))%nat
    ∧ length raycast_endpoints = length raycast_startpoints.
Proof.
  eexists _, _. split.
  { unfold ray_results. simpl. by rewrite app_nil_r. }
  fold (grasp_startpoints env obs arm). fold (grasp_endpoints env obs arm).
  split; [apply zip_product|].
  generalize (grasp_startpoints env obs arm) as starts.
  generalize (grasp_endpoints env obs arm) as ends.
  intros ends starts.
  assert (length (mjoin (replicate (length ends) starts))
          = (length starts * length ends)%nat) as Hs.
  { induction ends as [|e ends IH]; simpl; [lia|].
    rewrite length_app, IH. lia. }
  split; [done|]. rewrite Hs. clear Hs.
  induction ends as [|e ends IH]; [simpl; lia|].
  rewrite bind_cons, length_app, length_replicate, IH. simpl. lia.
Qed.

Lemma raycast_collisions_hits arm (s s' : ArmState) hits :
  arm ≠ "default"%string →
  _find_gripper_raycast_collisions env obs arm s = (Ok hits, s') →
  ∀ x, x ∈ hits →
       x ∈ ray_results env obs arm ∧ not_self env arm x.1 = true.
Proof.
  intros Harm. unfold _find_gripper_raycast_collisions. unfold_M.
  rewrite (resolve_arm_id env arm s Harm). simpl.
  destruct (assisted_grasp_start_points env arm); [|done].
  destruct (assisted_grasp_end_points env arm); [|done]. simpl.
  intros [= <- <-] x Hx.
  apply elem_of_list_to_set, list_elem_of_filter in Hx as [Hself Hx].
  split; [done|]. by apply Is_true_true in Hself.
Qed.

(** X5: the ray hits that are kept never hold the id -1 or the body of the
    arm's end effector, and without start points or without end points (the
    default of [assisted_grasp_start_points] and
    [assisted_grasp_end_points]) the method raises an [AssertionError]; so
    does the selection of a candidate in the assisted mode.  Nothing is
    changed. *)
Theorem raycast_collisions_edges arm (s : ArmState) :
  arm ≠ "default"%string →
  (∀ hits s', _find_gripper_raycast_collisions env obs arm s = (Ok hits, s') →
              ∀ x, x ∈ hits →
                   x ∈ ray_results env obs arm
                   ∧ x.1 ≠ -1 ∧ x.1 ≠ body_id (eef_links env arm))
  ∧ (assisted_grasp_start_points env arm = None
     ∨ assisted_grasp_end_points env arm = None →
     _find_gripper_raycast_collisions env obs arm s = (Raise AssertionError, s)
     ∧ (grasping_mode env = assisted →
        _calculate_in_hand_object env obs arm s = (Raise AssertionError, s))).
Proof.
  intros Harm. split.
  - intros hits s' Hrays x Hx.
    destruct (raycast_collisions_hits arm s s' hits Harm Hrays x Hx)
      as [Hin Hself].
    split; [done|]. unfold not_self in Hself.
    apply negb_true_iff, orb_false_iff in Hself.
    destruct Hself as [Ha Hb]. split; by apply Z.eqb_neq.
  - intros Hnone.
    assert (_find_gripper_raycast_collisions env obs arm s
            = (Raise AssertionError, s)) as Hrays.
    { unfold _find_gripper_raycast_collisions. unfold_M.
      rewrite (resolve_arm_id env arm s Harm). simpl.
      destruct Hnone as [-> | ->]; [done|].
      by destruct (assisted_grasp_start_points env arm). }
    split; [done|]. intros Hmode.
    unfold _calculate_in_hand_object, candidates. unfold_M.
    rewrite (resolve_arm_id env arm s Harm), Hmode. simpl. by rewrite Hrays.
Qed.

End ContactsAndRays.

Lemma raycast_collisions_edges_witness :
  let s := {| ag := AG_init; world := Example.engine0 |} in
  let obs := Example.scene 5 0 in
  (∀ x, x ∈ ({[ (5, -1) ]} : gset (Z * Z)) → x.1 ≠ -1 ∧ x.1 ≠ 1)
  ∧ _find_gripper_raycast_collisions (Example.robot assisted) obs "0" s
    = (Ok {[ (5, -1) ]}, s).
Proof.
  intros s obs.
  assert (_find_gripper_raycast_collisions (Example.robot assisted) obs "0" s
          = (Ok {[ (5, -1) ]}, s)) as Hrays by (vm_compute; reflexivity).
  split; [|exact Hrays].
  intros x Hx.
  destruct (raycast_collisions_edges (Example.robot assisted) obs "0" s)
    as [Hhits _]; [done|].
  destruct (Hhits _ _ Hrays x Hx) as (_ & Ha & Hb). by split.
Defined.

(** ** What the selection returns *)

Section SelectionResult.

Variable env : Env.
Variable obs : Obs.

(** X6: the selection of a candidate only reads: whatever it returns or
    raises, the fields of the arm and the engine are as before; in the
    physical mode it raises a [ValueError]. *)
Theorem calculate_in_hand_object_reads_only arm s :
  (_calculate_in_hand_object env obs arm s).2 = s
  ∧ (grasping_mode env = physical →
     (arm = "default"%string → arm_names env ≠ []) →
     _calculate_in_hand_object env obs arm s = (Raise ValueError, s)).
Proof.
  split; [apply reads_only_calculate|].
  intros Hmode Harm. unfold _calculate_in_hand_object, candidates. unfold_M.
  destruct (resolve_arm_ok env arm s Harm) as [arm' ->]. simpl.
  by rewrite Hmode.
Qed.

Lemma two_elements (X : gset Z) :
  (2 ≤ size X)%nat → ∃ x y, x ∈ X ∧ y ∈ X ∧ x ≠ y.
Proof.
  intros Hsize.
  destruct (size_pos_elem_of X) as [x Hx]; [lia|].
  destruct (size_pos_elem_of (X ∖ {[ x ]})) as [y Hy].
  { rewrite size_difference by set_solver. rewrite size_singleton. lia. }
  exists x, y. set_solver.
Qed.

(** What the selection went through when it returns a candidate. *)
Lemma calculate_in_hand_object_inv arm s s' b l :
  arm ≠ "default"%string →
  _calculate_in_hand_object env obs arm s = (Ok (Some (b, l)), s') →
  ∃ cs data d rest robot_contacts,
    candidates env obs arm s = (Ok cs, s)
    ∧ candidate_data env obs arm cs s = (Ok data, s)
    ∧ sorted_by_dist data = (b, l, d) :: rest
    ∧ (b ∉ get_body_ids env)
    ∧ (_find_gripper_contacts env obs arm).2 !! (b, l) = Some robot_contacts
    ∧ can_assisted_grasp obs b l = true
    ∧ (2 ≤ size (touching_fingers env arm robot_contacts))%nat.
Proof.
  intros Harm Hcalc.
  pose proof (reads_only_candidates env obs arm s) as Hr.
  destruct (candidates env obs arm s) as [[cs|e] s1] eqn:Hcand; simpl in Hr;
    subst s1.
  - rewrite (calculate_in_hand_object_select env obs arm s cs Harm Hcand)
      in Hcalc.
    destruct (select_nearest_inv env obs arm cs s s' b l Hcalc)
      as (data & d & rest & rc & H).
    by exists cs, data, d, rest, rc.
  - unfold _calculate_in_hand_object in Hcalc. unfold_M.
    rewrite (resolve_arm_id env arm s Harm) in Hcalc. simpl in Hcalc.
    by rewrite Hcand in Hcalc.
Qed.

(** X7: a candidate that the selection returns is no body of the robot and
    not the id -1, the simulator allows to grasp it, two contacts of two
    different finger links of the arm touch it, and in the assisted mode a
    ray hit it; the state is as before. *)
Theorem calculate_in_hand_object_sound arm s s' b l :
  arm ≠ "default"%string →
  _calculate_in_hand_object env obs arm s = (Ok (Some (b, l)), s') →
  s' = s
  ∧ grasping_mode env ≠ physical
  ∧ b ≠ -1 ∧ b ≠ body_id (eef_links env arm) ∧ (b ∉ get_body_ids env)
  ∧ can_assisted_grasp obs b l = true
  ∧ (∃ c1 c2,
       touches env obs arm (b, l) c1 ∧ touches env obs arm (b, l) c2
       ∧ linkIndexA c1 ≠ linkIndexA c2
       ∧ linkIndexA c1 ∈ finger_link_ids env arm
       ∧ linkIndexA c2 ∈ finger_link_ids env arm)
  ∧ (grasping_mode env = assisted → (b, l) ∈ ray_results env obs arm).
Proof.
  intros Harm Hcalc.
  pose proof (reads_only_calculate env obs arm s) as Hs.
  rewrite Hcalc in Hs. simpl in Hs. subst s'. split; [done|].
  destruct (calculate_in_hand_object_inv _ _ _ _ _ Harm Hcalc)
    as (cs & data & d & rest & rc & Hcand & Hdata & Hsort & Hbody & Hrc
        & Hcan & Htwo).
  destruct (nearest_is_candidate env obs arm cs _ _ _ _ _ _ _ Hdata Hsort)
    as (Hin & _).
  pose proof (candidates_subseteq env obs arm s s cs Hcand) as Hsub.
  pose proof (find_gripper_contacts_spec env obs arm) as Hspec.
  destruct (_find_gripper_contacts env obs arm) as [cd rcl] eqn:Hfind.
  destruct Hspec as (H1 & H2 & H3). simpl in *.
  assert ((b, l) ∈ cd) as Hcd by set_solver.
  split.
  { intros Hmode. unfold candidates in Hcand. by rewrite Hmode in Hcand. }
  destruct (proj1 (H1 _) Hcd) as (c & _ & Hself & [= -> ->]).
  unfold not_self in Hself. apply negb_true_iff, orb_false_iff in Hself.
  destruct Hself as [Ha Hb].
  split; [by apply Z.eqb_neq|]. split; [by apply Z.eqb_neq|].
  split; [done|]. split; [done|]. split.
  - destruct (two_elements _ Htwo) as (x & y & Hx & Hy & Hne).
    unfold touching_fingers in Hx, Hy.
    apply elem_of_intersection in Hx as [Hxf Hx].
    apply elem_of_intersection in Hy as [Hyf Hy].
    apply (H3 _ _ _ Hrc) in Hx as (c1 & Hc1 & ->).
    apply (H3 _ _ _ Hrc) in Hy as (c2 & Hc2 & ->).
    exists c1, c2. rewrite elem_of_list_to_set in Hxf, Hyf. done.
  - intros Hmode. unfold candidates in Hcand. rewrite Hmode in Hcand.
    unfold_M.
    destruct (_find_gripper_raycast_collisions env obs arm s)
      as [[hits|e] s1] eqn:Hrays; [|done].
    injection Hcand as <- Hs1.
    apply (raycast_collisions_hits env obs arm s s1 hits Harm Hrays).
    set_solver.
Qed.

Lemma head_sorted_by_dist_min l x rest :
  (∀ y, y ∈ l → PrimFloat.is_nan y.2 = false) →
  sorted_by_dist l = x :: rest →
  ∀ y, y ∈ l → (y.2 <? x.2)%float = false.
Proof.
  revert x rest. induction l as [|z l IH]; intros x rest Hnan Hsort y Hy.
  { by apply elem_of_nil in Hy. }
  unfold sorted_by_dist in Hsort. simpl in Hsort.
  fold (sorted_by_dist l) in Hsort.
  destruct (sorted_by_dist l) as [|h rest'] eqn:Hl.
  - simpl in Hsort. injection Hsort as <- <-.
    assert (l = []) as ->.
    { destruct l as [|w l]; [done|].
      assert (w ∈ sorted_by_dist (w :: l)) as Hw
        by (apply elem_of_sorted_by_dist; by left).
      rewrite Hl in Hw. by apply elem_of_nil in Hw. }
    apply list_elem_of_singleton in Hy as ->.
    destruct (z.2 <? z.2)%float eqn:E; [|done].
    by rewrite (ltb_asym _ _ E) in E.
  - specialize (IH h rest' (λ w Hw, Hnan w (list_elem_of_further _ _ _ Hw))
                  eq_refl).
    simpl in Hsort. destruct (h.2 <? z.2)%float eqn:Hhz.
    + injection Hsort as <- <-.
      apply elem_of_cons in Hy as [->|Hy]; [by apply ltb_asym|by apply IH].
    + injection Hsort as <- <-.
      apply elem_of_cons in Hy as [->|Hy].
      * destruct (z.2 <? z.2)%float eqn:E; [|done].
        by rewrite (ltb_asym _ _ E) in E.
      * destruct (y.2 <? z.2)%float eqn:E; [|done].
        assert (h ∈ l) as Hh.
        { apply elem_of_sorted_by_dist. rewrite Hl. by left. }
        destruct (ltb_negtrans y.2 h.2 z.2) as [H1|H1];
          [apply Hnan; by right|done| |congruence].
        by rewrite (IH y Hy) in H1.
Qed.

(** X8: the candidate that the selection returns is a nearest one: when no
    distance is a NaN, no candidate of the set that was ranked is closer to
    the gripper center. *)
Theorem calculate_in_hand_object_nearest arm s s' cs b l :
  arm ≠ "default"%string →
  candidates env obs arm s = (Ok cs, s) →
  (∀ x, x ∈ cs → PrimFloat.is_nan (candidate_dist env obs arm x) = false) →
  _calculate_in_hand_object env obs arm s = (Ok (Some (b, l)), s') →
  (b, l) ∈ cs
  ∧ ∀ x, x ∈ cs →
         (candidate_dist env obs arm x <? candidate_dist env obs arm (b, l))%float
         = false.
Proof.
  intros Harm Hcand Hnan Hcalc.
  destruct (calculate_in_hand_object_inv _ _ _ _ _ Harm Hcalc)
    as (cs' & data & d & rest & rc & Hcand' & Hdata & Hsort & _).
  rewrite Hcand in Hcand'. injection Hcand' as <-.
  destruct (nearest_is_candidate env obs arm cs _ _ _ _ _ _ _ Hdata Hsort)
    as (Hin & _ & Hd).
  split; [done|]. intros x Hx.
  pose proof (elem_of_candidate_data env obs arm cs s s data) as Hmem.
  assert ((x, candidate_dist env obs arm x) ∈ data) as Hxd
    by (by apply Hmem).
  pose proof (head_sorted_by_dist_min data _ _
                (λ y Hy, eq_ind_r (λ f, PrimFloat.is_nan f = false)
                           (Hnan _ (proj1 (proj1 (Hmem y Hdata) Hy)))
                           (proj2 (proj1 (Hmem y Hdata) Hy)))
                Hsort _ Hxd) as Hmin.
  simpl in Hmin. by rewrite Hd in Hmin.
Qed.

End SelectionResult.

Lemma calculate_in_hand_object_sound_witness :
  let s := {| ag := AG_init; world := Example.engine0 |} in
  _calculate_in_hand_object (Example.robot assisted) Scenes.two_bodies "0" s
  = (Ok (Some (5, -1)), s)
  ∧ can_assisted_grasp Scenes.two_bodies 5 (-1) = true
  ∧ (5, -1) ∈ ray_results (Example.robot assisted) Scenes.two_bodies "0".
Proof.
  intros s.
  assert (_calculate_in_hand_object (Example.robot assisted)
            Scenes.two_bodies "0" s = (Ok (Some (5, -1)), s)) as Hcalc
    by (vm_compute; reflexivity).
  destruct (calculate_in_hand_object_sound (Example.robot assisted)
              Scenes.two_bodies "0" s s 5 (-1))
    as (_ & _ & _ & _ & _ & Hcan & _ & Hray); [done|exact Hcalc|].
  split; [exact Hcalc|]. split; [exact Hcan|]. by apply Hray.
Defined.

Lemma calculate_in_hand_object_nearest_witness :
  let s := {| ag := AG_init; world := Example.engine0 |} in
  let env := Example.robot sticky in
  PrimFloat.ltb (candidate_dist env Scenes.two_bodies "0" (6, -1))
                (candidate_dist env Scenes.two_bodies "0" (5, -1)) = false
  ∧ PrimFloat.ltb (candidate_dist env Scenes.two_bodies "0" (5, -1))
                  (candidate_dist env Scenes.two_bodies "0" (6, -1)) = true.
Proof.
  intros s env.
  destruct (calculate_in_hand_object_nearest env Scenes.two_bodies "0" s s
              {[ (5, -1); (6, -1) ]} 5 (-1)) as [_ Hmin].
  - done.
  - vm_compute. reflexivity.
  - intros x Hx. apply elem_of_union in Hx as [Hx|Hx];
      apply elem_of_singleton in Hx as ->; vm_compute; reflexivity.
  - vm_compute. reflexivity.
  - split; [|vm_compute; reflexivity].
    apply Hmin. apply elem_of_union_r. by apply elem_of_singleton.
Defined.

(** ** The transitions of the lifecycle *)

Section Transitions.

Variable env : Env.
Variable obs : Obs.

(** A candidate that was selected has a contact position: the assertion of
    [_establish_grasp] holds for what [_calculate_in_hand_object] returns on
    the same contacts. *)
Lemma find_contact_pos_selected choice arm x :
  x ∈ (_find_gripper_contacts env obs arm).1 →
  ∃ c, touches env obs arm x c
       ∧ find_contact_pos choice x
           (_find_gripper_contacts_positions env obs arm)
         = Some (positionOnA c).
Proof.
  intros Hx.
  pose proof (find_gripper_contacts_spec env obs arm) as Hspec.
  destruct (_find_gripper_contacts env obs arm) as [cd rcl].
  destruct Hspec as (H1 & _ & _). simpl in Hx.
  apply H1 in Hx as (c0 & Hc0 & Hself0 & ->).
  unfold find_contact_pos, _find_gripper_contacts_positions.
  set (P := λ c : Z * Z * vec3, c.1 = (bodyUniqueIdB c0, linkIndexB c0)).
  set (f := λ con_res, (bodyUniqueIdB con_res, linkIndexB con_res,
                        positionOnA con_res)).
  set (l := filter (λ con_res, not_self env arm (bodyUniqueIdB con_res))
                   (con_results env obs arm)).
  cbv zeta.
  assert (f c0 ∈ filter P (f <$> l)) as Hin.
  { apply list_elem_of_filter. split; [done|].
    apply list_elem_of_fmap_2, list_elem_of_filter.
    split; [by apply Is_true_true|done]. }
  assert (length (filter P (f <$> l)) ≠ 0%nat) as Hlen.
  { intros Hz. apply nil_length_inv in Hz. rewrite Hz in Hin.
    by apply elem_of_nil in Hin. }
  destruct (lookup_lt_is_Some_2 (filter P (f <$> l))
              (choice mod length (filter P (f <$> l)))) as [y Hy].
  { by apply Nat.mod_upper_bound. }
  rewrite Hy. simpl.
  apply list_elem_of_lookup_2, list_elem_of_filter in Hy as [HP Hy].
  apply list_elem_of_fmap in Hy as (c & -> & Hc).
  apply list_elem_of_filter in Hc as [Hself Hc].
  exists c. split; [|done]. split; [done|].
  split; [by apply Is_true_true|]. by rewrite <- HP.
Qed.

(** X9: an arm that holds nothing, a close command and a candidate: the
    step returns with the arm holding the body of the candidate; a fresh
    constraint from the end effector to the candidate link, of the kind and
    force of [_establish_grasp], is in the engine under the new handle, the
    other constraints are as before, the collisions of every finger link
    with every link of the body are disabled, and the positions of the
    finger joints are stored.  The assertion on the contact position cannot
    fail. *)
Theorem idle_close_grasps arm action s ctl mt tol cmd b l :
  arm ≠ "default"%string →
  gripper_controller obs arm = ParallelJawGripperController "binary" ctl mt tol →
  action !! controller_action_idx env arm = Some cmd →
  (cmd <? 0)%float = true →
  truthy_int (_ag_obj_in_hand (ag s)) = false →
  _calculate_in_hand_object env obs arm s = (Ok (Some (b, l)), s) →
  ∃ s' con,
    _handle_assisted_grasping_arm env obs arm action s = (Ok tt, s')
    ∧ ag s'
      = {| _ag_data := Some (b, l);
           _ag_freeze_joint_pos :=
             frozen_positions obs (finger_joints env arm)
                              (_ag_freeze_joint_pos (ag s));
           _ag_obj_in_hand := Some b;
           _ag_obj_cid := Some (next_constraint (world s));
           _ag_obj_cid_params :=
             {| childBodyUniqueId := Some b;
                childLinkIndex := Some l;
                jointType := Some (grasp_joint_type obs b l);
                maxForce := Some (grasp_max_force (grasp_joint_type obs b l));
                childFramePosition := None;
                childFrameOrientation := None |};
           _ag_freeze_gripper := Some true;
           _ag_release_counter := _ag_release_counter (ag s) |}
    ∧ constraints (world s') !! next_constraint (world s) = Some con
    ∧ (c_parentBodyUniqueId con, c_parentLinkIndex con)
      = (body_id (eef_links env arm), link_id (eef_links env arm))
    ∧ (c_childBodyUniqueId con, c_childLinkIndex con) = (b, l)
    ∧ c_jointType con = grasp_joint_type obs b l
    ∧ c_maxForce con = Some (grasp_max_force (grasp_joint_type obs b l))
    ∧ (∀ k, k ≠ next_constraint (world s) →
            constraints (world s') !! k = constraints (world s) !! k)
    ∧ next_constraint (world s') = next_constraint (world s) + 1
    ∧ (∀ link idx,
         link ∈ finger_links env arm →
         idx = -1 ∨ 0 ≤ idx < getNumJoints obs b →
         collision_filter (world s') !! (body_id link, b, link_id link, idx)
         = Some false)
    ∧ joint_targets (world s') = joint_targets (world s).
Proof.
  intros Harm Hctl Hcmd Hclose Hobj Hcalc.
  destruct (calculate_in_hand_object_inv env obs _ _ _ _ _ Harm Hcalc)
    as (cs & data & d & rest & rc & Hcand & Hdata & Hsort & _).
  destruct (nearest_is_candidate env obs arm cs _ _ _ _ _ _ _ Hdata Hsort)
    as (Hin & _).
  pose proof (candidates_subseteq env obs arm s s cs Hcand _ Hin) as Hcd.
  destruct (find_contact_pos_selected (contact_choice obs arm) arm _ Hcd)
    as (c & _ & Hpos).
  unfold _handle_assisted_grasping_arm, controller_mode, gripper_command.
  unfold_M. rewrite Hctl. simpl. rewrite Hcmd. simpl.
  rewrite Hobj, Hclose, Hcalc. simpl.
  unfold _establish_grasp. unfold_M.
  rewrite resolve_arm_id by done. simpl. rewrite Hpos.
  destruct_poses. simpl.
  rewrite set_coll_filter_eq. simpl.
  rewrite (freeze_loop_eq obs) by done. simpl.
  eexists _, _. split; [reflexivity|]. simpl.
  split; [done|]. rewrite set_pairs_constraints. simpl.
  split; [by rewrite lookup_alter_eq, lookup_insert_eq|]. simpl.
  split; [done|]. split; [done|]. split; [done|]. split; [done|].
  split.
  { intros k Hk. by rewrite lookup_alter_ne, lookup_insert_ne. }
  split; [by rewrite set_pairs_next_constraint|]. split.
  - intros link idx Hl Hi. apply set_pairs_lookup, elem_of_coll_pairs; [done|].
    destruct Hi as [->|Hi]; [by left|right]. apply elem_of_seqZ. lia.
  - by rewrite set_pairs_joint_targets.
Qed.

(** X10: an arm that holds nothing, a close command and no candidate: the
    step returns and only sets [_ag_data] to [None]; the engine is not
    touched. *)
Theorem idle_close_no_candidate arm action s ctl mt tol cmd :
  arm ≠ "default"%string →
  gripper_controller obs arm = ParallelJawGripperController "binary" ctl mt tol →
  action !! controller_action_idx env arm = Some cmd →
  (cmd <? 0)%float = true →
  truthy_int (_ag_obj_in_hand (ag s)) = false →
  _calculate_in_hand_object env obs arm s = (Ok None, s) →
  _handle_assisted_grasping_arm env obs arm action s
  = (Ok tt, {| ag := set_ag_data None (ag s); world := world s |}).
Proof.
  intros Harm Hctl Hcmd Hclose Hobj Hcalc.
  unfold _handle_assisted_grasping_arm, controller_mode, gripper_command.
  unfold_M. rewrite Hctl. simpl. rewrite Hcmd. simpl.
  rewrite Hobj, Hclose, Hcalc. simpl.
  unfold _establish_grasp. unfold_M.
  by rewrite resolve_arm_id.
Qed.

(** X11: while a body with a non-zero id is held, a close command without a
    violation above the threshold changes nothing: the candidates are not
    searched again. *)
Theorem holding_close_unchanged arm action s ctl mt tol cmd b :
  gripper_controller obs arm = ParallelJawGripperController "binary" ctl mt tol →
  action !! controller_action_idx env arm = Some cmd →
  (0 <=? cmd)%float = false →
  _ag_obj_in_hand (ag s) = Some b → b ≠ 0 →
  _ag_release_counter (ag s) = None →
  (CONSTRAINT_VIOLATION_THRESHOLD
   <? get_constraint_violation obs (_ag_obj_cid (ag s)))%float = false →
  _handle_assisted_grasping_arm env obs arm action s = (Ok tt, s).
Proof.
  intros Hctl Hcmd Hopen Hb Hb0 Hc Hviol.
  unfold _handle_assisted_grasping_arm, controller_mode, gripper_command.
  unfold_M. rewrite Hctl. simpl. rewrite Hcmd. simpl.
  rewrite Hb. simpl. destruct (Z.eqb_spec b 0) as [|_]; [done|]. simpl.
  rewrite Hc. simpl. by rewrite Hviol, Hopen.
Qed.

(** X12: while a body with a non-zero id is held, an open command starts
    the release: the constraint of the handle is gone from the engine, the
    handle and the recorded parameters are cleared, the counter is 0; the
    held body, the frozen positions, the other constraints and the
    collision filter are as before, so the fingers still do not collide
    with the body. *)
Theorem holding_open_releases arm action s ctl mt tol cmd b cid :
  arm ≠ "default"%string →
  gripper_controller obs arm = ParallelJawGripperController "binary" ctl mt tol →
  action !! controller_action_idx env arm = Some cmd →
  (0 <=? cmd)%float = true →
  _ag_obj_in_hand (ag s) = Some b → b ≠ 0 →
  _ag_release_counter (ag s) = None →
  _ag_obj_cid (ag s) = Some cid →
  ∃ s',
    _handle_assisted_grasping_arm env obs arm action s = (Ok tt, s')
    ∧ Releasing (ag s')
    ∧ _ag_release_counter (ag s') = Some 0
    ∧ _ag_obj_in_hand (ag s') = Some b
    ∧ _ag_obj_cid (ag s') = None
    ∧ _ag_obj_cid_params (ag s') = no_params
    ∧ _ag_freeze_joint_pos (ag s') = _ag_freeze_joint_pos (ag s)
    ∧ constraints (world s') !! cid = None
    ∧ (∀ k, k ≠ cid →
            constraints (world s') !! k = constraints (world s) !! k)
    ∧ collision_filter (world s') = collision_filter (world s)
    ∧ joint_targets (world s') = joint_targets (world s).
Proof.
  intros Harm Hctl Hcmd Hopen Hb Hb0 Hc Hcid.
  eexists. split.
  { eapply handle_arm_holding_release; eauto. by rewrite Hopen, orb_true_r. }
  unfold Releasing. simpl. rewrite Hb.
  split; [split; by eexists|].
  repeat (split; [done|]). split; [apply lookup_delete_eq|].
  split; [|done]. intros k Hk. by apply lookup_delete_ne.
Qed.

End Transitions.

Lemma idle_close_grasps_witness :
  ∃ s',
    _handle_assisted_grasping_arm (Example.robot sticky) (Example.scene 5 0)
      "0" Example.close {| ag := AG_init; world := Example.engine0 |}
    = (Ok tt, s')
    ∧ ag s' = Scenes.holding 5 1
    ∧ next_constraint (world s') = 2.
Proof.
  destruct (idle_close_grasps (Example.robot sticky) (Example.scene 5 0) "0"
              Example.close {| ag := AG_init; world := Example.engine0 |}
              None motor_position 0.001%float (-1)%float 5 (-1))
    as (s' & con & Hstep & Hag & _ & _ & _ & _ & _ & _ & Hnext & _).
  - done.
  - reflexivity.
  - reflexivity.
  - reflexivity.
  - reflexivity.
  - vm_compute. reflexivity.
  - exists s'. split; [exact Hstep|]. split; [|exact Hnext].
    rewrite Hag. vm_compute. reflexivity.
Defined.

Lemma idle_close_no_candidate_witness :
  _handle_assisted_grasping_arm (Example.robot sticky) Scenes.nothing "0"
    Example.close {| ag := AG_init; world := Example.engine0 |}
  = (Ok tt, {| ag := AG_init; world := Example.engine0 |}).
Proof.
  exact (idle_close_no_candidate (Example.robot sticky) Scenes.nothing "0"
           Example.close {| ag := AG_init; world := Example.engine0 |}
           None motor_position 0.001%float (-1)%float
           ltac:(done) eq_refl eq_refl eq_refl eq_refl
           ltac:(vm_compute; reflexivity)).
Defined.

Lemma holding_close_unchanged_witness :
  _handle_assisted_grasping_arm (Example.robot sticky) (Example.scene 5 0)
    "0" Example.close {| ag := Scenes.holding 5 1; world := Example.engine0 |}
  = (Ok tt, {| ag := Scenes.holding 5 1; world := Example.engine0 |}).
Proof.
  exact (holding_close_unchanged (Example.robot sticky) (Example.scene 5 0)
           "0" Example.close
           {| ag := Scenes.holding 5 1; world := Example.engine0 |}
           None motor_position 0.001%float (-1)%float 5
           eq_refl eq_refl eq_refl eq_refl ltac:(done) eq_refl eq_refl).
Defined.

Lemma holding_open_releases_witness :
  ∃ s',
    _handle_assisted_grasping_arm (Example.robot sticky) (Example.scene 5 0)
      "0" Example.open {| ag := Scenes.holding 5 1; world := Example.engine0 |}
    = (Ok tt, s')
    ∧ ag s' = Example.releasing 5 0.
Proof.
  destruct (holding_open_releases (Example.robot sticky) (Example.scene 5 0)
              "0" Example.open
              {| ag := Scenes.holding 5 1; world := Example.engine0 |}
              None motor_position 0.001%float 1%float 5 1)
    as (s' & Hstep & _); [done|reflexivity..|done|reflexivity|reflexivity|].
  exists s'. split; [exact Hstep|].
  assert ((_handle_assisted_grasping_arm (Example.robot sticky)
             (Example.scene 5 0) "0" Example.open
             {| ag := Scenes.holding 5 1; world := Example.engine0 |}).2
          = s') as <- by (by rewrite Hstep).
  vm_compute. reflexivity.
Defined.

(** ** The release window over several steps *)

(** X13: while the release window has not elapsed, the steps only count:
    whatever the commands and the contacts are, after [n] steps the counter
    is [n] further and the held body, every other field of the arm and the
    engine are untouched; a close command does not grasp again. *)
Theorem release_window_ignores_commands env arm inputs s b c :
  arm ≠ "default"%string →
  _ag_obj_in_hand (ag s) = Some b → b ≠ 0 →
  _ag_release_counter (ag s) = Some c →
  Forall (λ input : Obs * list float,
            (∃ ctl mt tol,
               gripper_controller input.1 arm
               = ParallelJawGripperController "binary" ctl mt tol)
            ∧ is_Some (input.2 !! controller_action_idx env arm)) inputs →
  (∀ k, 1 ≤ k ≤ Z.of_nat (length inputs) →
        (RELEASE_WINDOW <=? float_of_int (c + k) * render_timestep env)%float
        = false) →
  arm_steps env arm inputs s
  = {| ag := set_ag_release_counter (Some (c + Z.of_nat (length inputs))) (ag s);
       world := world s |}.
Proof.
  intros Harm Hb Hb0. revert s c Hb.
  induction inputs as [|[obs action] inputs IH]; intros s c Hb Hc Hvalid Hwin.
  { simpl. rewrite Z.add_0_r, <- Hc. by destruct s as [[]]. }
  apply Forall_cons in Hvalid as [[(ctl & mt & tol & Hctl) [cmd Hcmd]] Hvalid].
  simpl in Hctl, Hcmd.
  change (arm_steps env arm ((obs, action) :: inputs) s)
    with (arm_steps env arm inputs
            (_handle_assisted_grasping_arm env obs arm action s).2).
  assert (_handle_assisted_grasping_arm env obs arm action s
          = (Ok tt, {| ag := set_ag_release_counter (Some (c + 1)) (ag s);
                       world := world s |})) as ->.
  { unfold _handle_assisted_grasping_arm, controller_mode, gripper_command.
    unfold_M. rewrite Hctl. simpl. rewrite Hcmd. simpl.
    rewrite Hb. simpl. destruct (Z.eqb_spec b 0) as [|_]; [done|]. simpl.
    rewrite Hc. simpl.
    rewrite (handle_release_window_eq env obs arm s c b) by done.
    rewrite (Hwin 1); [done|]. simpl length. lia. }
  simpl. rewrite (IH _ (c + 1)); simpl; [|done|done|done|].
  - f_equal.
    replace (c + 1 + Z.of_nat (length inputs))
      with (c + Z.pos (Pos.of_succ_nat (length inputs))) by lia.
    done.
  - intros k Hk. replace (c + 1 + k) with (c + (1 + k)) by lia.
    apply Hwin. simpl length. lia.
Qed.

Lemma release_window_ignores_commands_witness :
  arm_steps (Example.robot sticky) "0" [(Example.scene 5 0, Example.close)]
    {| ag := Example.releasing 5 0; world := Example.engine0 |}
  = {| ag := Example.releasing 5 1; world := Example.engine0 |}.
Proof.
  exact (release_window_ignores_commands (Example.robot sticky) "0"
           [(Example.scene 5 0, Example.close)]
           {| ag := Example.releasing 5 0; world := Example.engine0 |} 5 0
           ltac:(done) eq_refl ltac:(done) eq_refl
           ltac:(apply Forall_cons; split;
                 [split; [by eexists _, _, _|by eexists]|apply Forall_nil_2])
           ltac:(intros k Hk; simpl in Hk;
                 assert (k = 1) as -> by lia; vm_compute; reflexivity)).
Defined.

(** X14: after every run, on every arm, a release counter is present only
    while a body is held, and that body has a non-zero id; an arm that
    holds nothing has neither a counter nor a handle. *)
Theorem counter_implies_held env inputs w arm :
  "default"%string ∉ arm_names env →
  arm ∈ arm_names env →
  ∃ a,
    ags (run env inputs (Robot_init (arm_names env) w)) !! arm = Some a
    ∧ (is_Some (_ag_release_counter a) →
       ∃ b, _ag_obj_in_hand a = Some b ∧ b ≠ 0)
    ∧ (Idle a → _ag_release_counter a = None ∧ _ag_obj_cid a = None).
Proof.
  intros _ Harm. destruct (run_arm env inputs w arm Harm) as (a & Ha & Hinv).
  exists a. split; [done|]. destruct Hinv as [Hcid _ Hcounter]. split.
  - intros Hc. specialize (Hcounter Hc).
    destruct (_ag_obj_in_hand a) as [b|]; [|done].
    exists b. split; [done|]. simpl in Hcounter. intros ->. done.
  - unfold Idle, Holding in *. intros Hidle. rewrite Hidle in *. split.
    + destruct (_ag_release_counter a) eqn:E; [|done].
      by specialize (Hcounter ltac:(by eexists)).
    + destruct (_ag_obj_cid a) eqn:E; [|done].
      destruct (proj1 Hcid ltac:(by eexists)) as [[? ?] _]. done.
Qed.

Lemma counter_implies_held_witness :
  ∃ a,
    ags (run (Example.robot sticky)
           [(Example.scene 5 0, Example.close);
            (Example.scene 5 0, Example.open)]
           (Robot_init (arm_names (Example.robot sticky)) Example.engine0))
      !! "0"%string = Some a
    ∧ ∃ b, _ag_obj_in_hand a = Some b ∧ b ≠ 0.
Proof.
  destruct (counter_implies_held (Example.robot sticky)
              [(Example.scene 5 0, Example.close);
               (Example.scene 5 0, Example.open)] Example.engine0 "0")
    as (a & Ha & Hheld & _).
  - vm_compute. intros H. inversion H as [|? ? ? H']. inversion H'.
  - by left.
  - exists a. split; [exact Ha|]. apply Hheld.
    assert (Some a = Some (Example.releasing 5 0)) as [= ->].
    { rewrite <- Ha. vm_compute. reflexivity. }
    by eexists.
Defined.

(** ** The physical mode *)

(** X15: in the physical mode the assisted grasping is left out: every run
    from the initial state leaves the fields of every arm and the engine as
    they were created, whatever the actions and the contacts are. *)
Theorem physical_run_unchanged env inputs w :
  grasping_mode env = physical →
  run env inputs (Robot_init (arm_names env) w) = Robot_init (arm_names env) w.
Proof.
  intros Hmode.
  assert (∀ r obs action,
            (∀ arm a, ags r !! arm = Some a →
                      truthy_bool (_ag_freeze_gripper a) = false) →
            (apply_action env obs action r).2 = r) as Hstep.
  { intros r obs action Hfreeze. unfold apply_action.
    destruct (decide (grasping_mode env ≠ physical)) as [|_]; [done|].
    unfold_M. simpl.
    apply (for_each_preserves (λ r', r' = r)); [|done].
    intros arm r' ->. unfold on_arm.
    destruct (ags r !! arm) as [a|] eqn:Ha; [|done].
    simpl. rewrite (Hfreeze _ _ Ha). simpl.
    destruct r as [m rw]. simpl in *. f_equal. by apply insert_id. }
  induction inputs as [|[obs action] inputs IH]; [done|].
  simpl. unfold step at 1. simpl. rewrite Hstep; [done|].
  intros arm a Ha. unfold Robot_init in Ha. simpl in Ha.
  apply elem_of_list_to_map_2, list_elem_of_fmap in Ha as (x & [= -> ->] & _).
  done.
Qed.

Lemma physical_run_unchanged_witness :
  run (Example.robot physical)
    [(Example.scene 5 0, Example.close); (Example.scene 5 0, Example.open)]
    (Robot_init (arm_names (Example.robot physical)) Example.engine0)
  = Robot_init (arm_names (Example.robot physical)) Example.engine0.
Proof.
  exact (physical_run_unchanged (Example.robot physical)
           [(Example.scene 5 0, Example.close);
            (Example.scene 5 0, Example.open)]
           Example.engine0 eq_refl).
Defined.

(** ** Freezing the gripper *)

Section Freeze.

Variable env : Env.

Lemma freeze_targets_constraints d w :
  constraints (freeze_targets env d w) = constraints w
  ∧ next_constraint (freeze_targets env d w) = next_constraint w
  ∧ collision_filter (freeze_targets env d w) = collision_filter w.
Proof.
  revert w. induction d as [|[[name|z] v] d IH]; intros w; [done| |apply IH].
  simpl. destruct (_joints env !! name) as [j|]; [|apply IH].
  destruct (IH (resetJointState (joint_body_id j) (joint_id j) v 0%float w))
    as (-> & -> & ->). done.
Qed.

(** A joint that stands still stays so. *)
Lemma freeze_targets_still d w key :
  (∃ v, joint_targets w !! key = Some (v, 0%float)) →
  ∃ v, joint_targets (freeze_targets env d w) !! key = Some (v, 0%float).
Proof.
  revert w. induction d as [|[[name|z] v] d IH]; intros w Hw; [done| |by apply IH].
  simpl. destruct (_joints env !! name) as [j|]; [|by apply IH].
  apply IH. simpl. rewrite lookup_insert. case_decide; [by eexists|done].
Qed.

Lemma freeze_gripper_eq arm s :
  arm ≠ "default"%string →
  (∀ key v, (key, v) ∈ _ag_freeze_joint_pos (ag s) →
            ∃ name, key = inl name ∧ is_Some (_joints env !! name)) →
  _freeze_gripper env arm s
  = (Ok tt, {| ag := ag s;
               world := freeze_targets env (_ag_freeze_joint_pos (ag s))
                                       (world s) |}).
Proof.
  intros Harm. unfold _freeze_gripper. unfold_M.
  rewrite resolve_arm_id by done. simpl.
  generalize (_ag_freeze_joint_pos (ag s)) as d. intros d. revert s.
  induction d as [|[key v] d IH]; intros s Hd; [by destruct s|].
  destruct (Hd key v) as (name & -> & [j Hj]); [by left|].
  simpl. unfold Py.bind at 1. rewrite Hj. simpl.
  rewrite IH; [done|]. intros key' v' Hin. apply (Hd key' v'). by right.
Qed.

(** X16: when every key of the frozen positions is the name of a joint of
    the robot, [_freeze_gripper] returns, gives the joint of every entry a
    target with the velocity 0, gives the joint of the last entry its frozen
    value, and touches neither the fields of the arm nor the constraints nor
    the collision filter. *)
Theorem freeze_gripper_targets arm s :
  arm ≠ "default"%string →
  (∀ key v, (key, v) ∈ _ag_freeze_joint_pos (ag s) →
            ∃ name, key = inl name ∧ is_Some (_joints env !! name)) →
  ∃ s',
    _freeze_gripper env arm s = (Ok tt, s')
    ∧ ag s' = ag s
    ∧ constraints (world s') = constraints (world s)
    ∧ collision_filter (world s') = collision_filter (world s)
    ∧ (∀ name v joint,
         (inl name, v) ∈ _ag_freeze_joint_pos (ag s) →
         _joints env !! name = Some joint →
         ∃ v', joint_targets (world s') !! (joint_body_id joint, joint_id joint)
               = Some (v', 0%float))
    ∧ (∀ d name v joint,
         _ag_freeze_joint_pos (ag s) = d ++ [(inl name, v)] →
         _joints env !! name = Some joint →
         joint_targets (world s') !! (joint_body_id joint, joint_id joint)
         = Some (v, 0%float)).
Proof.
  intros Harm Hd. eexists. split; [by apply freeze_gripper_eq|]. simpl.
  split; [done|].
  destruct (freeze_targets_constraints (_ag_freeze_joint_pos (ag s)) (world s))
    as (Hc & _ & Hf).
  split; [done|]. split; [done|]. clear Hd Hc Hf. split.
  - intros name v joint. generalize (world s) as w.
    induction (_ag_freeze_joint_pos (ag s)) as [|[key v0] d IH]; intros w Hin Hj.
    { by apply elem_of_nil in Hin. }
    apply elem_of_cons in Hin as [[= <- <-]|Hin]; [|by apply IH].
    simpl. rewrite Hj.
    apply freeze_targets_still. simpl. rewrite lookup_insert_eq. by eexists.
  - intros d name v joint -> Hj. unfold freeze_targets.
    rewrite foldl_app. simpl. rewrite Hj. simpl. apply lookup_insert_eq.
Qed.

(** X17: [_joints] is keyed by the joint names: on frozen positions whose
    first key is an [int], or a name that is no joint of the robot,
    [_freeze_gripper] raises a [KeyError] and changes nothing. *)
Theorem freeze_gripper_unknown_key arm s key v d :
  arm ≠ "default"%string →
  _ag_freeze_joint_pos (ag s) = (key, v) :: d →
  match key with
  | inl name => _joints env !! name = None
  | inr _ => True
  end →
  _freeze_gripper env arm s = (Raise KeyError, s).
Proof.
  intros Harm Hd Hkey. unfold _freeze_gripper. unfold_M.
  rewrite resolve_arm_id by done. simpl. rewrite Hd. simpl.
  unfold Py.bind. destruct key as [name|z]; [by rewrite Hkey|done].
Qed.

End Freeze.

Lemma freeze_gripper_targets_witness :
  ∃ s',
    _freeze_gripper (Example.robot sticky) "0"
      {| ag := Scenes.holding 5 1; world := Example.engine0 |} = (Ok tt, s')
    ∧ joint_targets (world s') !! (1, 9) = Some (0.02%float, 0%float).
Proof.
  destruct (freeze_gripper_targets (Example.robot sticky) "0"
              {| ag := Scenes.holding 5 1; world := Example.engine0 |})
    as (s' & Hrun & _ & _ & _ & _ & Hlast).
  - done.
  - intros key v Hin. apply elem_of_cons in Hin as [[= -> ->]|Hin].
    { exists "l_finger_joint"%string. split; [done|]. vm_compute. by eexists. }
    apply list_elem_of_singleton in Hin as [= -> ->].
    exists "r_finger_joint"%string. split; [done|]. vm_compute. by eexists.
  - exists s'. split; [exact Hrun|].
    apply (Hlast [(inl "l_finger_joint"%string, 0.02%float)]
                 "r_finger_joint"%string 0.02%float
                 {| joint_name := "r_finger_joint";
                    joint_body_id := 1; joint_id := 9 |}).
    + reflexivity.
    + vm_compute. reflexivity.
Defined.

Lemma freeze_gripper_unknown_key_witness :
  let s := {| ag := set_ag_freeze_joint_pos [(inr 8, 0.02%float)] AG_init;
              world := Example.engine0 |} in
  _freeze_gripper (Example.robot sticky) "0" s = (Raise KeyError, s).
Proof.
  exact (freeze_gripper_unknown_key (Example.robot sticky) "0"
           {| ag := set_ag_freeze_joint_pos [(inr 8, 0.02%float)] AG_init;
              world := Example.engine0 |}
           (inr 8) 0.02%float [] ltac:(done) eq_refl I).
Defined.

(** ** The grasp query in the physical mode *)

Lemma np_all_Forall {A} (f : A → bool) (l : list A) :
  np_all (f <$> l) = true → Forall (λ x, f x = true) l.
Proof.
  unfold np_all. induction l as [|x l IH]; simpl; [done|].
  intros [Hx Hl]%andb_true_iff. constructor; [done|by apply IH].
Qed.

(** X18: in the physical mode [is_grasping] ignores the candidate and the
    assisted-grasping fields and changes nothing; it answers [TRUE] only for
    a parallel-jaw controller that is not in the independent mode, whose
    last command has one value for all fingers and whose limit tolerance is
    below [POS_TOLERANCE], with every finger velocity below [VEL_TOLERANCE]
    in absolute value. *)
Theorem is_grasping_physical env obs arm s :
  grasping_mode env = physical →
  arm ≠ "default"%string →
  (∀ candidate_obj candidate_obj' s',
     (is_grasping env obs arm candidate_obj s).1
     = (is_grasping env obs arm candidate_obj' s').1)
  ∧ (∀ candidate_obj, (is_grasping env obs arm candidate_obj s).2 = s)
  ∧ (∀ candidate_obj,
       (is_grasping env obs arm candidate_obj s).1 = Ok TRUE →
       ∃ mode control c0 motor_type limit_tolerance,
         gripper_controller obs arm
         = ParallelJawGripperController mode (Some control) motor_type
                                        limit_tolerance
         ∧ mode ≠ "independent"%string
         ∧ head control = Some c0
         ∧ Forall (λ c, (c =? c0)%float = true) control
         ∧ (limit_tolerance <? POS_TOLERANCE)%float = true
         ∧ Forall (λ v, (PrimFloat.abs v <? VEL_TOLERANCE)%float = true)
                  (finger_velocities obs arm)).
Proof.
  intros Hmode Harm.
  assert (∀ cand st,
            is_grasping env obs arm cand st
            = ((is_grasping env obs arm None s).1, st)) as Hind.
  { intros cand st. unfold is_grasping. unfold_M.
    rewrite !resolve_arm_id by done. cbv beta iota.
    destruct (decide (grasping_mode env ≠ physical)) as [|_]; [done|].
    destruct (gripper_controller obs arm) as [| |mode control mt tol|];
      try done.
    destruct (String.eqb mode "independent"); [done|].
    destruct control as [[|c0 control]|]; [done| |done].
    destruct (np_all ((λ c, (c =? c0)%float) <$> c0 :: control)); [|done].
    destruct (tol <? POS_TOLERANCE)%float; [|done].
    cbv beta iota delta [ret raise].
    destruct (match mt with motor_position => _ | _ => false end); [reflexivity|].
    destruct (match mt with motor_position => false | _ => _ end); [reflexivity|].
    destruct (np_all (zip_with andb _ _)); reflexivity. }
  split; [intros c c' s'; rewrite (Hind c s), (Hind c' s'); reflexivity|].
  split; [intros c; rewrite (Hind c s); reflexivity|].
  intros cand. rewrite (Hind cand s). unfold fst at 1. unfold is_grasping. unfold_M.
  rewrite resolve_arm_id by done. cbv beta iota.
  destruct (decide (grasping_mode env ≠ physical)) as [|_]; [done|].
  destruct (gripper_controller obs arm) as [| |mode control mt tol|];
    try done.
  destruct (String.eqb_spec mode "independent") as [|Hindep]; [done|].
  destruct control as [[|c0 control]|]; [done| |done].
  destruct (np_all ((λ c, (c =? c0)%float) <$> c0 :: control)) eqn:Hsame;
    [|done].
  destruct (tol <? POS_TOLERANCE)%float eqn:Htol; [|done].
  cbv beta iota delta [ret raise].
  destruct (match mt with motor_position => _ | _ => false end); [done|].
  destruct (match mt with motor_position => false | _ => _ end); [done|].
  destruct (np_all (zip_with andb _ _)); [|done].
  intros Htrue. exists mode, (c0 :: control), c0, mt, tol.
  split; [reflexivity|]. split; [exact Hindep|]. split; [reflexivity|].
  split; [by apply (np_all_Forall (λ c, (c =? c0)%float))|].
  split; [exact Htol|].
  apply (np_all_Forall (λ v, (PrimFloat.abs v <? VEL_TOLERANCE)%float)).
  destruct (np_all ((λ v, (PrimFloat.abs v <? VEL_TOLERANCE)%float)
                      <$> finger_velocities obs arm)); [reflexivity|].
  exfalso. rewrite andb_false_r in Htrue. discriminate Htrue.
Qed.

Lemma is_grasping_physical_witness :
  (is_grasping (Example.robot physical) Scenes.squeezing "0" (Some 5)
     {| ag := AG_init; world := Example.engine0 |}).1 = Ok TRUE
  ∧ ∃ mode control c0 motor_type limit_tolerance,
      gripper_controller Scenes.squeezing "0"
      = ParallelJawGripperController mode (Some control) motor_type
                                     limit_tolerance
      ∧ mode ≠ "independent"%string
      ∧ head control = Some c0
      ∧ Forall (λ c, (c =? c0)%float = true) control
      ∧ (limit_tolerance <? POS_TOLERANCE)%float = true
      ∧ Forall (λ v, (PrimFloat.abs v <? VEL_TOLERANCE)%float = true)
               (finger_velocities Scenes.squeezing "0").
Proof.
  assert ((is_grasping (Example.robot physical) Scenes.squeezing "0" (Some 5)
             {| ag := AG_init; world := Example.engine0 |}).1 = Ok TRUE)
    as Htrue by (vm_compute; reflexivity).
  split; [exact Htrue|].
  exact (proj2 (proj2 (is_grasping_physical
                         (Example.robot physical) Scenes.squeezing "0"
                         {| ag := AG_init; world := Example.engine0 |}
                         eq_refl ltac:(done)))
               (Some 5) Htrue).
Defined.

(** ** The configuration of the gripper controller *)

Section Configuration.

Variable env : Env.
Variable obs : Obs.

Lemma for_each_raises {S A} (xs : list A) (body : A → M S unit) x s :
  x ∈ xs →
  (∀ s0, ∃ e s1, body x s0 = (Raise e, s1)) →
  ∃ e s1, for_each xs body s = (Raise e, s1).
Proof.
  intros Hin Hx. revert s. induction xs as [|y ys IH]; intros s.
  { by apply elem_of_nil in Hin. }
  simpl. unfold Py.bind.
  destruct (body y s) as [[[]|e] s1] eqn:Hy; [|by eexists _, _].
  apply elem_of_cons in Hin as [->|Hin]; [|by apply IH].
  destruct (Hx s) as (e & s2 & He). congruence.
Qed.

(** X19: the assisted grasping needs the one-dimensional gripper command:
    when the gripper controller of an arm is not in the mode ["binary"],
    [apply_action] raises, whatever the action and the state of the robot
    are; when that arm is the first one it raises the [AssertionError]
    before anything is changed. *)
Theorem not_binary_raises arm mode ctl mt tol action r :
  grasping_mode env ≠ physical →
  arm ∈ arm_names env →
  gripper_controller obs arm = ParallelJawGripperController mode ctl mt tol →
  mode ≠ "binary"%string →
  (∃ e r', apply_action env obs action r = (Raise e, r'))
  ∧ (head (arm_names env) = Some arm → is_Some (ags r !! arm) →
     apply_action env obs action r = (Raise AssertionError, r)).
Proof.
  intros Hmode Hin Hctl Hne.
  assert (∀ s, _handle_assisted_grasping_arm env obs arm action s
               = (Raise AssertionError, s)) as Harm.
  { intros s. unfold _handle_assisted_grasping_arm, controller_mode.
    rewrite Hctl. unfold_M. by destruct (String.eqb_spec mode "binary"). }
  unfold apply_action, _handle_assisted_grasping. unfold_M.
  destruct (decide (grasping_mode env ≠ physical)); [|done]. split.
  - destruct (for_each_raises (arm_names env)
                (λ arm, on_arm arm (_handle_assisted_grasping_arm env obs arm action))
                arm r Hin) as (e & r' & ->); [|by eexists _, _].
    intros r0. unfold on_arm. destruct (ags r0 !! arm); [|by eexists _, _].
    rewrite Harm. by eexists _, _.
  - intros Hhead [a Ha]. destruct (arm_names env) as [|arm' arms]; [done|].
    simplify_eq/=. unfold Py.bind, on_arm. rewrite Ha, Harm. simpl.
    rewrite insert_id by done. by destruct r.
Qed.

End Configuration.

Lemma not_binary_raises_witness :
  let obs := Scenes.with_gripper
               (ParallelJawGripperController "smooth" None motor_position
                  0.001%float)
               (Example.scene 5 0) in
  apply_action (Example.robot sticky) obs Example.close (Example.start sticky)
  = (Raise AssertionError, Example.start sticky).
Proof.
  intros obs.
  apply (proj2 (not_binary_raises (Example.robot sticky) obs "0" "smooth"
                  None motor_position 0.001%float Example.close
                  (Example.start sticky) ltac:(done)
                  ltac:(by apply list_elem_of_singleton) eq_refl ltac:(done))).
  - reflexivity.
  - eexists. vm_compute. reflexivity.
Defined.

(** ** Snapshots and their restore, arm by arm *)

Lemma int_keys_state {S S'} items acc (s : S) (s' : S') :
  int_keys items acc s = ((int_keys items acc s').1, s).
Proof.
  revert acc. induction items as [|[[name|z] val] items IH]; intros acc;
    simpl; [done| |done].
  destruct (int_of_str name); [done|]. done.
Qed.

Lemma int_keys_bad_key {S} items acc (s : S) name v :
  (inl name, v) ∈ items → int_of_str name = None →
  int_keys items acc s = (Raise ValueError, s).
Proof.
  intros Hin Hbad. revert acc.
  induction items as [|[[name'|z] val] items IH]; intros acc.
  { by apply elem_of_nil in Hin. }
  - simpl. destruct (int_of_str name') as [z|] eqn:Hz; [|done].
    apply IH. apply elem_of_cons in Hin as [?|?]; [congruence|done].
  - simpl. apply IH. apply elem_of_cons in Hin as [?|?]; [congruence|done].
Qed.

Section Snapshot.

Variable env : Env.
Variable obs : Obs.

(** X20: [dump_state] of an arm either returns or raises a [KeyError] with
    nothing changed, the latter only when there is a handle whose recorded
    parameters lack the child body or link.  When it returns, the engine and
    every field but the recorded parameters are as before, the parameters
    differ at most in the child frame (which is present afterwards when
    there is a handle), the entries hold the fields under the six keys of
    the arm, and a second dump returns the same entries and changes
    nothing. *)
Theorem dump_state_arm_effect arm s :
  (∃ entries s',
     dump_state_arm env obs arm s = (Ok entries, s')
     ∧ world s' = world s
     ∧ ag s' = set_ag_obj_cid_params (_ag_obj_cid_params (ag s')) (ag s)
     ∧ (_ag_obj_cid (ag s) = None → s' = s)
     ∧ childBodyUniqueId (_ag_obj_cid_params (ag s'))
       = childBodyUniqueId (_ag_obj_cid_params (ag s))
     ∧ childLinkIndex (_ag_obj_cid_params (ag s'))
       = childLinkIndex (_ag_obj_cid_params (ag s))
     ∧ jointType (_ag_obj_cid_params (ag s'))
       = jointType (_ag_obj_cid_params (ag s))
     ∧ maxForce (_ag_obj_cid_params (ag s'))
       = maxForce (_ag_obj_cid_params (ag s))
     ∧ (is_Some (_ag_obj_cid (ag s)) →
        is_Some (childBodyUniqueId (_ag_obj_cid_params (ag s)))
        ∧ is_Some (childLinkIndex (_ag_obj_cid_params (ag s)))
        ∧ is_Some (childFramePosition (_ag_obj_cid_params (ag s')))
        ∧ is_Some (childFrameOrientation (_ag_obj_cid_params (ag s'))))
     ∧ entries
       = [(ag_key arm "obj_in_hand", DInt (_ag_obj_in_hand (ag s)));
          (ag_key arm "release_counter", DInt (_ag_release_counter (ag s)));
          (ag_key arm "freeze_gripper", DBool (_ag_freeze_gripper (ag s)));
          (ag_key arm "freeze_joint_pos",
           DJointPos (_ag_freeze_joint_pos (ag s)));
          (ag_key arm "obj_cid", DInt (_ag_obj_cid (ag s)));
          (ag_key arm "obj_cid_params", DParams (_ag_obj_cid_params (ag s')))]
     ∧ dump_state_arm env obs arm s' = (Ok entries, s'))
  ∨ (dump_state_arm env obs arm s = (Raise KeyError, s)
     ∧ is_Some (_ag_obj_cid (ag s))
     ∧ (childBodyUniqueId (_ag_obj_cid_params (ag s)) = None
        ∨ childLinkIndex (_ag_obj_cid_params (ag s)) = None)).
Proof.
  unfold dump_state_arm. unfold_M. destruct s as [a w]. simpl.
  destruct (_ag_obj_cid a) as [c|] eqn:Hc; simpl.
  - destruct (childBodyUniqueId (_ag_obj_cid_params a)) as [b|] eqn:Hb;
      simpl; [|right; eauto].
    destruct (childLinkIndex (_ag_obj_cid_params a)) as [l|] eqn:Hl;
      simpl; [|right; eauto].
    left. destruct (get_child_frame_pose obs _ _ b l) as [fp fo] eqn:Hpose.
    simpl. eexists _, _. split; [reflexivity|]. simpl.
    rewrite Hc. simpl. rewrite Hpose. simpl.
    repeat split; eauto; [done|]. by rewrite Hc.
  - left. eexists _, _. split; [reflexivity|]. simpl. rewrite Hc. simpl.
    repeat split; eauto;
      try (by destruct a); try (by rewrite Hc);
      match goal with H : is_Some None |- _ => by destruct H end.
Qed.

(** X21: [load_state] on a dump without the entry ["ManipulationRobot"],
    which is what [dump_state] returns in the physical mode: for a first arm
    that holds a body the restore raises a [KeyError] after it removed the
    constraint of the handle and enabled the collisions of the fingers with
    the held body; the fields of the arms still name the handle and the
    body. *)
Theorem load_state_missing_entry arm arms r a c b :
  grasping_mode env ≠ physical →
  arm_names env = arm :: arms →
  ags r !! arm = Some a →
  _ag_obj_cid a = Some c →
  _ag_obj_in_hand a = Some b →
  (∀ env' obs' r0, grasping_mode env' = physical →
                   dump_state env' obs' r0
                   = (Ok {| ManipulationRobot := None |}, r0))
  ∧ ∃ r',
      load_state env obs {| ManipulationRobot := None |} r
      = (Raise KeyError, r')
      ∧ ags r' = ags r
      ∧ constraints (rworld r') = delete c (constraints (rworld r))
      ∧ ∀ link idx,
          link ∈ finger_links env arm →
          idx = -1 ∨ 0 ≤ idx < getNumJoints obs b →
          collision_filter (rworld r') !! (body_id link, b, link_id link, idx)
          = Some true.
Proof.
  intros Hmode Harms Ha Hc Hb. split.
  { intros env' obs' r0 Hph. unfold dump_state.
    by destruct (decide (grasping_mode env' = physical)). }
  unfold load_state. destruct (decide (grasping_mode env = physical)); [done|].
  rewrite Harms. simpl. unfold Py.bind, on_arm. rewrite Ha.
  unfold load_state_arm. unfold_M. simpl. rewrite Hc. simpl. rewrite Hb. simpl.
  rewrite set_coll_filter_eq. simpl.
  eexists. split; [reflexivity|]. simpl.
  split; [by apply insert_id|].
  split; [by rewrite set_pairs_constraints|].
  intros link idx Hl Hidx. apply set_pairs_lookup.
  apply elem_of_coll_pairs; [done|]. apply elem_of_cons.
  destruct Hidx as [->|?]; [by left|right]. apply elem_of_seqZ. lia.
Qed.

Lemma load_state_arm_eq arm robot_dump s obj counter freeze items keys
    cid params b' l' jt mf fp fo :
  robot_dump !! ag_key arm "obj_in_hand" = Some (DInt obj) →
  robot_dump !! ag_key arm "release_counter" = Some (DInt counter) →
  robot_dump !! ag_key arm "freeze_gripper" = Some (DBool freeze) →
  robot_dump !! ag_key arm "freeze_joint_pos" = Some (DJointPos items) →
  robot_dump !! ag_key arm "obj_cid" = Some (DInt cid) →
  robot_dump !! ag_key arm "obj_cid_params" = Some (DParams params) →
  int_keys items [] () = (Ok keys, ()) →
  (is_Some cid →
   params = {| childBodyUniqueId := Some b';
               childLinkIndex := Some l';
               jointType := Some jt;
               maxForce := Some mf;
               childFramePosition := Some fp;
               childFrameOrientation := Some fo |}) →
  let w1 := match _ag_obj_cid (ag s) with
            | Some c => removeConstraint c (world s)
            | None => world s
            end in
  let w2 := match _ag_obj_in_hand (ag s) with
            | Some b =>
                set_pairs true (coll_pairs obs b (finger_links env arm)) w1
            | None => w1
            end in
  let w3 := match cid with
            | Some _ =>
                changeConstraint (next_constraint w2) mf
                  (createConstraint
                     {| c_parentBodyUniqueId := body_id (eef_links env arm);
                        c_parentLinkIndex := link_id (eef_links env arm);
                        c_childBodyUniqueId := b';
                        c_childLinkIndex := l';
                        c_jointType := jt;
                        c_parentFramePosition := (0, 0, 0)%float;
                        c_childFramePosition := fp;
                        c_parentFrameOrientation := None;
                        c_childFrameOrientation := fo;
                        c_maxForce := None |} w2).2
            | None => w2
            end in
  let w4 := match obj with
            | Some b =>
                set_pairs false (coll_pairs obs b (finger_links env arm)) w3
            | None => w3
            end in
  load_state_arm env obs arm {| ManipulationRobot := Some robot_dump |} s
  = (Ok tt,
     {| ag := {| _ag_data := _ag_data (ag s);
                 _ag_freeze_joint_pos := keys;
                 _ag_obj_in_hand := obj;
                 _ag_obj_cid := cid ≫= λ _, Some (next_constraint w2);
                 _ag_obj_cid_params := params;
                 _ag_freeze_gripper := freeze;
                 _ag_release_counter := counter |};
        world := w4 |}).
Proof.
  intros H1 H2 H3 H4 H5 H6 Hkeys Hparams w1 w2 w3 w4.
  unfold load_state_arm. unfold_M. simpl.
  rewrite H1, H2, H3, H4, H5, H6.
  rewrite !bool_decide_eq_true_2 by eauto. cbv beta iota.
  rewrite H1, H2, H3, H4, H5, H6.
  subst w1 w2 w3 w4.
  destruct s as [a w]. simpl.
  destruct (_ag_obj_cid a) as [c0|] eqn:Hc0;
    destruct (_ag_obj_in_hand a) as [b0|] eqn:Hb0;
    simpl; rewrite ?Hb0; simpl; rewrite ?set_coll_filter_eq; simpl.
  all: rewrite (int_keys_state items [] _ ()), Hkeys; simpl.
  all: destruct cid as [c|]; simpl;
    [rewrite (Hparams ltac:(eauto)); simpl|].
  all: destruct obj as [b|]; simpl; rewrite ?set_coll_filter_eq; simpl.
  all: rewrite ?set_pairs_next_constraint; try reflexivity.
Qed.

(** X22: [load_state] of an arm from a dump that holds the six entries of
    the arm, whose frozen positions have keys that [int] converts and whose
    parameters are complete when there is a handle: the restore returns, the
    fields are those of the dump (with the converted keys, and [_ag_data]
    as it was), the dumped handle is replaced by the id of a new constraint
    from the end effector with the child, kind, force and child frame of the
    dumped parameters, the constraint of the old handle is removed and every
    other one kept, the collisions of the fingers with the body of the dump
    are disabled and those with a body held before are enabled. *)
Theorem load_state_arm_restores arm robot_dump s obj counter freeze items keys
    cid params :
  robot_dump !! ag_key arm "obj_in_hand" = Some (DInt obj) →
  robot_dump !! ag_key arm "release_counter" = Some (DInt counter) →
  robot_dump !! ag_key arm "freeze_gripper" = Some (DBool freeze) →
  robot_dump !! ag_key arm "freeze_joint_pos" = Some (DJointPos items) →
  robot_dump !! ag_key arm "obj_cid" = Some (DInt cid) →
  robot_dump !! ag_key arm "obj_cid_params" = Some (DParams params) →
  int_keys items [] () = (Ok keys, ()) →
  (is_Some cid →
   is_Some (childBodyUniqueId params) ∧ is_Some (childLinkIndex params)
   ∧ is_Some (jointType params) ∧ is_Some (maxForce params)
   ∧ is_Some (childFramePosition params)
   ∧ is_Some (childFrameOrientation params)) →
  ∃ s',
    load_state_arm env obs arm {| ManipulationRobot := Some robot_dump |} s
    = (Ok tt, s')
    ∧ ag s'
      = {| _ag_data := _ag_data (ag s);
           _ag_freeze_joint_pos := keys;
           _ag_obj_in_hand := obj;
           _ag_obj_cid := cid ≫= λ _, Some (next_constraint (world s));
           _ag_obj_cid_params := params;
           _ag_freeze_gripper := freeze;
           _ag_release_counter := counter |}
    ∧ (is_Some cid →
       ∃ con,
         constraints (world s') !! next_constraint (world s) = Some con
         ∧ (c_parentBodyUniqueId con, c_parentLinkIndex con)
           = (body_id (eef_links env arm), link_id (eef_links env arm))
         ∧ childBodyUniqueId params = Some (c_childBodyUniqueId con)
         ∧ childLinkIndex params = Some (c_childLinkIndex con)
         ∧ jointType params = Some (c_jointType con)
         ∧ maxForce params = c_maxForce con
         ∧ childFramePosition params = Some (c_childFramePosition con)
         ∧ childFrameOrientation params = Some (c_childFrameOrientation con))
    ∧ (∀ k, (is_Some cid → k ≠ next_constraint (world s)) →
            constraints (world s') !! k
            = if bool_decide (_ag_obj_cid (ag s) = Some k) then None
              else constraints (world s) !! k)
    ∧ (∀ b link idx,
         link ∈ finger_links env arm →
         idx = -1 ∨ 0 ≤ idx < getNumJoints obs b →
         (obj = Some b →
          collision_filter (world s') !! (body_id link, b, link_id link, idx)
          = Some false)
         ∧ (_ag_obj_in_hand (ag s) = Some b → obj ≠ Some b →
            collision_filter (world s') !! (body_id link, b, link_id link, idx)
            = Some true)).
Proof.
  intros H1 H2 H3 H4 H5 H6 Hkeys Hparams.
  set (w1 := match _ag_obj_cid (ag s) with
             | Some c => removeConstraint c (world s)
             | None => world s
             end).
  set (w2 := match _ag_obj_in_hand (ag s) with
             | Some b =>
                 set_pairs true (coll_pairs obs b (finger_links env arm)) w1
             | None => w1
             end).
  assert (constraints w2 = constraints w1
          ∧ next_constraint w2 = next_constraint (world s)
          ∧ collision_filter w1 = collision_filter (world s)) as (Hc2 & Hn2 & Hf1).
  { unfold w2, w1. destruct (_ag_obj_in_hand (ag s));
      rewrite ?set_pairs_constraints, ?set_pairs_next_constraint;
      by destruct (_ag_obj_cid (ag s)). }
  assert (∀ k, constraints w1 !! k
               = if bool_decide (_ag_obj_cid (ag s) = Some k) then None
                 else constraints (world s) !! k) as Hw1.
  { intros k. unfold w1. destruct (_ag_obj_cid (ag s)) as [c0|]; [|done].
    simpl. case_bool_decide; simplify_eq.
    - apply lookup_delete_eq.
    - apply lookup_delete_ne. congruence. }
  assert (∀ b link idx,
            link ∈ finger_links env arm →
            idx = -1 ∨ 0 ≤ idx < getNumJoints obs b →
            (body_id link, b, link_id link, idx)
            ∈ coll_pairs obs b (finger_links env arm)) as Hin.
  { intros b link idx Hl Hidx. apply elem_of_coll_pairs; [done|].
    apply elem_of_cons. destruct Hidx as [->|?]; [by left|right].
    apply elem_of_seqZ. lia. }
  assert (∀ b b0 link idx,
            b ≠ b0 →
            (body_id link, b0, link_id link, idx)
            ∉ coll_pairs obs b (finger_links env arm)) as Hnin.
  { intros b b0 link idx Hne Hk.
    apply elem_of_coll_pairs_inv in Hk as (? & ? & _ & _ & Hk). congruence. }
  destruct cid as [c|].
  - destruct (Hparams ltac:(eauto))
      as ([b' Hb] & [l' Hl] & [jt Hjt] & [mf Hmf] & [fp Hfp] & [fo Hfo]).
    destruct params as [? ? ? ? ? ?]. simpl in *. subst.
    eexists. split.
    { eapply load_state_arm_eq;
        [exact H1|exact H2|exact H3|exact H4|exact H5|exact H6|exact Hkeys|
         done]. }
    fold w1 w2. simpl. split; [by rewrite Hn2|]. split; [|split].
    + intros _. eexists. split.
      { destruct obj; rewrite ?set_pairs_constraints; simpl;
          rewrite Hn2, lookup_alter_eq, lookup_insert_eq; reflexivity. }
      done.
    + intros k Hk. specialize (Hk ltac:(eauto)).
      rewrite <- Hw1, <- Hc2.
      destruct obj; rewrite ?set_pairs_constraints; simpl;
        rewrite Hn2, lookup_alter_ne, lookup_insert_ne by done; reflexivity.
    + intros b link idx Hl Hidx. split.
      * intros ->. by apply set_pairs_lookup, Hin.
      * intros Hold Hne. unfold w2. rewrite Hold.
        destruct obj as [b1|]; simpl.
        -- rewrite set_pairs_lookup_ne by (apply Hnin; congruence).
           simpl. by apply set_pairs_lookup, Hin.
        -- by apply set_pairs_lookup, Hin.
  - eexists. split.
    { apply (load_state_arm_eq arm robot_dump s obj counter freeze items
               keys None params 0 0 JOINT_FIXED 0%float (0, 0, 0)%float
               unit_quat); done. }
    fold w1 w2. simpl. split; [done|]. split; [by intros [? ?]|]. split.
    + intros k _. rewrite <- Hw1, <- Hc2.
      by destruct obj; rewrite ?set_pairs_constraints.
    + intros b link idx Hl Hidx. split.
      * intros ->. by apply set_pairs_lookup, Hin.
      * intros Hold Hne. unfold w2. rewrite Hold.
        destruct obj as [b1|]; simpl.
        -- rewrite set_pairs_lookup_ne by (apply Hnin; congruence).
           by apply set_pairs_lookup, Hin.
        -- by apply set_pairs_lookup, Hin.
Qed.

(** X23: a key of the frozen positions that is a name [int] does not
    convert makes the restore of the arm raise a [ValueError] half way: the
    held body, the counter and the freeze flag are those of the dump, the
    handle still is the old one although its constraint was removed, no
    constraint was created, and the collisions of the fingers with the body
    held before are enabled. *)
Theorem load_state_arm_bad_key arm robot_dump s obj counter freeze items
    name v :
  robot_dump !! ag_key arm "obj_in_hand" = Some (DInt obj) →
  robot_dump !! ag_key arm "release_counter" = Some (DInt counter) →
  robot_dump !! ag_key arm "freeze_gripper" = Some (DBool freeze) →
  robot_dump !! ag_key arm "freeze_joint_pos" = Some (DJointPos items) →
  (inl name, v) ∈ items →
  int_of_str name = None →
  ∃ s',
    load_state_arm env obs arm {| ManipulationRobot := Some robot_dump |} s
    = (Raise ValueError, s')
    ∧ ag s'
      = set_ag_freeze_gripper freeze
          (set_ag_release_counter counter (set_ag_obj_in_hand obj (ag s)))
    ∧ (∀ c, _ag_obj_cid (ag s) = Some c →
            _ag_obj_cid (ag s') = Some c ∧ constraints (world s') !! c = None)
    ∧ (∀ k, constraints (world s') !! k = None
            ∨ constraints (world s') !! k = constraints (world s) !! k)
    ∧ next_constraint (world s') = next_constraint (world s)
    ∧ (∀ b link idx,
         _ag_obj_in_hand (ag s) = Some b →
         link ∈ finger_links env arm →
         idx = -1 ∨ 0 ≤ idx < getNumJoints obs b →
         collision_filter (world s') !! (body_id link, b, link_id link, idx)
         = Some true).
Proof.
  intros H1 H2 H3 H4 Hin Hbad.
  unfold load_state_arm. unfold_M. simpl.
  rewrite H1, H2, H3, H4.
  rewrite !bool_decide_eq_true_2 by eauto. cbv beta iota.
  rewrite H1, H2, H3, H4.
  destruct s as [a w]. simpl.
  destruct (_ag_obj_cid a) as [c0|] eqn:Hc0;
    destruct (_ag_obj_in_hand a) as [b0|] eqn:Hb0;
    simpl; rewrite ?Hb0; simpl; rewrite ?set_coll_filter_eq; simpl.
  all: rewrite (int_keys_bad_key items [] _ name v Hin Hbad).
  all: eexists; split; [reflexivity|]; simpl.
  all: split; [done|].
  all: rewrite ?set_pairs_constraints, ?set_pairs_next_constraint; simpl.
  all: split; [intros c ?; simplify_eq;
               try (split; [done|apply lookup_delete_eq])|].
  all: split; [intros k; first
                 [by right
                 |destruct (decide (k = c0)) as [->|?];
                  [left; apply lookup_delete_eq
                  |right; by apply lookup_delete_ne]]|].
  all: split; [done|].
  all: intros b link idx ? Hl Hidx; simplify_eq.
  all: apply set_pairs_lookup, elem_of_coll_pairs; [done|].
  all: apply elem_of_cons; destruct Hidx as [->|?]; [by left|right].
  all: apply elem_of_seqZ; lia.
Qed.

Lemma dump_state_arm_ok arm s entries s1 :
  dump_state_arm env obs arm s = (Ok entries, s1) →
  ∃ p',
    s1 = {| ag := set_ag_obj_cid_params p' (ag s); world := world s |}
    ∧ entries
      = [(ag_key arm "obj_in_hand", DInt (_ag_obj_in_hand (ag s)));
         (ag_key arm "release_counter", DInt (_ag_release_counter (ag s)));
         (ag_key arm "freeze_gripper", DBool (_ag_freeze_gripper (ag s)));
         (ag_key arm "freeze_joint_pos",
          DJointPos (_ag_freeze_joint_pos (ag s)));
         (ag_key arm "obj_cid", DInt (_ag_obj_cid (ag s)));
         (ag_key arm "obj_cid_params", DParams p')]
    ∧ match _ag_obj_cid (ag s) with
      | None => p' = _ag_obj_cid_params (ag s)
      | Some _ =>
          ∃ b l,
            childBodyUniqueId (_ag_obj_cid_params (ag s)) = Some b
            ∧ childLinkIndex (_ag_obj_cid_params (ag s)) = Some l
            ∧ p' = let '(fp, fo) :=
                     get_child_frame_pose obs (body_id (eef_links env arm))
                       (link_id (eef_links env arm)) b l in
                   {| childBodyUniqueId := Some b;
                      childLinkIndex := Some l;
                      jointType := jointType (_ag_obj_cid_params (ag s));
                      maxForce := maxForce (_ag_obj_cid_params (ag s));
                      childFramePosition := Some fp;
                      childFrameOrientation := Some fo |}
      end.
Proof.
  unfold dump_state_arm. unfold_M. destruct s as [a w]. simpl.
  destruct (_ag_obj_cid a) as [c|] eqn:Hc; simpl.
  - destruct (childBodyUniqueId (_ag_obj_cid_params a)) as [b|] eqn:Hb;
      simpl; [|done].
    destruct (childLinkIndex (_ag_obj_cid_params a)) as [l|] eqn:Hl;
      simpl; [|done].
    destruct (get_child_frame_pose obs _ _ b l) as [fp fo] eqn:Hpose.
    simpl. intros [= <- <-]. eexists. split; [reflexivity|].
    rewrite Hc. split; [reflexivity|]. exists b, l. by rewrite Hpose.
  - intros [= <- <-]. exists (_ag_obj_cid_params a).
    rewrite Hc. split; [by destruct a|]. done.
Qed.

(** X24: the round trip of one arm: when the snapshot returns and the keys
    of the frozen positions convert, the restore of that snapshot returns
    and changes only the keys and the handle; for an arm with a handle the
    new constraint goes from the end effector to the recorded child, with
    the recorded kind and force and the child frame the snapshot computed,
    the old constraint is gone, and the collisions of the fingers with the
    held body are disabled. *)
Theorem snapshot_restore_arm arm s entries s1 robot_dump keys :
  dump_state_arm env obs arm s = (Ok entries, s1) →
  (∀ k v, (k, v) ∈ entries → robot_dump !! k = Some v) →
  int_keys (_ag_freeze_joint_pos (ag s)) [] () = (Ok keys, ()) →
  (is_Some (_ag_obj_cid (ag s)) →
   is_Some (jointType (_ag_obj_cid_params (ag s)))
   ∧ is_Some (maxForce (_ag_obj_cid_params (ag s)))) →
  ∃ s2,
    load_state_arm env obs arm {| ManipulationRobot := Some robot_dump |} s1
    = (Ok tt, s2)
    ∧ ag s2
      = set_ag_freeze_joint_pos keys
          (set_ag_obj_cid
             (_ag_obj_cid (ag s) ≫= λ _, Some (next_constraint (world s)))
             (ag s1))
    ∧ (∀ c, _ag_obj_cid (ag s) = Some c →
            ∃ con b l,
              constraints (world s2) !! next_constraint (world s) = Some con
              ∧ childBodyUniqueId (_ag_obj_cid_params (ag s)) = Some b
              ∧ childLinkIndex (_ag_obj_cid_params (ag s)) = Some l
              ∧ (c_parentBodyUniqueId con, c_parentLinkIndex con)
                = (body_id (eef_links env arm), link_id (eef_links env arm))
              ∧ (c_childBodyUniqueId con, c_childLinkIndex con) = (b, l)
              ∧ jointType (_ag_obj_cid_params (ag s)) = Some (c_jointType con)
              ∧ maxForce (_ag_obj_cid_params (ag s)) = c_maxForce con
              ∧ (c_childFramePosition con, c_childFrameOrientation con)
                = get_child_frame_pose obs (body_id (eef_links env arm))
                    (link_id (eef_links env arm)) b l
              ∧ (c ≠ next_constraint (world s) →
                 constraints (world s2) !! c = None))
    ∧ (∀ k, k ≠ next_constraint (world s) →
            _ag_obj_cid (ag s) ≠ Some k →
            constraints (world s2) !! k = constraints (world s) !! k)
    ∧ (∀ b link idx,
         _ag_obj_in_hand (ag s) = Some b →
         link ∈ finger_links env arm →
         idx = -1 ∨ 0 ≤ idx < getNumJoints obs b →
         collision_filter (world s2) !! (body_id link, b, link_id link, idx)
         = Some false).
Proof.
  intros Hdump Hsub Hkeys Hpar.
  destruct (dump_state_arm_ok arm s entries s1 Hdump)
    as (p' & -> & -> & Hp').
  assert (∀ b link idx,
            link ∈ finger_links env arm →
            idx = -1 ∨ 0 ≤ idx < getNumJoints obs b →
            (body_id link, b, link_id link, idx)
            ∈ coll_pairs obs b (finger_links env arm)) as Hin.
  { intros b link idx Hl Hidx. apply elem_of_coll_pairs; [done|].
    apply elem_of_cons. destruct Hidx as [->|?]; [by left|right].
    apply elem_of_seqZ. lia. }
  destruct s as [a w]. simpl in *.
  destruct (_ag_obj_cid a) as [c|] eqn:Hc.
  - destruct Hp' as (b & l & Hb & Hl & ->).
    destruct (Hpar ltac:(eauto)) as [[jt Hjt] [mf Hmf]].
    destruct (get_child_frame_pose obs _ _ b l) as [fp fo] eqn:Hpose.
    rewrite Hjt, Hmf in *.
    eexists. split.
    { eapply (load_state_arm_eq arm robot_dump _
                (_ag_obj_in_hand a) (_ag_release_counter a)
                (_ag_freeze_gripper a) (_ag_freeze_joint_pos a) keys
                (Some c)
                {| childBodyUniqueId := Some b;
                   childLinkIndex := Some l;
                   jointType := Some jt;
                   maxForce := Some mf;
                   childFramePosition := Some fp;
                   childFrameOrientation := Some fo |} b l jt mf fp fo);
        [apply Hsub; set_solver..|exact Hkeys|done]. }
    simpl. rewrite Hc. simpl.
    assert (next_constraint
              match _ag_obj_in_hand a with
              | Some b0 =>
                  set_pairs true (coll_pairs obs b0 (finger_links env arm))
                    (removeConstraint c w)
              | None => removeConstraint c w
              end = next_constraint w) as Hnext.
    { destruct (_ag_obj_in_hand a); by rewrite ?set_pairs_next_constraint. }
    assert (constraints
              match _ag_obj_in_hand a with
              | Some b0 =>
                  set_pairs true (coll_pairs obs b0 (finger_links env arm))
                    (removeConstraint c w)
              | None => removeConstraint c w
              end = delete c (constraints w)) as Hcons.
    { destruct (_ag_obj_in_hand a); by rewrite ?set_pairs_constraints. }
    rewrite Hnext. split; [by destruct a|]. split; [|split].
    + intros ? [= <-]. eexists _, b, l. split.
      { destruct (_ag_obj_in_hand a); rewrite ?set_pairs_constraints; simpl;
          rewrite ?Hnext, lookup_alter_eq, lookup_insert_eq; reflexivity. }
      simpl. repeat split; try done.
      intros Hne.
      destruct (_ag_obj_in_hand a) eqn:Hobj; rewrite ?set_pairs_constraints;
        simpl; rewrite ?Hnext, lookup_alter_ne, lookup_insert_ne by done;
        rewrite ?set_pairs_constraints; apply lookup_delete_eq.
    + intros k Hk Hnk.
      destruct (_ag_obj_in_hand a) eqn:Hobj; rewrite ?set_pairs_constraints;
        simpl; rewrite ?Hnext, lookup_alter_ne, lookup_insert_ne by done;
        rewrite ?set_pairs_constraints; apply lookup_delete_ne; congruence.
    + intros b0 link idx -> Hlink Hidx. by apply set_pairs_lookup, Hin.
  - subst p'. eexists. split.
    { eapply (load_state_arm_eq arm robot_dump _
               (_ag_obj_in_hand a) (_ag_release_counter a)
               (_ag_freeze_gripper a) (_ag_freeze_joint_pos a) keys
               None (_ag_obj_cid_params a) 0 0 JOINT_FIXED 0%float
               (0, 0, 0)%float unit_quat);
        [apply Hsub; set_solver..|exact Hkeys|by intros [? ?]]. }
    simpl. rewrite Hc. simpl.
    split; [by destruct a|]. split; [done|]. split.
    + intros k _ _.
      by destruct (_ag_obj_in_hand a); rewrite ?set_pairs_constraints.
    + intros b0 link idx -> Hlink Hidx. by apply set_pairs_lookup, Hin.
Qed.

End Snapshot.

Lemma load_state_missing_entry_witness :
  let env := Example.robot sticky in
  let obs := Example.scene 5 0 in
  let r := run env [(obs, Example.close)] (Example.start sticky) in
  ∃ r',
    load_state env obs {| ManipulationRobot := None |} r = (Raise KeyError, r')
    ∧ ags r' !! "0"%string = Some (Scenes.holding 5 1)
    ∧ constraints (rworld r') = ∅.
Proof.
  intros env obs r.
  destruct (load_state_missing_entry env obs "0" [] r (Scenes.holding 5 1) 1 5)
    as [_ (r' & Hload & Hags & Hcon & _)].
  - done.
  - reflexivity.
  - vm_compute. reflexivity.
  - reflexivity.
  - reflexivity.
  - exists r'. split; [exact Hload|]. split.
    + rewrite Hags. vm_compute. reflexivity.
    + rewrite Hcon. vm_compute. reflexivity.
Defined.

Lemma load_state_arm_restores_witness :
  let items := [(inl "8"%string, 0.02%float); (inl "9"%string, 0.02%float)] in
  ∃ s',
    load_state_arm (Example.robot sticky) (Example.scene 5 0) "0"
      {| ManipulationRobot := Some (Scenes.snapshot items) |}
      {| ag := AG_init; world := Example.engine0 |}
    = (Ok tt, s')
    ∧ _ag_obj_cid (ag s') = Some 1
    ∧ _ag_freeze_joint_pos (ag s') = [(inr 8, 0.02%float); (inr 9, 0.02%float)].
Proof.
  intros items.
  destruct (load_state_arm_restores (Example.robot sticky) (Example.scene 5 0)
              "0" (Scenes.snapshot items)
              {| ag := AG_init; world := Example.engine0 |}
              (Some 5) None (Some true) items
              [(inr 8, 0.02%float); (inr 9, 0.02%float)] (Some 1)
              {| childBodyUniqueId := Some 5;
                 childLinkIndex := Some (-1);
                 jointType := Some JOINT_FIXED;
                 maxForce := Some 500%float;
                 childFramePosition := Some Example.zero3;
                 childFrameOrientation := Some unit_quat |})
    as (s' & Hload & Hag & _).
  1-7: vm_compute; reflexivity.
  - intros _. simpl. repeat split; by eexists.
  - exists s'. split; [exact Hload|]. rewrite Hag.
    split; vm_compute; reflexivity.
Defined.

Lemma load_state_arm_bad_key_witness :
  let items := [(inl "l_finger_joint"%string, 0.02%float)] in
  ∃ s',
    load_state_arm (Example.robot sticky) (Example.scene 5 0) "0"
      {| ManipulationRobot := Some (Scenes.snapshot items) |}
      {| ag := Scenes.holding 6 1; world := Example.engine0 |}
    = (Raise ValueError, s')
    ∧ _ag_obj_in_hand (ag s') = Some 5
    ∧ _ag_obj_cid (ag s') = Some 1
    ∧ constraints (world s') !! 1 = None.
Proof.
  intros items.
  destruct (load_state_arm_bad_key (Example.robot sticky) (Example.scene 5 0)
              "0" (Scenes.snapshot items)
              {| ag := Scenes.holding 6 1; world := Example.engine0 |}
              (Some 5) None (Some true) items "l_finger_joint" 0.02%float)
    as (s' & Hload & Hag & Hcid & _).
  1-4: vm_compute; reflexivity.
  - by apply list_elem_of_singleton.
  - vm_compute. reflexivity.
  - exists s'. split; [exact Hload|]. split; [by rewrite Hag|].
    exact (Hcid 1 eq_refl).
Defined.

Lemma snapshot_restore_arm_witness :
  let env := Example.robot_named sticky (Some TypeError) [1] "8" "9" in
  let obs := Example.scene 5 0 in
  let s := (_handle_assisted_grasping_arm env obs "0" Example.close
              {| ag := AG_init; world := Example.engine0 |}).2 in
  let entries := Example.returned [] (dump_state_arm env obs "0" s).1 in
  let s1 := (dump_state_arm env obs "0" s).2 in
  ∃ s2 con,
    load_state_arm env obs "0"
      {| ManipulationRobot := Some (list_to_map entries) |} s1
    = (Ok tt, s2)
    ∧ _ag_obj_cid (ag s2) = Some 2
    ∧ constraints (world s2) !! 2 = Some con
    ∧ c_jointType con = JOINT_FIXED
    ∧ c_maxForce con = Some 500%float
    ∧ constraints (world s2) !! 1 = None.
Proof.
  intros env obs s entries s1.
  destruct (snapshot_restore_arm env obs "0" s entries s1
              (list_to_map entries)
              [(inr 8, 0.02%float); (inr 9, 0.02%float)])
    as (s2 & Hload & Hag & Hcon & _).
  - vm_compute. reflexivity.
  - intros k v Hin.
    unfold entries in Hin. vm_compute in Hin.
    repeat (apply elem_of_cons in Hin as [[= -> ->]|Hin];
            [vm_compute; reflexivity|]).
    by apply elem_of_nil in Hin.
  - vm_compute. reflexivity.
  - intros _. split; eexists; vm_compute; reflexivity.
  - destruct (Hcon 1 ltac:(vm_compute; reflexivity))
      as (con & b & l & Hlk & _ & _ & _ & _ & Hjt & Hmf & _ & Hold).
    exists s2, con. split; [exact Hload|].
    split; [rewrite Hag; vm_compute; reflexivity|].
    split; [exact Hlk|].
    assert (jointType (_ag_obj_cid_params (ag s)) = Some JOINT_FIXED) as Hjt'
      by (vm_compute; reflexivity).
    assert (maxForce (_ag_obj_cid_params (ag s)) = Some 500%float) as Hmf'
      by (vm_compute; reflexivity).
    split; [congruence|]. split; [congruence|].
    apply Hold. vm_compute. discriminate.
Defined.

(** ** The handles and the constraints of the engine *)

Section Handles.

Variable env : Env.
Variable obs : Obs.

Lemma handle_change_refl arm s : handle_change env arm s s.
Proof. apply handle_kept; auto. Qed.

Lemma establish_grasp_change arm data s :
  arm ≠ "default"%string →
  handle_change env arm s (_establish_grasp env obs arm data s).2.
Proof.
  intros Harm. unfold _establish_grasp. unfold_M.
  rewrite resolve_arm_id by done. simpl.
  destruct data as [[ag_bid ag_link]|]; [|apply handle_change_refl].
  destruct (find_contact_pos _ _) as [contact_pos|];
    [|apply handle_change_refl].
  destruct_poses. simpl.
  rewrite set_coll_filter_eq. simpl.
  rewrite (freeze_loop_eq obs) by done. simpl.
  eapply handle_created; simpl.
  - rewrite set_pairs_constraints. simpl. apply alter_insert_eq.
  - by rewrite set_pairs_next_constraint.
  - done.
  - intros c [= <-]. eexists _, ag_bid, ag_link, _.
    rewrite set_pairs_constraints. simpl.
    rewrite lookup_alter_eq, lookup_insert_eq. simpl.
    repeat split; reflexivity.
Qed.

Lemma handle_change_data arm data s s' :
  handle_change env arm
    {| ag := set_ag_data data (ag s); world := world s |} s' →
  handle_change env arm s s'.
Proof.
  intros [H1 H2 H3 H4 | H1 H2 H3 | con H1 H2 H3 H4]; simpl in *.
  - by apply handle_kept.
  - by apply handle_dropped.
  - by eapply handle_created.
Qed.

Lemma release_grasp_change arm s :
  arm ≠ "default"%string →
  handle_change env arm s (_release_grasp env arm s).2.
Proof.
  intros Harm. unfold _release_grasp. unfold_M.
  rewrite resolve_arm_id by done. simpl.
  destruct (_ag_obj_cid (ag s)) as [c|] eqn:Hc; simpl.
  - apply handle_dropped; simpl; by rewrite ?Hc.
  - destruct (removeConstraint_None env); simpl;
      [apply handle_change_refl|].
    apply handle_dropped; simpl; by rewrite ?Hc.
Qed.

Lemma handle_arm_change arm action s :
  arm ≠ "default"%string →
  lifecycle_inv (ag s) →
  handle_change env arm s
    (_handle_assisted_grasping_arm env obs arm action s).2.
Proof.
  intros Harm Hinv. unfold _handle_assisted_grasping_arm, controller_mode,
    gripper_command. unfold_M.
  destruct (gripper_controller obs arm) as [| |mode ? ? ?|];
    try apply handle_change_refl.
  simpl. destruct (String.eqb mode "binary"); [|apply handle_change_refl].
  simpl. destruct (action !! controller_action_idx env arm) as [a|];
    [|apply handle_change_refl].
  simpl. destruct (truthy_int (_ag_obj_in_hand (ag s))) eqn:Hobj.
  - destruct (_ag_obj_in_hand (ag s)) as [b|] eqn:Hb; [|done].
    destruct (_ag_release_counter (ag s)) as [c|] eqn:Hcnt; simpl.
    + rewrite (handle_release_window_eq env obs arm s c b) by done.
      assert (_ag_obj_cid (ag s) = None) as Hnone.
      { destruct (_ag_obj_cid (ag s)) eqn:Hcid; [|done].
        destruct (proj1 (inv_cid _ Hinv)) as [_ Hn]; [by eexists|].
        congruence. }
      simpl. destruct (_ <=? _)%float; simpl.
      * apply handle_kept; simpl; rewrite ?set_pairs_constraints,
          ?set_pairs_next_constraint; auto.
      * apply handle_kept; simpl; auto.
    + destruct (_ || _); [|apply handle_change_refl].
      by apply release_grasp_change.
  - destruct (_ <? _)%float; [|apply handle_change_refl].
    pose proof (reads_only_calculate env obs arm s) as Hr.
    destruct (_calculate_in_hand_object env obs arm s) as [[data|e] s1];
      simpl in *; subst s1; [|apply handle_change_refl].
    apply (handle_change_data arm data). by apply establish_grasp_change.
Qed.

Lemma freeze_gripper_change arm s :
  handle_change env arm s (_freeze_gripper env arm s).2.
Proof.
  assert (constraints (world (_freeze_gripper env arm s).2)
          = constraints (world s)
          ∧ next_constraint (world (_freeze_gripper env arm s).2)
            = next_constraint (world s)) as [Hc Hn].
  { unfold _freeze_gripper.
    apply (bind_preserves
             (λ s', constraints (world s') = constraints (world s)
                    ∧ next_constraint (world s') = next_constraint (world s)));
      [intros s0 H0; by rewrite reads_only_resolve_arm| |done].
    intros _ s0 H0. unfold_M. simpl.
    apply (for_each_preserves
             (λ s', constraints (world s') = constraints (world s)
                    ∧ next_constraint (world s') = next_constraint (world s)));
      [|done].
    intros [key v] s1 H1. unfold_M.
    destruct key as [name|z]; [|done].
    by destruct (_joints env !! name). }
  pose proof (keeps_ag_freeze_gripper env arm s) as Hag.
  apply handle_kept; auto; rewrite Hag; auto.
Qed.

Lemma on_arm_handles {A} arm (m : M ArmState A) r :
  (∀ s, lifecycle_inv (ag s) → handle_change env arm s (m s).2) →
  (∀ s, lifecycle_inv (ag s) → lifecycle_inv (ag (m s).2)) →
  handles_ok env r → handles_ok env (on_arm arm m r).2.
Proof.
  intros Hm Hlife [Hids Hatt Hdis Hinv]. unfold on_arm.
  destruct (ags r !! arm) as [a|] eqn:Ha; [|done].
  specialize (Hm {| ag := a; world := rworld r |} (Hinv _ _ Ha)).
  specialize (Hlife {| ag := a; world := rworld r |} (Hinv _ _ Ha)).
  destruct (m _) as [o s']. simpl in *.
  pose proof (Hatt _ _ Ha) as Hatt_a.
  destruct Hm as [H1 H2 H3 H4 | H1 H2 H3 | con H1 H2 H3 H4]; simpl in *.
  - split; simpl.
    + intros k. rewrite H1, H2. apply Hids.
    + intros arm0 a0 Hl0. destruct (decide (arm0 = arm)) as [->|Hne].
      * rewrite lookup_insert_eq in Hl0. simplify_eq.
        intros c Hc. rewrite H3 in Hc.
        destruct H4 as [Hn|[Hp Ho]]; [congruence|].
        rewrite H1, Hp, Ho. by apply Hatt_a.
      * rewrite lookup_insert_ne in Hl0 by done.
        intros c Hc. rewrite H1. by apply (Hatt arm0).
    + intros arm1 arm2 a1 a2 c Hne Hl1 Hl2 Hc1 Hc2.
      assert (∀ arm0 a0, <[arm:=ag s']> (ags r) !! arm0 = Some a0 →
                ∃ a0', ags r !! arm0 = Some a0'
                       ∧ _ag_obj_cid a0' = _ag_obj_cid a0) as Hold.
      { intros arm0 a0 Hl0. destruct (decide (arm0 = arm)) as [->|Hne'].
        - rewrite lookup_insert_eq in Hl0. simplify_eq. eauto.
        - rewrite lookup_insert_ne in Hl0 by done. eauto. }
      destruct (Hold _ _ Hl1) as (a1' & Hl1' & Hc1').
      destruct (Hold _ _ Hl2) as (a2' & Hl2' & Hc2').
      eapply (Hdis arm1 arm2 a1' a2' c); congruence.
    + by apply map_Forall_insert_2.
  - split; simpl.
    + intros k Hk. rewrite H2. apply Hids. rewrite H1 in Hk.
      destruct (_ag_obj_cid a); [|done].
      apply lookup_delete_is_Some in Hk. tauto.
    + intros arm0 a0 Hl0. destruct (decide (arm0 = arm)) as [->|Hne].
      * rewrite lookup_insert_eq in Hl0. simplify_eq.
        intros c Hc. congruence.
      * rewrite lookup_insert_ne in Hl0 by done.
        intros c Hc. rewrite H1.
        destruct (Hatt arm0 a0 Hl0 c Hc) as (con & b & l & jt & Hcon & Hrest).
        exists con, b, l, jt. split; [|done].
        destruct (_ag_obj_cid a) as [c0|] eqn:Hc0; [|done].
        rewrite lookup_delete_ne; [done|].
        intros ->. by apply (Hdis arm arm0 a a0 c).
    + intros arm1 arm2 a1 a2 c Hne Hl1 Hl2 Hc1 Hc2.
      destruct (decide (arm1 = arm)) as [->|Hne1].
      { rewrite lookup_insert_eq in Hl1. by simplify_eq. }
      destruct (decide (arm2 = arm)) as [->|Hne2].
      { rewrite lookup_insert_eq in Hl2. by simplify_eq. }
      rewrite lookup_insert_ne in Hl1, Hl2 by done.
      by apply (Hdis arm1 arm2 a1 a2 c).
    + by apply map_Forall_insert_2.
  - assert (∀ arm0 a0 c, ags r !! arm0 = Some a0 → _ag_obj_cid a0 = Some c →
              c ≠ next_constraint (rworld r)) as Hfresh.
    { intros arm0 a0 c Hl0 Hc.
      destruct (Hatt arm0 a0 Hl0 c Hc) as (con0 & ? & ? & ? & Hcon0 & _).
      specialize (Hids c ltac:(by eexists)). lia. }
    split; simpl.
    + intros k Hk. rewrite H2. rewrite H1 in Hk.
      apply lookup_insert_is_Some in Hk as [<-|[_ Hk]]; [lia|].
      specialize (Hids k Hk). lia.
    + intros arm0 a0 Hl0. destruct (decide (arm0 = arm)) as [->|Hne].
      * rewrite lookup_insert_eq in Hl0. by simplify_eq.
      * rewrite lookup_insert_ne in Hl0 by done.
        intros c Hc. rewrite H1.
        destruct (Hatt arm0 a0 Hl0 c Hc) as (con0 & b & l & jt & Hcon & Hrest).
        exists con0, b, l, jt. split; [|done].
        rewrite lookup_insert_ne; [done|].
        intros Heq. by apply (Hfresh arm0 a0 c).
    + intros arm1 arm2 a1 a2 c Hne Hl1 Hl2 Hc1 Hc2.
      destruct (decide (arm1 = arm)) as [->|Hne1].
      { rewrite lookup_insert_eq in Hl1. injection Hl1 as <-.
        rewrite lookup_insert_ne in Hl2 by done.
        apply (Hfresh arm2 a2 c Hl2 Hc2). congruence. }
      rewrite lookup_insert_ne in Hl1 by done.
      destruct (decide (arm2 = arm)) as [->|Hne2].
      { rewrite lookup_insert_eq in Hl2. injection Hl2 as <-.
        apply (Hfresh arm1 a1 c Hl1 Hc1). congruence. }
      rewrite lookup_insert_ne in Hl2 by done.
      by apply (Hdis arm1 arm2 a1 a2 c).
    + by apply map_Forall_insert_2.
Qed.

End Handles.

Lemma for_each_preserves_in {S A} (I : S → Prop) (xs : list A) body :
  (∀ x s, x ∈ xs → I s → I (body x s).2) →
  ∀ s, I s → I (for_each xs body s).2.
Proof.
  induction xs as [|x xs IH]; intros Hb s Hs; [done|].
  simpl. unfold Py.bind.
  pose proof (Hb x s ltac:(by left) Hs) as Hx.
  destruct (body x s) as [[[]|e] s']; simpl in *; [|done].
  apply IH; [|done]. intros y s0 Hy. apply Hb. by right.
Qed.

Lemma apply_action_handles env obs action r :
  "default"%string ∉ arm_names env →
  handles_ok env r → handles_ok env (apply_action env obs action r).2.
Proof.
  intros Hdef. unfold apply_action.
  apply (bind_preserves (handles_ok env)).
  - intros r' Hr'. destruct (decide _); [|done].
    apply (for_each_preserves_in (handles_ok env)); [|done].
    intros arm r'' Hin Hr''.
    assert (arm ≠ "default"%string) as Harm by (intros ->; done).
    apply on_arm_handles; [| |done].
    + intros s Hs. by apply handle_arm_change.
    + intros s Hs. by apply handle_arm_inv.
  - intros _. apply (for_each_preserves (handles_ok env)).
    intros arm r' Hr'. apply on_arm_handles; [| |done].
    + intros s Hs. unfold_M. simpl.
      destruct (truthy_bool _); [|apply handle_change_refl].
      apply freeze_gripper_change.
    + intros s Hs. unfold_M. simpl. destruct (truthy_bool _); [|done].
      by rewrite keeps_ag_freeze_gripper.
Qed.

Lemma Robot_init_handles env arms w :
  (∀ k, is_Some (constraints w !! k) → k < next_constraint w) →
  handles_ok env (Robot_init arms w).
Proof.
  intros Hw.
  assert (∀ arm a, ags (Robot_init arms w) !! arm = Some a → a = AG_init)
    as Hinit.
  { intros arm a Ha.
    pose proof (Robot_init_inv arms w) as _.
    unfold Robot_init in Ha. simpl in Ha.
    apply elem_of_list_to_map_2 in Ha.
    apply list_elem_of_fmap in Ha as (? & [= _ ->] & _). done. }
  split.
  - done.
  - intros arm a Ha c Hc. apply Hinit in Ha as ->. done.
  - intros arm1 arm2 a1 a2 c _ Ha1 _ Hc. apply Hinit in Ha1 as ->. done.
  - apply Robot_init_inv.
Qed.

Lemma run_handles env inputs r :
  "default"%string ∉ arm_names env →
  handles_ok env r → handles_ok env (run env inputs r).
Proof.
  intros Hdef. revert r.
  induction inputs as [|[obs action] inputs IH]; intros r Hr; [done|].
  simpl. apply IH. by apply apply_action_handles.
Qed.

(** X25: after every run from the initial state on an engine whose
    constraint ids are below its next id, the handle of every arm names a
    constraint that is in the engine: it goes from the end effector of the
    arm to the body the arm holds, at the link, with the kind and with the
    force that the parameters record, the force being the one
    [_establish_grasp] gives that kind; the handle is below the next id of
    the engine, and no other arm has the same handle. *)
Theorem handles_are_live env inputs w arm a c :
  "default"%string ∉ arm_names env →
  (∀ k, is_Some (constraints w !! k) → k < next_constraint w) →
  let r := run env inputs (Robot_init (arm_names env) w) in
  ags r !! arm = Some a →
  _ag_obj_cid a = Some c →
  (∃ con b l jt,
     constraints (rworld r) !! c = Some con
     ∧ _ag_obj_in_hand a = Some b
     ∧ _ag_obj_cid_params a
       = {| childBodyUniqueId := Some b;
            childLinkIndex := Some l;
            jointType := Some jt;
            maxForce := Some (grasp_max_force jt);
            childFramePosition := childFramePosition (_ag_obj_cid_params a);
            childFrameOrientation :=
              childFrameOrientation (_ag_obj_cid_params a) |}
     ∧ (c_parentBodyUniqueId con, c_parentLinkIndex con)
       = (body_id (eef_links env arm), link_id (eef_links env arm))
     ∧ (c_childBodyUniqueId con, c_childLinkIndex con) = (b, l)
     ∧ c_jointType con = jt
     ∧ c_maxForce con = Some (grasp_max_force jt))
  ∧ c < next_constraint (rworld r)
  ∧ ∀ arm' a', arm' ≠ arm → ags r !! arm' = Some a' → _ag_obj_cid a' ≠ Some c.
Proof.
  intros Hdef Hw r Ha Hc.
  destruct (run_handles env inputs (Robot_init (arm_names env) w) Hdef
              (Robot_init_handles env _ w Hw)) as [Hids Hatt Hdis _].
  fold r in Hids, Hatt, Hdis.
  destruct (Hatt arm a Ha c Hc)
    as (con & b & l & jt & Hcon & Hb & Hpb & Hpl & Hpj & Hpm & Hpar & Hch
        & Hjt & Hmf).
  split; [|split].
  - exists con, b, l, jt. split; [done|]. split; [done|].
    split; [|done]. destruct (_ag_obj_cid_params a). simpl in *. congruence.
  - apply Hids. by eexists.
  - intros arm' a' Hne Ha' Hc'. by apply (Hdis arm arm' a a' c).
Qed.

Lemma handles_are_live_witness :
  let env := Example.robot sticky in
  let r := run env [(Example.scene 5 0, Example.close)]
             (Robot_init (arm_names env) Example.engine0) in
  ∃ con,
    constraints (rworld r) !! 1 = Some con
    ∧ c_childBodyUniqueId con = 5
    ∧ c_jointType con = JOINT_FIXED.
Proof.
  intros env r.
  destruct (handles_are_live env [(Example.scene 5 0, Example.close)]
              Example.engine0 "0" (Scenes.holding 5 1) 1)
    as [(con & b & l & jt & Hcon & Hb & Hp & _ & Hch & Hjt & _) _].
  - cbn. by intros [=]%list_elem_of_singleton.
  - intros k [x Hx]. vm_compute in Hx. discriminate Hx.
  - vm_compute. reflexivity.
  - reflexivity.
  - exists con. split; [exact Hcon|].
    injection Hb as <-. injection Hch as -> _. split; [done|].
    assert (jointType (_ag_obj_cid_params (Scenes.holding 5 1)) = Some jt)
      as Hj by (rewrite Hp; reflexivity).
    injection Hj as <-. exact Hjt.
Defined.

(** ** The frozen positions after runs *)

Lemma elem_of_dict_set {K V} `{EqDecision K} (k : K) (x : V) d key v :
  (key, v) ∈ dict_set k x d → (key = k ∧ v = x) ∨ (key, v) ∈ d.
Proof.
  induction d as [|[k' v'] d IH]; simpl.
  - intros [= -> ->]%list_elem_of_singleton. by left.
  - destruct (decide (k = k')) as [->|Hne].
    + intros [[= -> ->]|Hin]%elem_of_cons; [by left|right; by right].
    + intros [[= -> ->]|Hin]%elem_of_cons; [right; by left|].
      destruct (IH Hin) as [?|?]; [by left|right; by right].
Qed.

Lemma dict_set_key {K V} `{EqDecision K} (k : K) (x : V) d :
  (k, x) ∈ dict_set k x d.
Proof.
  induction d as [|[k' v'] d IH]; simpl; [by left|].
  destruct (decide (k = k')) as [->|Hne]; [by left|by right].
Qed.

Lemma dict_set_keeps {K V} `{EqDecision K} (k : K) (x : V) d key v :
  (key, v) ∈ d → ∃ v', (key, v') ∈ dict_set k x d.
Proof.
  induction d as [|[k' v'] d IH]; simpl; [by intros ?%elem_of_nil|].
  intros [[= -> ->]|Hin]%elem_of_cons.
  - destruct (decide (k = k')) as [->|Hne]; eexists; by left.
  - destruct (IH Hin) as [v1 Hv1].
    destruct (decide (k = k')) as [->|Hne].
    + exists v. by right.
    + exists v1. by right.
Qed.

Section Frozen.

Variable env : Env.
Variable obs : Obs.

Lemma frozen_positions_keys joints d key v :
  (key, v) ∈ frozen_positions obs joints d →
  (∃ joint, joint ∈ joints ∧ key = inl (joint_name joint)) ∨ (key, v) ∈ d.
Proof.
  unfold frozen_positions. revert d.
  induction joints as [|j joints IH]; intros d Hin; simpl in *; [by right|].
  destruct (IH _ Hin) as [(joint & Hj & ->)|Hd].
  - left. exists joint. split; [by right|done].
  - apply elem_of_dict_set in Hd as [[-> _]|Hd]; [|by right].
    left. exists j. split; [by left|done].
Qed.

Lemma frozen_positions_keeps joints d key v :
  (key, v) ∈ d → ∃ v', (key, v') ∈ frozen_positions obs joints d.
Proof.
  unfold frozen_positions. revert d v.
  induction joints as [|j joints IH]; intros d v Hin; simpl; [by eexists|].
  destruct (dict_set_keeps (inl (joint_name j))
              (get_state_position obs (joint_name j)) d key v Hin) as [v1 H1].
  by apply (IH _ v1).
Qed.

Lemma frozen_positions_all joints d joint :
  joint ∈ joints →
  ∃ v, (inl (joint_name joint), v) ∈ frozen_positions obs joints d.
Proof.
  unfold frozen_positions. revert d.
  induction joints as [|j joints IH]; intros d Hin; simpl.
  { by apply elem_of_nil in Hin. }
  apply elem_of_cons in Hin as [->|Hin]; [|by apply IH].
  apply (frozen_positions_keeps joints _ _
           (get_state_position obs (joint_name j))).
  apply dict_set_key.
Qed.

Lemma handle_arm_frozen arm action s :
  arm ≠ "default"%string →
  frozen_ok env arm (ag s) →
  frozen_ok env arm (ag (_handle_assisted_grasping_arm env obs arm action s).2).
Proof.
  intros Harm Hok. unfold _handle_assisted_grasping_arm, controller_mode,
    gripper_command. unfold_M.
  destruct (gripper_controller obs arm) as [| |mode ? ? ?|]; try done.
  simpl. destruct (String.eqb mode "binary"); [|done]. simpl.
  destruct (action !! controller_action_idx env arm) as [a|]; [|done].
  simpl. destruct (truthy_int (_ag_obj_in_hand (ag s))) eqn:Hobj.
  - assert (is_Some (_ag_obj_in_hand (ag s))) as Hsome.
    { destruct (_ag_obj_in_hand (ag s)); [by eexists|done]. }
    destruct Hok as [Hkeys Hall]. specialize (Hall (or_intror Hsome)).
    destruct (is_not_None (_ag_release_counter (ag s))) eqn:Hcnt.
    + destruct (handle_release_window_ag env obs arm s)
        as [-> | [(c & Hc & ->) | (c & Hc & ->)]]; by split.
    + destruct (_ || _); [|by split].
      destruct (release_grasp_ag env arm s) as [-> | ->]; by split.
  - destruct (_ <? _)%float; [|done].
    pose proof (reads_only_calculate env obs arm s) as Hr.
    destruct (_calculate_in_hand_object env obs arm s) as [[data|e] s1];
      simpl in *; subst s1; [|done].
    unfold _establish_grasp. unfold_M.
    rewrite resolve_arm_id by done. simpl.
    destruct data as [[ag_bid ag_link]|]; [|by destruct Hok].
    destruct (find_contact_pos _ _) as [contact_pos|]; [|by destruct Hok].
    destruct_poses. simpl.
    rewrite set_coll_filter_eq. simpl.
    rewrite (freeze_loop_eq obs) by done. simpl.
    destruct Hok as [Hkeys Hall]. split; simpl.
    + intros key val Hin.
      apply frozen_positions_keys in Hin as [?|Hin]; [done|].
      by apply (Hkeys key val).
    + intros _ joint Hj. by apply frozen_positions_all.
Qed.

End Frozen.

Lemma on_arm_preserves_named {A} (P : string → AG → Prop) arm
    (m : M ArmState A) :
  (∀ s, P arm (ag s) → P arm (ag (m s).2)) →
  ∀ r, map_Forall P (ags r) → map_Forall P (ags (on_arm arm m r).2).
Proof.
  intros Hm r Hr. unfold on_arm.
  destruct (ags r !! arm) as [a|] eqn:Ha; [|done].
  specialize (Hm {| ag := a; world := rworld r |} (Hr _ _ Ha)).
  destruct (m _) as [o s']; simpl in *.
  by apply map_Forall_insert_2.
Qed.

Lemma apply_action_frozen env obs action r :
  "default"%string ∉ arm_names env →
  map_Forall (frozen_ok env) (ags r) →
  map_Forall (frozen_ok env) (ags (apply_action env obs action r).2).
Proof.
  intros Hdef. unfold apply_action.
  apply (bind_preserves (λ r, map_Forall (frozen_ok env) (ags r))).
  - intros r' Hr'. destruct (decide _); [|done].
    apply (for_each_preserves_in
             (λ r, map_Forall (frozen_ok env) (ags r))); [|done].
    intros arm r'' Hin Hr''.
    assert (arm ≠ "default"%string) as Harm by (intros ->; done).
    apply on_arm_preserves_named; [|done].
    intros s. by apply handle_arm_frozen.
  - intros _.
    apply (for_each_preserves (λ r, map_Forall (frozen_ok env) (ags r))).
    intros arm r' Hr'. apply on_arm_preserves_named; [|done].
    intros s Hs. unfold_M. simpl. destruct (truthy_bool _); [|done].
    by rewrite keeps_ag_freeze_gripper.
Qed.

Lemma run_frozen env inputs r :
  "default"%string ∉ arm_names env →
  map_Forall (frozen_ok env) (ags r) →
  map_Forall (frozen_ok env) (ags (run env inputs r)).
Proof.
  intros Hdef. revert r.
  induction inputs as [|[obs action] inputs IH]; intros r Hr; [done|].
  simpl. apply IH. by apply apply_action_frozen.
Qed.

Lemma Robot_init_frozen env arms w :
  map_Forall (frozen_ok env) (ags (Robot_init arms w)).
Proof.
  intros arm a Ha. unfold Robot_init in Ha. simpl in Ha.
  apply elem_of_list_to_map_2 in Ha.
  apply list_elem_of_fmap in Ha as (? & [= _ ->] & _).
  split; simpl.
  - by intros key v ?%elem_of_nil.
  - intros [?|[? ?]]; done.
Qed.

(** X26: after every run from the initial state, every key of the frozen
    positions of an arm is the name of a finger joint of that arm, and once
    the arm has grasped (its freeze flag is set, or it holds a body) every
    finger joint has an entry; so [_freeze_gripper] returns on that arm when
    the finger joints are joints of the robot, and changes no field. *)
Theorem frozen_keys_after_run env inputs w arm a :
  "default"%string ∉ arm_names env →
  ags (run env inputs (Robot_init (arm_names env) w)) !! arm = Some a →
  (∀ key v, (key, v) ∈ _ag_freeze_joint_pos a →
            ∃ joint, joint ∈ finger_joints env arm
                     ∧ key = inl (joint_name joint))
  ∧ (_ag_freeze_gripper a ≠ None ∨ is_Some (_ag_obj_in_hand a) →
     ∀ joint, joint ∈ finger_joints env arm →
              ∃ v, (inl (joint_name joint), v) ∈ _ag_freeze_joint_pos a)
  ∧ ((∀ joint, joint ∈ finger_joints env arm →
               is_Some (_joints env !! joint_name joint)) →
     ∀ w', ∃ w'', _freeze_gripper env arm {| ag := a; world := w' |}
                  = (Ok tt, {| ag := a; world := w'' |})).
Proof.
  intros Hdef Ha.
  assert (arm ≠ "default"%string) as Harm.
  { intros ->. apply Hdef.
    assert ("default"%string ∈ dom (ags (Robot_init (arm_names env) w)))
      as Hdom by (rewrite <- (run_dom env inputs); by apply elem_of_dom).
    apply elem_of_dom in Hdom as [a0 Ha0].
    unfold Robot_init in Ha0. simpl in Ha0.
    apply elem_of_list_to_map_2 in Ha0.
    by apply list_elem_of_fmap in Ha0 as (? & [= <- _] & ?). }
  destruct (run_frozen env inputs _ Hdef (Robot_init_frozen env _ w) arm a Ha)
    as [Hkeys Hall].
  split; [done|]. split; [done|].
  intros Hjoints w'. eexists.
  apply (freeze_gripper_eq env arm {| ag := a; world := w' |} Harm).
  intros key v Hin. destruct (Hkeys key v Hin) as (joint & Hj & ->).
  exists (joint_name joint). split; [done|]. by apply Hjoints.
Qed.

Lemma load_state_arm_raises env obs arm robot_dump s obj counter freeze items
    name v :
  robot_dump !! ag_key arm "obj_in_hand" = Some (DInt obj) →
  robot_dump !! ag_key arm "release_counter" = Some (DInt counter) →
  robot_dump !! ag_key arm "freeze_gripper" = Some (DBool freeze) →
  robot_dump !! ag_key arm "freeze_joint_pos" = Some (DJointPos items) →
  (inl name, v) ∈ items →
  int_of_str name = None →
  (load_state_arm env obs arm {| ManipulationRobot := Some robot_dump |} s).1
  = Raise ValueError.
Proof.
  intros H1 H2 H3 H4 Hin Hbad.
  unfold load_state_arm. unfold_M. simpl.
  rewrite H1, H2, H3, H4.
  rewrite !bool_decide_eq_true_2 by eauto. cbv beta iota.
  rewrite H1, H2, H3, H4.
  destruct s as [a w]. simpl.
  destruct (_ag_obj_cid a) as [c0|];
    destruct (_ag_obj_in_hand a) as [b0|] eqn:Hb0;
    simpl; rewrite ?Hb0; simpl; rewrite ?set_coll_filter_eq; simpl.
  all: by rewrite (int_keys_bad_key items [] _ name v Hin Hbad).
Qed.

(** X27: after every run from the initial state, for an arm that has
    grasped and has a finger joint whose name [int] does not convert: the
    snapshot of the arm returns, and the restore of a dump that holds the
    entries of that snapshot raises a [ValueError], whatever the state of
    the arm it is restored on. *)
Theorem restore_after_grasp_raises env inputs w arm a joint obs :
  "default"%string ∉ arm_names env →
  (∀ k, is_Some (constraints w !! k) → k < next_constraint w) →
  let r := run env inputs (Robot_init (arm_names env) w) in
  ags r !! arm = Some a →
  _ag_freeze_gripper a ≠ None ∨ is_Some (_ag_obj_in_hand a) →
  joint ∈ finger_joints env arm →
  int_of_str (joint_name joint) = None →
  ∃ entries s1,
    dump_state_arm env obs arm {| ag := a; world := rworld r |}
    = (Ok entries, s1)
    ∧ ∀ robot_dump s,
        (∀ k v, (k, v) ∈ entries → robot_dump !! k = Some v) →
        ∃ s2,
          load_state_arm env obs arm
            {| ManipulationRobot := Some robot_dump |} s
          = (Raise ValueError, s2).
Proof.
  intros Hdef Hw r Ha Hgrasped Hjoint Hname.
  destruct (run_handles env inputs (Robot_init (arm_names env) w) Hdef
              (Robot_init_handles env _ w Hw)) as [_ Hatt _ _].
  specialize (Hatt arm a Ha).
  destruct (run_frozen env inputs _ Hdef (Robot_init_frozen env _ w) arm a Ha)
    as [_ Hall].
  destruct (Hall Hgrasped joint Hjoint) as [v Hv].
  assert (∃ entries s1,
            dump_state_arm env obs arm {| ag := a; world := rworld r |}
            = (Ok entries, s1)) as (entries & s1 & Hdump).
  { unfold dump_state_arm. unfold_M. simpl.
    destruct (_ag_obj_cid a) as [c|] eqn:Hc; simpl; [|by eexists _, _].
    destruct (Hatt c Hc) as (con & b & l & jt & _ & _ & -> & -> & _).
    simpl. destruct (get_child_frame_pose obs _ _ b l). simpl.
    by eexists _, _. }
  exists entries, s1. split; [done|].
  intros robot_dump s Hsub.
  destruct (dump_state_arm_ok env obs arm _ entries s1 Hdump)
    as (p' & _ & -> & _). simpl in Hsub.
  pose proof (load_state_arm_raises env obs arm robot_dump s
                (_ag_obj_in_hand a) (_ag_release_counter a)
                (_ag_freeze_gripper a) (_ag_freeze_joint_pos a)
                (joint_name joint) v) as Hload.
  destruct (load_state_arm env obs arm _ s) as [o s2].
  exists s2. simpl in Hload. rewrite Hload; [done|..|done|done];
    apply Hsub; set_solver.
Qed.

Lemma frozen_keys_after_run_witness :
  let env := Example.robot sticky in
  ∃ w'',
    _freeze_gripper env "0"
      {| ag := Scenes.holding 5 1; world := Example.engine0 |}
    = (Ok tt, {| ag := Scenes.holding 5 1; world := w'' |}).
Proof.
  intros env.
  destruct (frozen_keys_after_run env [(Example.scene 5 0, Example.close)]
              Example.engine0 "0" (Scenes.holding 5 1))
    as (_ & _ & Hfreeze).
  - cbn. by intros [=]%list_elem_of_singleton.
  - vm_compute. reflexivity.
  - apply Hfreeze. intros joint Hj. cbn in Hj.
    repeat (apply elem_of_cons in Hj as [->|Hj];
            [eexists; vm_compute; reflexivity|]).
    by apply elem_of_nil in Hj.
Defined.

Lemma restore_after_grasp_raises_witness :
  let env := Example.robot sticky in
  let obs := Example.scene 5 0 in
  let r := run env [(obs, Example.close)]
             (Robot_init (arm_names env) Example.engine0) in
  ∃ entries s1 s2,
    dump_state_arm env obs "0"
      {| ag := Scenes.holding 5 1; world := rworld r |}
    = (Ok entries, s1)
    ∧ load_state_arm env obs "0"
        {| ManipulationRobot := Some (list_to_map entries) |} s1
      = (Raise ValueError, s2).
Proof.
  intros env obs r.
  destruct (restore_after_grasp_raises env [(obs, Example.close)]
              Example.engine0 "0" (Scenes.holding 5 1)
              {| joint_name := "l_finger_joint"; joint_body_id := 1;
                 joint_id := 8 |} obs)
    as (entries & s1 & Hdump & Hload).
  - cbn. by intros [=]%list_elem_of_singleton.
  - intros k [x Hx]. vm_compute in Hx. discriminate Hx.
  - vm_compute. reflexivity.
  - by left.
  - cbn. apply elem_of_cons. by left.
  - vm_compute. reflexivity.
  - destruct (Hload (list_to_map entries) s1) as [s2 Hs2].
    + intros k v Hin. pose proof Hdump as Hd. vm_compute in Hd.
      injection Hd as <- _.
      repeat (apply elem_of_cons in Hin as [[= -> ->]|Hin];
              [vm_compute; reflexivity|]).
      by apply elem_of_nil in Hin.
    + by exists entries, s1, s2.
Defined.

(** ** The snapshot of the whole robot *)

Lemma list_ascii_of_string_app (s1 s2 : string) :
  String.list_ascii_of_string (s1 +:+ s2)
  = String.list_ascii_of_string s1 ++ String.list_ascii_of_string s2.
Proof. induction s1 as [|c s1 IH]; simpl; [done|by rewrite IH]. Qed.

Lemma list_ascii_of_string_inj s1 s2 :
  String.list_ascii_of_string s1 = String.list_ascii_of_string s2 → s1 = s2.
Proof.
  intros H. rewrite <- (String.string_of_list_ascii_of_string s1),
    <- (String.string_of_list_ascii_of_string s2). by rewrite H.
Qed.

(** The keys of the dump never collide: the key of a field of an arm
    determines the arm and the field, whatever the names of the arms are. *)
Lemma ag_key_inj arm arm' field field' :
  field ∈ ag_fields → field' ∈ ag_fields →
  ag_key arm field = ag_key arm' field' →
  arm = arm' ∧ field = field'.
Proof.
  intros Hf Hf' Heq. unfold ag_key in Heq.
  apply (inj (String.app "_ag_")) in Heq.
  apply (f_equal String.list_ascii_of_string) in Heq.
  rewrite !list_ascii_of_string_app in Heq.
  apply (f_equal (@rev ascii)) in Heq. rewrite !List.rev_app_distr in Heq.
  assert (∀ l l' : list ascii, @rev ascii l = @rev ascii l' → l = l') as Hrev.
  { intros l l' H.
    by rewrite <- (List.rev_involutive l), H, List.rev_involutive. }
  unfold ag_fields in *.
  repeat (apply elem_of_cons in Hf as [->|Hf]);
    [..|by apply elem_of_nil in Hf].
  all: repeat (apply elem_of_cons in Hf' as [->|Hf']);
    [..|by apply elem_of_nil in Hf'].
  all: simpl in Heq; simplify_eq.
  all: split; [|done].
  all: apply list_ascii_of_string_inj, Hrev; done.
Qed.

Lemma dict_update_lookup_ne d l k :
  k ∉ l.*1 → dict_update d l !! k = d !! k.
Proof.
  unfold dict_update. revert d.
  induction l as [|[k1 v1] l IH]; intros d Hk; [done|].
  simpl in *. apply not_elem_of_cons in Hk as [Hne Hk].
  rewrite IH by done. by apply lookup_insert_ne.
Qed.

Lemma dict_update_lookup d l k v :
  NoDup l.*1 → (k, v) ∈ l → dict_update d l !! k = Some v.
Proof.
  unfold dict_update. revert d.
  induction l as [|[k1 v1] l IH]; intros d Hnd Hin.
  { by apply elem_of_nil in Hin. }
  simpl in *. apply NoDup_cons in Hnd as [Hk1 Hnd].
  apply elem_of_cons in Hin as [[= -> ->]|Hin]; [|by apply IH].
  fold (dict_update (<[k1:=v1]> d) l).
  rewrite dict_update_lookup_ne by done. apply lookup_insert_eq.
Qed.

Lemma arm_entries_keys arm a :
  (arm_entries arm a).*1 = ag_key arm <$> ag_fields.
Proof. reflexivity. Qed.

Lemma arm_entries_NoDup arm a : NoDup (arm_entries arm a).*1.
Proof.
  rewrite arm_entries_keys. apply NoDup_fmap_2_strong.
  - intros f f' Hf Hf' Heq. by destruct (ag_key_inj arm arm f f' Hf Hf' Heq).
  - unfold ag_fields. repeat (apply NoDup_cons; split; [set_solver|]).
    apply NoDup_nil_2.
Qed.

Section RobotSnapshot.

Variable env : Env.
Variable obs : Obs.

Lemma dump_state_arm_returns arm a w :
  (is_Some (_ag_obj_cid a) →
   is_Some (childBodyUniqueId (_ag_obj_cid_params a))
   ∧ is_Some (childLinkIndex (_ag_obj_cid_params a))) →
  ∃ a',
    dump_state_arm env obs arm {| ag := a; world := w |}
    = (Ok (arm_entries arm a'), {| ag := a'; world := w |})
    ∧ a' = set_ag_obj_cid_params (_ag_obj_cid_params a') a
    ∧ childBodyUniqueId (_ag_obj_cid_params a')
      = childBodyUniqueId (_ag_obj_cid_params a)
    ∧ childLinkIndex (_ag_obj_cid_params a')
      = childLinkIndex (_ag_obj_cid_params a).
Proof.
  intros Hst. unfold dump_state_arm. unfold_M. simpl.
  destruct (_ag_obj_cid a) as [c|] eqn:Hc; simpl.
  - destruct (Hst ltac:(eauto)) as [[b Hb] [l Hl]]. rewrite Hb, Hl. simpl.
    destruct (get_child_frame_pose obs _ _ b l) as [fp fo]. simpl.
    eexists (set_ag_obj_cid_params _ a). split; [reflexivity|].
    simpl. done.
  - exists a. split; [done|]. by destruct a.
Qed.

Lemma dump_step r done d rc y a :
  dump_inv env obs r done d rc →
  ags r !! y = Some a →
  (is_Some (_ag_obj_cid a) →
   is_Some (childBodyUniqueId (_ag_obj_cid_params a))
   ∧ is_Some (childLinkIndex (_ag_obj_cid_params a))) →
  ∃ d' rc',
    (entries ← on_arm y (dump_state_arm env obs y);
     mret (foldl (λ d '(k, v), <[k:=v]> d) d entries)) rc
    = (Ok d', rc')
    ∧ dump_inv env obs r (done ++ [y]) d' rc'.
Proof.
  intros [Hw Harms Hdone Hkeys] Ha Hst.
  destruct (Harms y a Ha) as (a0 & Ha0 & Hset0 & Hb0 & Hl0).
  destruct (dump_state_arm_returns y a0 (rworld rc))
    as (a' & Hdump & Hset & Hb & Hl).
  { intros Hs. rewrite Hb0, Hl0. apply Hst.
    assert (_ag_obj_cid a0 = _ag_obj_cid a) as <- by (by rewrite Hset0).
    done. }
  unfold_M. unfold on_arm. rewrite Ha0, Hdump. cbv beta iota.
  cbn [ag world].
  exists (dict_update d (arm_entries y a')),
    {| ags := <[y:=a']> (ags rc); rworld := rworld rc |}.
  split; [reflexivity|].
  split; cbn [ags rworld].
  - done.
  - intros arm a1 Ha1. destruct (decide (arm = y)) as [->|Hne].
    + rewrite lookup_insert_eq. exists a'. split; [done|].
      assert (a1 = a) as -> by congruence.
      split; [|split; congruence].
      rewrite Hset, Hset0. by destruct a.
    + rewrite lookup_insert_ne by done. by apply Harms.
  - intros arm Hin. destruct (decide (arm = y)) as [->|Hne].
    + rewrite lookup_insert_eq. exists a'. split; [done|].
      intros k v Hkv. apply dict_update_lookup; [|done].
      apply arm_entries_NoDup.
    + rewrite lookup_insert_ne by done.
      apply elem_of_app in Hin as [Hin|Hin];
        [|by apply list_elem_of_singleton in Hin].
      destruct (Hdone arm Hin) as (a1 & Ha1 & Hent).
      exists a1. split; [done|]. intros k v Hkv.
      rewrite dict_update_lookup_ne; [by apply Hent|].
      rewrite arm_entries_keys. intros Hk.
      apply list_elem_of_fmap in Hk as (f' & -> & Hf').
      assert (ag_key y f' ∈ (arm_entries arm a1).*1) as Hk1.
      { apply list_elem_of_fmap. by exists (ag_key y f', v). }
      rewrite arm_entries_keys in Hk1.
      apply list_elem_of_fmap in Hk1 as (f & Heq & Hf).
      destruct (ag_key_inj y arm f' f Hf' Hf Heq). congruence.
  - intros k Hk.
    destruct (decide (k ∈ (arm_entries y a').*1)) as [Hin|Hnin].
    + rewrite arm_entries_keys in Hin.
      apply list_elem_of_fmap in Hin as (f & -> & Hf).
      exists y, f. split; [|done]. apply elem_of_app. right.
      by apply list_elem_of_singleton.
    + rewrite dict_update_lookup_ne in Hk by done.
      destruct (Hkeys k Hk) as (arm & f & Hin & Hf & ->).
      exists arm, f. split; [|done]. apply elem_of_app. by left.
Qed.

Lemma dump_loop r arms done d rc :
  dump_inv env obs r done d rc →
  (∀ arm, arm ∈ arms →
     ∃ a, ags r !! arm = Some a
          ∧ (is_Some (_ag_obj_cid a) →
             is_Some (childBodyUniqueId (_ag_obj_cid_params a))
             ∧ is_Some (childLinkIndex (_ag_obj_cid_params a)))) →
  ∃ d' rc',
    fold_each arms
      (λ (ag_dump : gmap string DumpVal) arm,
         entries ← on_arm arm (dump_state_arm env obs arm);
         mret (foldl (λ d '(k, v), <[k := v]> d) ag_dump entries))
      d rc
    = (Ok d', rc')
    ∧ dump_inv env obs r (done ++ arms) d' rc'.
Proof.
  revert done d rc. induction arms as [|y arms IH]; intros done d rc Hinv Harms.
  { simpl. eexists _, _. split; [reflexivity|]. by rewrite app_nil_r. }
  destruct (Harms y ltac:(by left)) as (a & Ha & Hst).
  destruct (dump_step r done d rc y a Hinv Ha Hst) as (d1 & rc1 & Hstep & Hinv1).
  destruct (IH (done ++ [y]) d1 rc1 Hinv1) as (d' & rc' & Hloop & Hinv').
  { intros arm Hin. apply Harms. by right. }
  exists d', rc'. split.
  - simpl. unfold Py.bind. rewrite Hstep. exact Hloop.
  - by rewrite <- app_assoc in Hinv'.
Qed.

(** X28: [dump_state] on a robot in a mode other than the physical one,
    all of whose arms have their fields and, for a handle, the child body
    and link in the recorded parameters: the snapshot returns, the engine is
    untouched, every arm differs from before at most in the recorded
    parameters, the dump holds the six entries of every arm under keys that
    no other arm or field writes, and it holds nothing else: a key of the
    dump determines its arm and its field, whatever the arms are called. *)
Theorem dump_state_entries r :
  grasping_mode env ≠ physical →
  (∀ arm, arm ∈ arm_names env →
     ∃ a, ags r !! arm = Some a
          ∧ (is_Some (_ag_obj_cid a) →
             is_Some (childBodyUniqueId (_ag_obj_cid_params a))
             ∧ is_Some (childLinkIndex (_ag_obj_cid_params a)))) →
  ∃ robot_dump r',
    dump_state env obs r = (Ok {| ManipulationRobot := Some robot_dump |}, r')
    ∧ rworld r' = rworld r
    ∧ (∀ arm a, ags r !! arm = Some a →
         ∃ a', ags r' !! arm = Some a'
               ∧ a' = set_ag_obj_cid_params (_ag_obj_cid_params a') a)
    ∧ (∀ arm, arm ∈ arm_names env →
         ∃ a', ags r' !! arm = Some a'
               ∧ ∀ k v, (k, v) ∈ arm_entries arm a' →
                        robot_dump !! k = Some v)
    ∧ (∀ k, is_Some (robot_dump !! k) →
            ∃ arm field, arm ∈ arm_names env ∧ field ∈ ag_fields
                         ∧ k = ag_key arm field)
    ∧ (∀ arm arm' field field',
         field ∈ ag_fields → field' ∈ ag_fields →
         ag_key arm field = ag_key arm' field' →
         arm = arm' ∧ field = field').
Proof.
  intros Hmode Harms. unfold dump_state.
  destruct (decide (grasping_mode env = physical)); [done|].
  destruct (dump_loop r (arm_names env) [] ∅ r) as (d & r' & Hloop & Hinv).
  { split; [done| |by intros arm ?%elem_of_nil|].
    - intros arm a Ha. exists a. split; [done|]. by destruct a.
    - intros k [x Hx]. by rewrite lookup_empty in Hx. }
  { done. }
  destruct Hinv as [Hw Harms' Hdone Hkeys].
  exists d, r'. split.
  { unfold_M. unfold mbind, M_bind, Py.bind in Hloop |- *.
    by rewrite Hloop. }
  split; [done|]. split.
  { intros arm a Ha. destruct (Harms' arm a Ha) as (a' & ? & ? & _).
    by exists a'. }
  split; [done|]. split; [done|].
  intros arm arm' f f'. apply ag_key_inj.
Qed.

End RobotSnapshot.

(** X29: after every run from the initial state [dump_state] returns and
    leaves the engine untouched; in the physical mode the dump has no entry
    and nothing changes, otherwise the dump holds the six entries of every
    arm and the arms differ from before at most in the recorded
    parameters. *)
Theorem dump_state_after_run env obs inputs w :
  "default"%string ∉ arm_names env →
  (∀ k, is_Some (constraints w !! k) → k < next_constraint w) →
  let r := run env inputs (Robot_init (arm_names env) w) in
  ∃ dump r',
    dump_state env obs r = (Ok dump, r')
    ∧ rworld r' = rworld r
    ∧ (grasping_mode env = physical →
       ManipulationRobot dump = None ∧ r' = r)
    ∧ (grasping_mode env ≠ physical →
       ∃ robot_dump,
         ManipulationRobot dump = Some robot_dump
         ∧ ∀ arm, arm ∈ arm_names env →
             ∃ a a',
               ags r !! arm = Some a
               ∧ ags r' !! arm = Some a'
               ∧ a' = set_ag_obj_cid_params (_ag_obj_cid_params a') a
               ∧ ∀ k v, (k, v) ∈ arm_entries arm a' →
                        robot_dump !! k = Some v).
Proof.
  intros Hdef Hw r. unfold dump_state.
  destruct (decide (grasping_mode env = physical)) as [Hph|Hph].
  { exists {| ManipulationRobot := None |}, r. by repeat split. }
  destruct (run_handles env inputs (Robot_init (arm_names env) w) Hdef
              (Robot_init_handles env _ w Hw)) as [_ Hatt _ _].
  fold r in Hatt.
  assert (∀ arm, arm ∈ arm_names env →
            ∃ a, ags r !! arm = Some a
                 ∧ (is_Some (_ag_obj_cid a) →
                    is_Some (childBodyUniqueId (_ag_obj_cid_params a))
                    ∧ is_Some (childLinkIndex (_ag_obj_cid_params a))))
    as Harms.
  { intros arm Hin. destruct (run_arm env inputs w arm Hin) as (a & Ha & _).
    exists a. split; [done|]. intros [c Hc].
    destruct (Hatt arm a Ha c Hc) as (? & ? & ? & ? & _ & _ & -> & -> & _).
    split; by eexists. }
  destruct (dump_loop env obs r (arm_names env) [] ∅ r)
    as (d & r' & Hloop & [Hw' Harms' Hdone _]).
  { split; [done| |by intros arm ?%elem_of_nil|].
    - intros arm a Ha. exists a. split; [done|]. by destruct a.
    - intros k [x Hx]. by rewrite lookup_empty in Hx. }
  { done. }
  exists {| ManipulationRobot := Some d |}, r'. split.
  { unfold_M. unfold mbind, M_bind, Py.bind in Hloop |- *.
    by rewrite Hloop. }
  split; [done|]. split; [done|]. intros _. exists d. split; [done|].
  intros arm Hin. destruct (Harms arm Hin) as (a & Ha & _).
  destruct (Harms' arm a Ha) as (a' & Ha' & Hset & _).
  destruct (Hdone arm Hin) as (a'' & Ha'' & Hent).
  exists a, a'. split; [done|]. split; [done|]. split; [done|].
  by assert (a'' = a') as <- by congruence.
Qed.

Lemma dump_state_entries_witness :
  let env := Example.robot sticky in
  let obs := Example.scene 5 0 in
  let r := run env [(obs, Example.close)] (Example.start sticky) in
  ∃ robot_dump r',
    dump_state env obs r = (Ok {| ManipulationRobot := Some robot_dump |}, r')
    ∧ robot_dump !! ag_key "0" "obj_in_hand" = Some (DInt (Some 5)).
Proof.
  intros env obs r.
  destruct (dump_state_entries env obs r)
    as (robot_dump & r' & Hdump & _ & Harms & Hent & _).
  - done.
  - cbn. intros arm ->%list_elem_of_singleton.
    exists (Scenes.holding 5 1). split; [vm_compute; reflexivity|].
    intros _. split; by eexists.
  - exists robot_dump, r'. split; [exact Hdump|].
    destruct (Hent "0"%string) as (a' & Ha' & Hk).
    { cbn. by apply list_elem_of_singleton. }
    destruct (Harms "0"%string (Scenes.holding 5 1))
      as (a'' & Ha'' & Hset); [vm_compute; reflexivity|].
    assert (a'' = a') as -> by congruence.
    rewrite (Hk (ag_key "0" "obj_in_hand") (DInt (_ag_obj_in_hand a')))
      by (by left).
    by rewrite Hset.
Defined.

Lemma dump_state_after_run_witness :
  let env := Example.robot sticky in
  let obs := Example.scene 5 0 in
  let r := run env [(obs, Example.close)]
             (Robot_init (arm_names env) Example.engine0) in
  ∃ dump r', dump_state env obs r = (Ok dump, r') ∧ rworld r' = rworld r.
Proof.
  intros env obs r.
  destruct (dump_state_after_run env obs [(obs, Example.close)]
              Example.engine0)
    as (dump & r' & Hdump & Hw & _).
  - cbn. by intros [=]%list_elem_of_singleton.
  - intros k [x Hx]. vm_compute in Hx. discriminate Hx.
  - exists dump, r'. split; [exact Hdump|exact Hw].
Defined.

(** ** The constraints the robot leaves in the engine *)

Section Owners.

Variable env : Env.
Variable obs : Obs.

Lemma handle_arm_created arm action s :
  arm ≠ "default"%string →
  next_constraint
    (world (_handle_assisted_grasping_arm env obs arm action s).2)
  ≠ next_constraint (world s) →
  truthy_int (_ag_obj_in_hand (ag s)) = false.
Proof.
  intros Harm. unfold _handle_assisted_grasping_arm, controller_mode,
    gripper_command. unfold_M.
  destruct (gripper_controller obs arm) as [| |mode ? ? ?|]; try done.
  simpl. destruct (String.eqb mode "binary"); [|done]. simpl.
  destruct (action !! controller_action_idx env arm) as [a|]; [|done].
  simpl. destruct (truthy_int (_ag_obj_in_hand (ag s))) eqn:Hobj; [|done].
  destruct (_ag_obj_in_hand (ag s)) as [b|] eqn:Hb; [|done].
  destruct (_ag_release_counter (ag s)) as [c|] eqn:Hcnt; simpl.
  - rewrite (handle_release_window_eq env obs arm s c b) by done. simpl.
    destruct (_ <=? _)%float; simpl;
      by rewrite ?set_pairs_next_constraint.
  - destruct (_ || _); [|done].
    destruct (release_grasp_change env arm s Harm) as [? H2 ? ?|? H2 ?|? ? H2 ? ?];
      try done.
    revert H2. unfold _release_grasp. unfold_M.
    rewrite resolve_arm_id by done. simpl.
    destruct (_ag_obj_cid (ag s)); simpl; [lia|].
    destruct (removeConstraint_None env); simpl; lia.
Qed.

Lemma handle_arm_nonzero arm action s :
  arm ≠ "default"%string →
  (∀ l, can_assisted_grasp obs 0 l = false) →
  _ag_obj_in_hand (ag s) ≠ Some 0 →
  _ag_obj_in_hand (ag (_handle_assisted_grasping_arm env obs arm action s).2)
  ≠ Some 0.
Proof.
  intros Harm Hzero Hnz. unfold _handle_assisted_grasping_arm, controller_mode,
    gripper_command. unfold_M.
  destruct (gripper_controller obs arm) as [| |mode ? ? ?|]; try done.
  simpl. destruct (String.eqb mode "binary"); [|done]. simpl.
  destruct (action !! controller_action_idx env arm) as [a|]; [|done].
  simpl. destruct (truthy_int (_ag_obj_in_hand (ag s))) eqn:Hobj.
  - destruct (is_not_None (_ag_release_counter (ag s))) eqn:Hcnt.
    + destruct (handle_release_window_ag env obs arm s)
        as [-> | [(c & Hc & ->) | (c & Hc & ->)]]; simpl; done.
    + destruct (_ || _); [|done].
      destruct (release_grasp_ag env arm s) as [-> | ->]; simpl; done.
  - destruct (_ <? _)%float; [|done].
    pose proof (reads_only_calculate env obs arm s) as Hr.
    destruct (_calculate_in_hand_object env obs arm s) as [[data|e] s1]
      eqn:Hcalc; simpl in *; subst s1; [|done].
    unfold _establish_grasp. unfold_M.
    rewrite resolve_arm_id by done. simpl.
    destruct data as [[ag_bid ag_link]|]; [|done].
    destruct (calculate_in_hand_object_inv env obs arm s s ag_bid ag_link
                Harm Hcalc)
      as (cs & ranked & dist & rest & rc & _ & _ & _ & _ & _ & Hcan & _).
    destruct (find_contact_pos _ _) as [contact_pos|]; [|done].
    destruct_poses. simpl.
    rewrite set_coll_filter_eq. simpl.
    rewrite (freeze_loop_eq obs) by done. simpl.
    intros [= ->]. by rewrite Hzero in Hcan.
Qed.

Lemma on_arm_owned {A} n0 w0 arm (m : M ArmState A) r :
  (∀ s, lifecycle_inv (ag s) → handle_change env arm s (m s).2) →
  (∀ s, lifecycle_inv (ag s) → lifecycle_inv (ag (m s).2)) →
  (∀ s, next_constraint (world (m s).2) ≠ next_constraint (world s) →
        truthy_int (_ag_obj_in_hand (ag s)) = false) →
  (∀ s, _ag_obj_in_hand (ag s) ≠ Some 0 →
        _ag_obj_in_hand (ag (m s).2) ≠ Some 0) →
  owned_inv env n0 w0 r → owned_inv env n0 w0 (on_arm arm m r).2.
Proof.
  intros Hm Hlife Hcreated Hnonzero [Hh Hnext Hold Hcids Hlive Hnz].
  pose proof (on_arm_handles env arm m r Hm Hlife Hh) as Hh'.
  revert Hh'. unfold on_arm.
  destruct (ags r !! arm) as [a|] eqn:Ha; [|by split].
  pose proof (handles_lifecycle _ _ Hh _ _ Ha) as Hinv_a. simpl in Hinv_a.
  specialize (Hm {| ag := a; world := rworld r |} Hinv_a).
  specialize (Hcreated {| ag := a; world := rworld r |}).
  specialize (Hnonzero {| ag := a; world := rworld r |} (Hnz _ _ Ha)).
  destruct (m _) as [o s']. simpl in *. intros Hh'.
  assert (∀ arm0 a0, arm0 ≠ arm → ags r !! arm0 = Some a0 →
            <[arm:=ag s']> (ags r) !! arm0 = Some a0) as Hother.
  { intros arm0 a0 Hne Ha0. by rewrite lookup_insert_ne. }
  assert (∀ arm0 a0, <[arm:=ag s']> (ags r) !! arm0 = Some a0 →
            arm0 = arm ∧ a0 = ag s' ∨ arm0 ≠ arm ∧ ags r !! arm0 = Some a0)
    as Hcases.
  { intros arm0 a0 Ha0. destruct (decide (arm0 = arm)) as [->|Hne].
    - rewrite lookup_insert_eq in Ha0. left. by simplify_eq.
    - rewrite lookup_insert_ne in Ha0 by done. by right. }
  destruct Hm as [H1 H2 H3 H4 | H1 H2 H3 | con H1 H2 H3 H4]; simpl in *.
  - split; simpl; [done|lia| | | |].
    + intros k Hk. rewrite H1. by apply Hold.
    + intros arm0 a0 k Ha0 Hk.
      destruct (Hcases _ _ Ha0) as [[-> ->]|[Hne Ha0']].
      * apply (Hcids arm a k Ha). congruence.
      * by apply (Hcids arm0 a0 k).
    + intros k Hk Hl. rewrite H1 in Hl.
      destruct (Hlive k Hk Hl) as (arm0 & a0 & Ha0 & Hc0).
      destruct (decide (arm0 = arm)) as [->|Hne].
      * exists arm, (ag s'). rewrite lookup_insert_eq. split; [done|].
        congruence.
      * exists arm0, a0. split; [by apply Hother|done].
    + intros arm0 a0 Ha0.
      destruct (Hcases _ _ Ha0) as [[-> ->]|[Hne Ha0']]; [done|].
      by apply (Hnz arm0).
  - split; simpl; [done|lia| | | |].
    + intros k Hk. rewrite H1. destruct (_ag_obj_cid a) as [c|] eqn:Hc.
      * rewrite lookup_delete_ne; [by apply Hold|].
        specialize (Hcids arm a c Ha Hc). lia.
      * by apply Hold.
    + intros arm0 a0 k Ha0 Hk.
      destruct (Hcases _ _ Ha0) as [[-> ->]|[Hne Ha0']]; [congruence|].
      by apply (Hcids arm0 a0 k).
    + intros k Hk Hl. rewrite H1 in Hl.
      assert (is_Some (constraints (rworld r) !! k)
              ∧ _ag_obj_cid a ≠ Some k) as [Hl' Hck].
      { destruct (_ag_obj_cid a) as [c|]; [|done].
        apply lookup_delete_is_Some in Hl as [? ?]. split; [done|congruence]. }
      destruct (Hlive k Hk Hl') as (arm0 & a0 & Ha0 & Hc0).
      assert (arm0 ≠ arm) as Hne by (intros ->; congruence).
      exists arm0, a0. split; [by apply Hother|done].
    + intros arm0 a0 Ha0.
      destruct (Hcases _ _ Ha0) as [[-> ->]|[Hne Ha0']]; [done|].
      by apply (Hnz arm0).
  - assert (_ag_obj_cid a = None) as Hnone.
    { assert (truthy_int (_ag_obj_in_hand a) = false) as Htr
        by (apply Hcreated; lia).
      destruct (_ag_obj_cid a) as [c|] eqn:Hc; [|done].
      destruct (proj1 (inv_cid _ Hinv_a)) as [[b Hb] _]; [by eexists|].
      rewrite Hb in Htr. simpl in Htr.
      apply negb_false_iff, Z.eqb_eq in Htr. subst b.
      by destruct (Hnz arm a Ha). }
    split; simpl; [done|lia| | | |].
    + intros k Hk. rewrite H1. rewrite lookup_insert_ne by lia.
      by apply Hold.
    + intros arm0 a0 k Ha0 Hk.
      destruct (Hcases _ _ Ha0) as [[-> ->]|[Hne Ha0']].
      * rewrite H3 in Hk. injection Hk as <-. lia.
      * by apply (Hcids arm0 a0 k).
    + intros k Hk Hl. rewrite H1 in Hl.
      apply lookup_insert_is_Some in Hl as [<-|[Hnk Hl]].
      * exists arm, (ag s'). by rewrite lookup_insert_eq.
      * destruct (Hlive k Hk Hl) as (arm0 & a0 & Ha0 & Hc0).
        assert (arm0 ≠ arm) as Hne by (intros ->; congruence).
        exists arm0, a0. split; [by apply Hother|done].
    + intros arm0 a0 Ha0.
      destruct (Hcases _ _ Ha0) as [[-> ->]|[Hne Ha0']]; [done|].
      by apply (Hnz arm0).
Qed.

Lemma freeze_gripper_next arm s :
  next_constraint (world (_freeze_gripper env arm s).2)
  = next_constraint (world s).
Proof.
  unfold _freeze_gripper.
  apply (bind_preserves
           (λ s', next_constraint (world s') = next_constraint (world s)));
    [intros s0 H0; by rewrite reads_only_resolve_arm| |done].
  intros _ s0 H0. unfold_M. simpl.
  apply (for_each_preserves
           (λ s', next_constraint (world s') = next_constraint (world s)));
    [|done].
  intros [key v] s1 H1. unfold_M.
  destruct key as [name|z]; [|done].
  by destruct (_joints env !! name).
Qed.

Lemma apply_action_owned n0 w0 action r :
  "default"%string ∉ arm_names env →
  (∀ l, can_assisted_grasp obs 0 l = false) →
  owned_inv env n0 w0 r →
  owned_inv env n0 w0 (apply_action env obs action r).2.
Proof.
  intros Hdef Hzero. unfold apply_action.
  apply (bind_preserves (owned_inv env n0 w0)).
  - intros r' Hr'. destruct (decide _); [|done].
    apply (for_each_preserves_in (owned_inv env n0 w0)); [|done].
    intros arm r'' Hin Hr''.
    assert (arm ≠ "default"%string) as Harm by (intros ->; done).
    apply on_arm_owned; [| | | |done].
    + intros s Hs. by apply handle_arm_change.
    + intros s Hs. by apply handle_arm_inv.
    + intros s. by apply handle_arm_created.
    + intros s. by apply handle_arm_nonzero.
  - intros _. apply (for_each_preserves (owned_inv env n0 w0)).
    intros arm r' Hr'. apply on_arm_owned; [| | | |done].
    + intros s Hs. unfold_M. simpl.
      destruct (truthy_bool _); [|apply handle_change_refl].
      apply freeze_gripper_change.
    + intros s Hs. unfold_M. simpl. destruct (truthy_bool _); [|done].
      by rewrite keeps_ag_freeze_gripper.
    + intros s. unfold_M. simpl. destruct (truthy_bool _); [|done].
      by rewrite freeze_gripper_next.
    + intros s. unfold_M. simpl. destruct (truthy_bool _); [|done].
      by rewrite keeps_ag_freeze_gripper.
Qed.

End Owners.

Lemma run_owned env n0 w0 inputs r :
  "default"%string ∉ arm_names env →
  Forall (λ input : Obs * list float,
            ∀ l, can_assisted_grasp input.1 0 l = false) inputs →
  owned_inv env n0 w0 r → owned_inv env n0 w0 (run env inputs r).
Proof.
  intros Hdef Hin. revert r.
  induction Hin as [|[obs action] inputs Hzero Hin IH]; intros r Hr; [done|].
  simpl. apply IH. by apply apply_action_owned.
Qed.

(** X30: no constraint leaks.  After every run from the initial state in
    which the simulator never allows to grasp the body 0, the constraints
    that were in the engine before are untouched, every constraint the run
    left in the engine is the handle of an arm that holds a body, and no arm
    holds the body 0 (whose id the conditions of [_handle_assisted_grasping]
    take for no body at all). *)
Theorem constraints_are_owned env inputs w :
  "default"%string ∉ arm_names env →
  (∀ k, is_Some (constraints w !! k) → k < next_constraint w) →
  Forall (λ input : Obs * list float,
            ∀ l, can_assisted_grasp input.1 0 l = false) inputs →
  let r := run env inputs (Robot_init (arm_names env) w) in
  (∀ k, k < next_constraint w →
        constraints (rworld r) !! k = constraints w !! k)
  ∧ (∀ k, next_constraint w ≤ k →
          is_Some (constraints (rworld r) !! k) →
          ∃ arm a, ags r !! arm = Some a ∧ _ag_obj_cid a = Some k
                   ∧ Holding a)
  ∧ (∀ arm a, ags r !! arm = Some a → _ag_obj_in_hand a ≠ Some 0).
Proof.
  intros Hdef Hw Hzero r.
  destruct (run_owned env (next_constraint w) w inputs
              (Robot_init (arm_names env) w) Hdef Hzero)
    as [Hh _ Hold _ Hlive Hnz].
  { assert (∀ arm a, ags (Robot_init (arm_names env) w) !! arm = Some a →
              a = AG_init) as Hinit.
    { intros arm a Ha. unfold Robot_init in Ha. simpl in Ha.
      apply elem_of_list_to_map_2 in Ha.
      by apply list_elem_of_fmap in Ha as (? & [= _ ->] & _). }
    split; simpl.
    - by apply Robot_init_handles.
    - lia.
    - done.
    - intros arm a k Ha Hk. apply Hinit in Ha as ->. done.
    - intros k Hk Hl. specialize (Hw k Hl). lia.
    - intros arm a Ha. apply Hinit in Ha as ->. done. }
  fold r in Hh, Hold, Hlive, Hnz.
  split; [done|]. split; [|done].
  intros k Hk Hl. destruct (Hlive k Hk Hl) as (arm & a & Ha & Hc).
  exists arm, a. split; [done|]. split; [done|].
  apply (inv_cid _ (handles_lifecycle _ _ Hh _ _ Ha)). by eexists.
Qed.

Lemma constraints_are_owned_witness :
  let env := Example.robot sticky in
  let obs := Scenes.without_body_0 (Example.scene 5 0) in
  let r := run env [(obs, Example.close); (obs, Example.open)]
             (Robot_init (arm_names env) Example.engine0) in
  constraints (rworld r) = ∅
  ∧ ∀ k, next_constraint Example.engine0 ≤ k →
         is_Some (constraints (rworld r) !! k) →
         ∃ arm a, ags r !! arm = Some a ∧ _ag_obj_cid a = Some k ∧ Holding a.
Proof.
  intros env obs r. split; [vm_compute; reflexivity|].
  apply (constraints_are_owned env
           [(obs, Example.close); (obs, Example.open)] Example.engine0).
  - cbn. by intros [=]%list_elem_of_singleton.
  - intros k [x Hx]. vm_compute in Hx. discriminate Hx.
  - repeat (apply Forall_cons_2; [intros l; reflexivity|]).
    apply Forall_nil_2.
Defined.
